(** * OxygenPlatform: order / cylinder lifecycle engine

    A shallow embedding of the service layer of the platform
    (cylinder registry, order engine, delivery tracker, geo-matcher and the
    read-through cache) together with the properties stated about it.

    Conventions of the embedding:
    - SQL tables are finite maps from primary key to row; the two audit
      tables are append-only lists in commit order (the position in the list
      stands for the generated id);
    - the Redis cache is a finite map from key string to the stored JSON text,
      which is kept structured;
    - a service method is a computation in a state-and-exception monad over
      the store; a raised exception leaves the committed tables as they were;
    - a Python float is a finite double (a real number), an infinity or NaN;
      the rounding of the machine and the C library at finite arguments are
      parameters of the geo-matcher, its behaviour at special values and its
      errors are not. *)

From Stdlib Require Import ZArith String List Reals Lra Lia Permutation Sorted.
From stdpp Require Import gmap strings list fin_maps pretty.

Local Open Scope Z_scope.
Local Open Scope string_scope.
Local Open Scope list_scope.

(* ===================================================================== *)
(** ** Enumerations (cylinders/enums.py, orders/enums.py)                  *)
(* ===================================================================== *)

Module CylinderStatus.
Inductive t := FILLED | IN_TRANSIT | EMPTY | RETURNED.
#[global] Instance eq_dec : EqDecision t.
Proof. solve_decision. Defined.
End CylinderStatus.

Module CylinderEventType.
Inductive t :=
  CREATED | STATUS_CHANGED | ASSIGNED | UNASSIGNED | LOCATION_UPDATED | DELETED.
#[global] Instance eq_dec : EqDecision t.
Proof. solve_decision. Defined.
End CylinderEventType.

Module OrderStatus.
Inductive t := PENDING | ACCEPTED | IN_TRANSIT | DELIVERED | CANCELLED.
#[global] Instance eq_dec : EqDecision t.
Proof. solve_decision. Defined.

(** The string value of a member ([class OrderStatus(str, Enum)]). *)
Definition value (s : t) : string :=
  match s with
  | PENDING => "pending"
  | ACCEPTED => "accepted"
  | IN_TRANSIT => "in_transit"
  | DELIVERED => "delivered"
  | CANCELLED => "cancelled"
  end.

(** Attribute access [OrderStatus.<name>] on the enum class: the members
    declared in enums.py, and nothing else. *)
Definition getattr (name : string) : option t :=
  if decide (name = "PENDING") then Some PENDING
  else if decide (name = "ACCEPTED") then Some ACCEPTED
  else if decide (name = "IN_TRANSIT") then Some IN_TRANSIT
  else if decide (name = "DELIVERED") then Some DELIVERED
  else if decide (name = "CANCELLED") then Some CANCELLED
  else None.

(** Lookup of a member by its string value. *)
Definition of_value (v : string) : option t :=
  if decide (v = "pending") then Some PENDING
  else if decide (v = "accepted") then Some ACCEPTED
  else if decide (v = "in_transit") then Some IN_TRANSIT
  else if decide (v = "delivered") then Some DELIVERED
  else if decide (v = "cancelled") then Some CANCELLED
  else None.
End OrderStatus.

Module OrderUrgency.
Inductive t := LOW | MEDIUM | HIGH | CRITICAL.
#[global] Instance eq_dec : EqDecision t.
Proof. solve_decision. Defined.
End OrderUrgency.

Module OrderEventType.
Inductive t :=
  | CREATED | STATUS_CHANGED | VENDOR_ASSIGNED | CYLINDERS_ASSIGNED
  | CYLINDERS_UPDATED | CANCELLED | COMPLETED.
#[global] Instance eq_dec : EqDecision t.
Proof. solve_decision. Defined.

(** Attribute access [OrderEventType.<name>] on the enum class. *)
Definition getattr (name : string) : option t :=
  if decide (name = "CREATED") then Some CREATED
  else if decide (name = "STATUS_CHANGED") then Some STATUS_CHANGED
  else if decide (name = "VENDOR_ASSIGNED") then Some VENDOR_ASSIGNED
  else if decide (name = "CYLINDERS_ASSIGNED") then Some CYLINDERS_ASSIGNED
  else if decide (name = "CYLINDERS_UPDATED") then Some CYLINDERS_UPDATED
  else if decide (name = "CANCELLED") then Some CANCELLED
  else if decide (name = "COMPLETED") then Some COMPLETED
  else None.
End OrderEventType.

(* ===================================================================== *)
(** ** Schemas and rows (schemas.py, models.py)                            *)
(* ===================================================================== *)

(** A Python float: a finite double, which is a real number, an infinity or
    NaN.  The two zeros are not told apart; nothing below depends on the sign
    of a zero. *)
Inductive float :=
  | Finite (x : R)
  | Infinity
  | NegInfinity
  | NaN.

#[global] Instance float_eq_dec : EqDecision float.
Proof.
  intros [x| | |] [y| | |];
    try (right; discriminate); try (left; reflexivity).
  destruct (Req_EM_T x y) as [->|Hne];
    [left; reflexivity | right; intros [=]; contradiction].
Defined.

(** [class Location(BaseModel)]: every field is optional. *)
Module Location.
Record t := mk {
  address : option string;
  latitude : option float;
  longitude : option float;
  notes : option string
}.
End Location.

(** Timestamps ([datetime]) are seconds on the integer line. *)
Definition datetime := Z.

(** Row of table [cylinders].  The primary key [id] is the key under which
    the row sits in the table map, so [cylinder.id] of the source is that
    key.  [is_assigned] is a nullable Boolean column whose default is
    [False]; [status] is not nullable. *)
Module Cylinder.
Record t := mk {
  serial_number : string;
  status : CylinderStatus.t;
  vendor_id : Z;
  location : option Location.t;
  is_assigned : option bool;
  current_order_id : option Z
}.
End Cylinder.

(** [CylinderLogCreate]: the columns the service supplies for a row of
    [cylinder_logs]. *)
Module CylinderLog.
Record t := mk {
  cylinder_id : Z;
  event_type : CylinderEventType.t;
  old_status : option CylinderStatus.t;
  new_status : option CylinderStatus.t;
  order_id : option Z;
  location : option Location.t;
  notes : option string;
  created_by : Z
}.
End CylinderLog.

Module CylinderCreate.
Record t := mk {
  serial_number : string;
  location : option Location.t;
  status : CylinderStatus.t
}.
End CylinderCreate.

(** [CylinderUpdate]: each field is either left out of the request
    ([None], dropped by [model_dump(exclude_unset=True)]) or given, possibly
    as an explicit null ([Some None]). *)
Module CylinderUpdate.
Record t := mk {
  status : option (option CylinderStatus.t);
  location : option (option Location.t);
  is_assigned : option (option bool);
  current_order_id : option (option Z)
}.
End CylinderUpdate.

(** Row of table [orders] with its side of the [order_cylinders]
    association table ([cylinders], the ids in insertion order).
    [total_amount] is NOT NULL and has no default; [payment_status], which
    these services neither read nor write, is left out.  As for cylinders,
    [order.id] is the key of the row in the table map. *)
Module Order.
Record t := mk {
  hospital_id : Z;
  vendor_id : option Z;
  status : OrderStatus.t;
  total_amount : Z;
  urgency : OrderUrgency.t;
  quantity : Z;
  delivery_location : Location.t;
  special_instructions : option string;
  cylinders_sent : Z;
  empty_cylinders_returned : Z;
  expected_delivery : option datetime;
  delivered_at : option datetime;
  cylinders : list Z
}.
End Order.

(** Free-form [details] payload of an order log entry. *)
Inductive OrderLogDetails :=
  | AcceptDetails (assigned_cylinders : list Z) (expected_delivery : datetime)
  | DeliveryDetails (cylinders_sent empty_cylinders_returned : Z)
                    (notes : option string)
  | TrackingDetails (location : option string) (status_update : string)
                    (driver : option (list (string * string))).

(** [OrderLogCreate]: the columns the service supplies for a row of
    [order_logs]. *)
Module OrderLog.
Record t := mk {
  order_id : Z;
  event_type : OrderEventType.t;
  old_status : option OrderStatus.t;
  new_status : option OrderStatus.t;
  details : option OrderLogDetails;
  notes : option string;
  created_by : Z
}.
End OrderLog.

Module OrderCreate.
Record t := mk {
  quantity : Z;
  urgency : OrderUrgency.t;
  delivery_location : Location.t;
  special_instructions : option string
}.
End OrderCreate.

Module OrderDeliveryUpdate.
Record t := mk {
  status : OrderStatus.t;
  cylinders_sent : Z;
  empty_cylinders_returned : Z;
  delivered_at : option datetime;
  notes : option string
}.
End OrderDeliveryUpdate.

(** [DeliveryUpdate] of the delivery tracker: the status is a plain string. *)
Module DeliveryUpdate.
Record t := mk {
  eta : option datetime;
  current_location : option string;
  status : string;
  notes : option string
}.
End DeliveryUpdate.

(* ===================================================================== *)
(** ** Store, exceptions and the service monad                             *)
(* ===================================================================== *)

(** What [json.dumps] wrote under a cache key.  [RawJson] stands for any
    other text found in Redis; the empty text is the only falsy one. *)
Inductive CacheValue :=
  | CylinderJson (id : Z) (c : Cylinder.t)
  | OrderJson (id : Z) (o : Order.t)
  | RawJson (text : string).

Definition truthy (cached : option CacheValue) : bool :=
  match cached with
  | None => false
  | Some (RawJson "") => false
  | Some _ => true
  end.

Record Store := mkStore {
  cylinders : gmap Z Cylinder.t;
  cylinder_logs : list CylinderLog.t;
  orders : gmap Z Order.t;
  order_logs : list OrderLog.t;
  cache : gmap string CacheValue
}.

Definition set_cylinders (f : gmap Z Cylinder.t → gmap Z Cylinder.t) (st : Store) :=
  mkStore (f (cylinders st)) (cylinder_logs st) (orders st) (order_logs st) (cache st).
Definition set_cylinder_logs (f : list CylinderLog.t → list CylinderLog.t) (st : Store) :=
  mkStore (cylinders st) (f (cylinder_logs st)) (orders st) (order_logs st) (cache st).
Definition set_orders (f : gmap Z Order.t → gmap Z Order.t) (st : Store) :=
  mkStore (cylinders st) (cylinder_logs st) (f (orders st)) (order_logs st) (cache st).
Definition set_order_logs (f : list OrderLog.t → list OrderLog.t) (st : Store) :=
  mkStore (cylinders st) (cylinder_logs st) (orders st) (f (order_logs st)) (cache st).
Definition set_cache (f : gmap string CacheValue → gmap string CacheValue) (st : Store) :=
  mkStore (cylinders st) (cylinder_logs st) (orders st) (order_logs st) (f (cache st)).

(** The committed relational data, without the cache. *)
Definition db (st : Store) :=
  (cylinders st, cylinder_logs st, orders st, order_logs st).

Inductive Exception :=
  | HTTPException (status_code : Z) (detail : string)
  | AttributeError (name : string)
  | IntegrityError (detail : string)
  | LookupError (value : string)
  | InvalidRequestError (detail : string)
  | ValueError (detail : string)
  | OverflowError (detail : string)
  | ZeroDivisionError (detail : string).

Inductive Result (A : Type) :=
  | Ok (a : A)
  | Raise (e : Exception).
Arguments Ok {A} a.
Arguments Raise {A} e.

Definition is_ok {A} (r : Result A) : bool :=
  match r with Ok _ => true | Raise _ => false end.

Definition M (A : Type) : Type := Store → Result A * Store.

#[global] Instance M_ret : MRet M := λ A a st, (Ok a, st).
#[global] Instance M_bind : MBind M := λ A B f m st,
  match m st with
  | (Ok a, st') => f a st'
  | (Raise e, st') => (Raise e, st')
  end.

Definition raise {A} (e : Exception) : M A := λ st, (Raise e, st).
Definition gets {A} (f : Store → A) : M A := λ st, (Ok (f st), st).
Definition modify (f : Store → Store) : M unit := λ st, (Ok tt, f st).

(** [for x in xs: body(x)]. *)
Fixpoint for_each {A} (xs : list A) (body : A → M unit) : M unit :=
  match xs with
  | [] => mret tt
  | x :: xs' => body x ;; for_each xs' body
  end.

(** The next value of a primary-key sequence: above every key in use. *)
Definition fresh_id {A} (table : gmap Z A) : Z :=
  1 + map_fold (λ k _ acc, Z.max k acc) 0 table.

(* ===================================================================== *)
(** ** Read-through cache (core/cache.py)                                  *)
(* ===================================================================== *)

Module RedisCache.
Definition _generate_key (key_parts : list string) : string :=
  String.concat ":" key_parts.

Definition get (key_parts : list string) : M (option CacheValue) :=
  gets (λ st, cache st !! _generate_key key_parts).

Definition set (key_parts : list string) (value : CacheValue) : M unit :=
  modify (set_cache (insert (_generate_key key_parts) value)).

Definition delete (key_parts : list string) : M unit :=
  modify (set_cache (base.delete (_generate_key key_parts))).

(** Only patterns of the shape [prefix*] are used by the services. *)
Definition invalidate_pattern (prefix : string) : M unit :=
  modify (set_cache (filter (λ kv, String.prefix prefix (fst kv) = false))).
End RedisCache.

Definition str (n : Z) : string := pretty n.

(* ===================================================================== *)
(** ** Cylinder registry (cylinders/service.py)                            *)
(* ===================================================================== *)

Module CylinderService.
Definition CACHE_PREFIX : string := "cylinder".

Definition _cache_cylinder (id : Z) (cylinder : Cylinder.t) : M unit :=
  RedisCache.set [CACHE_PREFIX; str id] (CylinderJson id cylinder).

Definition _invalidate_cylinder_cache (cylinder_id : Z) : M unit :=
  RedisCache.delete [CACHE_PREFIX; str cylinder_id] ;;
  RedisCache.invalidate_pattern (CACHE_PREFIX +:+ ":list:").

(** [select(Cylinder).where(Cylinder.id == cylinder_id)] followed by
    [scalar_one_or_none()]. *)
Definition select_by_id (cylinder_id : Z) : M (option Cylinder.t) :=
  gets (λ st, cylinders st !! cylinder_id).

Definition create_log (log_in : CylinderLog.t) : M CylinderLog.t :=
  modify (set_cylinder_logs (λ logs, logs ++ [log_in])) ;;
  mret log_in.

Definition get (cylinder_id : Z) : M (option Cylinder.t) :=
  cached ← RedisCache.get [CACHE_PREFIX; str cylinder_id];
  if truthy cached then
    select_by_id cylinder_id
  else
    cylinder ← select_by_id cylinder_id;
    match cylinder with
    | Some c => _cache_cylinder cylinder_id c ;; mret (Some c)
    | None => mret None
    end.

Definition get_by_serial_number (serial_number : string)
  : M (option (Z * Cylinder.t)) :=
  gets (λ st,
    head (filter (λ kc, Cylinder.serial_number (snd kc) = serial_number)
                 (map_to_list (cylinders st)))).

Definition create (cylinder_in : CylinderCreate.t) (vendor_id : Z)
  : M (Z * Cylinder.t) :=
  existing ← get_by_serial_number (CylinderCreate.serial_number cylinder_in);
  match existing with
  | Some _ => raise (HTTPException 400 "Serial number already registered")
  | None =>
      id ← gets (λ st, fresh_id (cylinders st));
      let db_cylinder :=
        Cylinder.mk (CylinderCreate.serial_number cylinder_in)
                    (CylinderCreate.status cylinder_in)
                    vendor_id
                    (CylinderCreate.location cylinder_in)
                    (Some false)
                    None in
      modify (set_cylinders (insert id db_cylinder)) ;;
      create_log
        (CylinderLog.mk id CylinderEventType.CREATED None
           (Some (Cylinder.status db_cylinder)) None
           (CylinderCreate.location cylinder_in)
           (Some "Cylinder created") vendor_id) ;;
      _cache_cylinder id db_cylinder ;;
      mret (id, db_cylinder)
  end.

(** [for field, value in update_data.items(): setattr(cylinder, field, value)]
    for the fields that can be stored; a null [status] is kept out here and
    met by [update] itself. *)
Definition apply_update (cylinder_in : CylinderUpdate.t) (c : Cylinder.t)
  : Cylinder.t :=
  Cylinder.mk
    (Cylinder.serial_number c)
    (match CylinderUpdate.status cylinder_in with
     | Some (Some s) => s
     | _ => Cylinder.status c
     end)
    (Cylinder.vendor_id c)
    (match CylinderUpdate.location cylinder_in with
     | Some v => v
     | None => Cylinder.location c
     end)
    (match CylinderUpdate.is_assigned cylinder_in with
     | Some v => v
     | None => Cylinder.is_assigned c
     end)
    (match CylinderUpdate.current_order_id cylinder_in with
     | Some v => v
     | None => Cylinder.current_order_id c
     end).

(** [cylinder_in.status], which reads [None] when the field was left out
    and when it was given as null. *)
Definition status_of (cylinder_in : CylinderUpdate.t) : option CylinderStatus.t :=
  match CylinderUpdate.status cylinder_in with
  | Some v => v
  | None => None
  end.

Definition location_of (cylinder_in : CylinderUpdate.t) : option Location.t :=
  match CylinderUpdate.location cylinder_in with
  | Some v => v
  | None => None
  end.

Definition update (cylinder_id : Z) (cylinder_in : CylinderUpdate.t)
    (user_id : Z) : M Cylinder.t :=
  cylinder ← get cylinder_id;
  match cylinder with
  | None => raise (HTTPException 404 "Cylinder not found")
  | Some c =>
      match CylinderUpdate.status cylinder_in with
      | Some None =>
          (* the flush of [status = NULL] is refused by the column and the
             session is rolled back *)
          raise (IntegrityError "cylinders.status")
      | _ =>
          let old_status := Cylinder.status c in
          let c' := apply_update cylinder_in c in
          modify (set_cylinders (insert cylinder_id c')) ;;
          match status_of cylinder_in with
          | Some s =>
              if decide (s ≠ old_status) then
                create_log
                  (CylinderLog.mk cylinder_id CylinderEventType.STATUS_CHANGED
                     (Some old_status) (Some s)
                     (Cylinder.current_order_id c')
                     (location_of cylinder_in) None user_id) ;;
                mret tt
              else mret tt
          | None => mret tt
          end ;;
          _cache_cylinder cylinder_id c' ;;
          mret c'
      end
  end.

(** [cylinder.status = new_status] and, when a location is passed,
    [cylinder.location = location.model_dump()]. *)
Definition status_updated (new_status : CylinderStatus.t)
    (location : option Location.t) (c : Cylinder.t) : Cylinder.t :=
  Cylinder.mk (Cylinder.serial_number c) new_status
    (Cylinder.vendor_id c)
    (match location with
     | Some l => Some l
     | None => Cylinder.location c
     end)
    (Cylinder.is_assigned c) (Cylinder.current_order_id c).

Definition update_status_bulk_step (new_status : CylinderStatus.t)
    (location : option Location.t) (notes : option string) (user_id : Z)
    (order_id : option Z) (cyl_id : Z) : M (list (Z * Cylinder.t)) :=
  cylinder ← get cyl_id;
  match cylinder with
  | Some c =>
      let old_status := Cylinder.status c in
      let c' := status_updated new_status location c in
      modify (set_cylinders (insert cyl_id c')) ;;
      create_log
        (CylinderLog.mk cyl_id CylinderEventType.STATUS_CHANGED
           (Some old_status) (Some new_status) order_id location notes
           user_id) ;;
      _cache_cylinder cyl_id c' ;;
      mret [(cyl_id, c')]
  | None => mret []
  end.

(** The loop of [update_status_bulk]: one step per id, each appending to
    [updated_cylinders]; the closing [commit] has nothing left to write. *)
Fixpoint update_status_bulk (cylinder_ids : list Z)
    (new_status : CylinderStatus.t) (location : option Location.t)
    (notes : option string) (user_id : Z) (order_id : option Z)
  : M (list (Z * Cylinder.t)) :=
  match cylinder_ids with
  | [] => mret []
  | cyl_id :: rest =>
      updated ← update_status_bulk_step new_status location notes user_id
                  order_id cyl_id;
      more ← update_status_bulk rest new_status location notes user_id
               order_id;
      mret (updated ++ more)
  end.

(** [delete]: the log row is committed by [create_log] and the cache entry
    dropped before the row is touched.  [Cylinder.logs] has no delete
    cascade, so the flush of [self.db.delete(cylinder)] first detaches the
    log rows of the cylinder by setting their [cylinder_id] to NULL, which
    the column, being NOT NULL, refuses; the commit raises and the cylinder
    row stays. *)
Definition delete (cylinder_id user_id : Z) : M bool :=
  cylinder ← get cylinder_id;
  match cylinder with
  | Some c =>
      create_log
        (CylinderLog.mk cylinder_id CylinderEventType.DELETED
           (Some (Cylinder.status c)) None None None
           (Some "Cylinder deleted") user_id) ;;
      _invalidate_cylinder_cache cylinder_id ;;
      logs ← gets (λ st,
                filter (λ log, CylinderLog.cylinder_id log = cylinder_id)
                       (cylinder_logs st));
      match logs with
      | [] => modify (set_cylinders (base.delete cylinder_id)) ;; mret true
      | _ :: _ => raise (IntegrityError "cylinder_logs.cylinder_id")
      end
  | None => mret false
  end.

(** [get_logs]: the log rows of the cylinder in the order of
    [ORDER BY created_at DESC], after [skip] rows and at most [limit] of
    them.  The query names no second key and rows written within one tick
    of the clock carry the same [created_at], so the order among them is the
    engine's: [order_by] stands for the ordering the engine applies, and the
    statements about [get_logs] hold for every ordering that rearranges the
    rows.  [skip] and [limit] are taken non-negative. *)
Definition get_logs (order_by : list CylinderLog.t → list CylinderLog.t)
    (cylinder_id : Z) (skip limit : nat) : M (list CylinderLog.t) :=
  gets (λ st,
    take limit
      (drop skip
         (order_by
            (filter (λ log, CylinderLog.cylinder_id log = cylinder_id)
                    (cylinder_logs st))))).

(** The [where] clauses of [list]: [if vendor_id:] and [if status:] test
    truth values, so [None] and the vendor id [0] add no clause;
    [is_assigned] is tested against [None]. *)
Definition list_filter (vendor_id : option Z)
    (status : option CylinderStatus.t) (is_assigned : option bool)
    (kc : Z * Cylinder.t) : Prop :=
  (match vendor_id with
   | Some v => v ≠ 0 → Cylinder.vendor_id (snd kc) = v
   | None => True
   end)
  ∧ (match status with
     | Some s => Cylinder.status (snd kc) = s
     | None => True
     end)
  ∧ (match is_assigned with
     | Some b => Cylinder.is_assigned (snd kc) = Some b
     | None => True
     end).

#[global] Instance list_filter_dec v s a kc : Decision (list_filter v s a kc).
Proof.
  unfold list_filter. destruct v, s, a; apply _.
Defined.

(** [list]: the select has no [order_by]; the rows come in the order in
    which the table enumerates them. *)
Definition list (vendor_id : option Z) (status : option CylinderStatus.t)
    (is_assigned : option bool) (skip limit : nat)
  : M (list (Z * Cylinder.t)) :=
  gets (λ st,
    take limit
      (drop skip
         (filter (list_filter vendor_id status is_assigned)
                 (map_to_list (cylinders st))))).
End CylinderService.

(* ===================================================================== *)
(** ** Order engine (orders/service.py)                                    *)
(* ===================================================================== *)

Module OrderService.
Definition CACHE_PREFIX : string := "order".

Definition _cache_order (id : Z) (order : Order.t) : M unit :=
  RedisCache.set [CACHE_PREFIX; str id] (OrderJson id order).

Definition select_by_id (order_id : Z) : M (option Order.t) :=
  gets (λ st, orders st !! order_id).

Definition create_log (log_in : OrderLog.t) : M OrderLog.t :=
  modify (set_order_logs (λ logs, logs ++ [log_in])) ;;
  mret log_in.

Definition get (order_id : Z) : M (option Order.t) :=
  cached ← RedisCache.get [CACHE_PREFIX; str order_id];
  if truthy cached then
    select_by_id order_id
  else
    order ← select_by_id order_id;
    match order with
    | Some o => _cache_order order_id o ;; mret (Some o)
    | None => mret None
    end.

(** [Order(hospital_id=hospital_id, **order_in.model_dump())] gives no value
    to [total_amount]: [OrderCreate] has no such field and the column has no
    default.  The INSERT under the first [commit] is refused by the NOT NULL
    column, and nothing of what follows it runs. *)
Definition create (order_in : OrderCreate.t) (hospital_id : Z)
  : M (Z * Order.t) :=
  let total_amount : option Z := None in
  match total_amount with
  | None => raise (IntegrityError "orders.total_amount")
  | Some amount =>
      id ← gets (λ st, fresh_id (orders st));
      let db_order :=
        Order.mk hospital_id None OrderStatus.PENDING amount
          (OrderCreate.urgency order_in) (OrderCreate.quantity order_in)
          (OrderCreate.delivery_location order_in)
          (OrderCreate.special_instructions order_in)
          0 0 None None [] in
      modify (set_orders (insert id db_order)) ;;
      create_log
        (OrderLog.mk id OrderEventType.CREATED None
           (Some (Order.status db_order)) None (Some "Order created")
           hospital_id) ;;
      _cache_order id db_order ;;
      mret (id, db_order)
  end.

(** The availability query of [accept_order]: the rows whose id is among
    the requested ones, owned by the vendor, filled and not assigned. *)
Definition available (assigned_cylinder_ids : list Z) (vendor_id : Z)
    (kc : Z * Cylinder.t) : Prop :=
  fst kc ∈ assigned_cylinder_ids
  ∧ Cylinder.vendor_id (snd kc) = vendor_id
  ∧ Cylinder.status (snd kc) = CylinderStatus.FILLED
  ∧ Cylinder.is_assigned (snd kc) = Some false.

#[global] Instance available_dec ids v kc : Decision (available ids v kc).
Proof. unfold available. apply _. Defined.

Definition query_available (assigned_cylinder_ids : list Z) (vendor_id : Z)
  : M (list (Z * Cylinder.t)) :=
  gets (λ st,
    map_to_list (filter (available assigned_cylinder_ids vendor_id)
                        (cylinders st))).

Definition assign (order_id : Z) (c : Cylinder.t) : Cylinder.t :=
  Cylinder.mk (Cylinder.serial_number c) (Cylinder.status c)
    (Cylinder.vendor_id c) (Cylinder.location c) (Some true) (Some order_id).

Definition append_cylinder (cylinder_id : Z) (o : Order.t) : Order.t :=
  Order.mk (Order.hospital_id o) (Order.vendor_id o) (Order.status o)
    (Order.total_amount o)
    (Order.urgency o) (Order.quantity o) (Order.delivery_location o)
    (Order.special_instructions o) (Order.cylinders_sent o)
    (Order.empty_cylinders_returned o) (Order.expected_delivery o)
    (Order.delivered_at o) (Order.cylinders o ++ [cylinder_id]).

Definition accepted (vendor_id : Z) (expected_delivery : datetime)
    (o : Order.t) : Order.t :=
  Order.mk (Order.hospital_id o) (Some vendor_id) OrderStatus.ACCEPTED
    (Order.total_amount o)
    (Order.urgency o) (Order.quantity o) (Order.delivery_location o)
    (Order.special_instructions o) (Order.cylinders_sent o)
    (Order.empty_cylinders_returned o) (Some expected_delivery)
    (Order.delivered_at o) (Order.cylinders o).

Definition accept_order (order_id vendor_id : Z)
    (expected_delivery : datetime) (assigned_cylinder_ids : list Z)
  : M Order.t :=
  order ← get order_id;
  match order with
  | None => raise (HTTPException 404 "Order not found")
  | Some o =>
      if decide (Order.status o ≠ OrderStatus.PENDING) then
        raise (HTTPException 400 "Order cannot be accepted")
      else
        cylinders ← query_available assigned_cylinder_ids vendor_id;
        if decide (length cylinders ≠ length assigned_cylinder_ids) then
          raise (HTTPException 400 "Some cylinders are not available")
        else
          modify (set_orders
                    (alter (accepted vendor_id expected_delivery) order_id)) ;;
          for_each cylinders (λ kc,
            modify (set_cylinders (alter (assign order_id) (fst kc))) ;;
            modify (set_orders (alter (append_cylinder (fst kc)) order_id))) ;;
          create_log
            (OrderLog.mk order_id OrderEventType.VENDOR_ASSIGNED
               (Some OrderStatus.PENDING) (Some OrderStatus.ACCEPTED)
               (Some (AcceptDetails assigned_cylinder_ids expected_delivery))
               None vendor_id) ;;
          refreshed ← select_by_id order_id;
          match refreshed with
          | Some o' => _cache_order order_id o' ;; mret o'
          | None => raise (InvalidRequestError "Could not refresh instance")
          end
  end.

Definition delivery_updated (update_data : OrderDeliveryUpdate.t)
    (o : Order.t) : Order.t :=
  Order.mk (Order.hospital_id o) (Order.vendor_id o)
    (OrderDeliveryUpdate.status update_data)
    (Order.total_amount o)
    (Order.urgency o) (Order.quantity o) (Order.delivery_location o)
    (Order.special_instructions o)
    (OrderDeliveryUpdate.cylinders_sent update_data)
    (OrderDeliveryUpdate.empty_cylinders_returned update_data)
    (Order.expected_delivery o)
    (match OrderDeliveryUpdate.delivered_at update_data with
     | Some d => Some d
     | None => Order.delivered_at o
     end)
    (Order.cylinders o).

Definition update_delivery_status (order_id : Z)
    (update_data : OrderDeliveryUpdate.t) (user_id : Z) : M Order.t :=
  order ← get order_id;
  match order with
  | None => raise (HTTPException 404 "Order not found")
  | Some o =>
      let old_status := Order.status o in
      let o' := delivery_updated update_data o in
      modify (set_orders (insert order_id o')) ;;
      create_log
        (OrderLog.mk order_id OrderEventType.STATUS_CHANGED
           (Some old_status) (Some (OrderDeliveryUpdate.status update_data))
           (Some (DeliveryDetails
                    (OrderDeliveryUpdate.cylinders_sent update_data)
                    (OrderDeliveryUpdate.empty_cylinders_returned update_data)
                    (OrderDeliveryUpdate.notes update_data)))
           None user_id) ;;
      _cache_order order_id o' ;;
      mret o'
  end.

Definition cancelled (o : Order.t) : Order.t :=
  Order.mk (Order.hospital_id o) (Order.vendor_id o) OrderStatus.CANCELLED
    (Order.total_amount o)
    (Order.urgency o) (Order.quantity o) (Order.delivery_location o)
    (Order.special_instructions o) (Order.cylinders_sent o)
    (Order.empty_cylinders_returned o) (Order.expected_delivery o)
    (Order.delivered_at o) (Order.cylinders o).

Definition unassign (c : Cylinder.t) : Cylinder.t :=
  Cylinder.mk (Cylinder.serial_number c) (Cylinder.status c)
    (Cylinder.vendor_id c) (Cylinder.location c) (Some false) None.

Definition cancel_order (order_id user_id : Z) (reason : string)
  : M Order.t :=
  order ← get order_id;
  match order with
  | None => raise (HTTPException 404 "Order not found")
  | Some o =>
      if decide (Order.status o ∉ [OrderStatus.PENDING; OrderStatus.ACCEPTED])
      then raise (HTTPException 400 "Order cannot be cancelled")
      else
        let old_status := Order.status o in
        let o' := cancelled o in
        modify (set_orders (insert order_id o')) ;;
        for_each (Order.cylinders o) (λ cylinder_id,
          modify (set_cylinders (alter unassign cylinder_id))) ;;
        create_log
          (OrderLog.mk order_id OrderEventType.CANCELLED
             (Some old_status) (Some OrderStatus.CANCELLED) None
             (Some reason) user_id) ;;
        _cache_order order_id o' ;;
        mret o'
  end.

(** [get_logs]: the log rows of the order in the order of
    [ORDER BY created_at DESC], after [skip] rows and at most [limit] of
    them; [order_by] stands for the ordering the engine applies, as in the
    registry. *)
Definition get_logs (order_by : list OrderLog.t → list OrderLog.t)
    (order_id : Z) (skip limit : nat) : M (list OrderLog.t) :=
  gets (λ st,
    take limit
      (drop skip
         (order_by
            (filter (λ log, OrderLog.order_id log = order_id)
                    (order_logs st))))).
End OrderService.

(* ===================================================================== *)
(** ** Delivery tracker (orders/services/delivery.py)                      *)
(* ===================================================================== *)

Module DeliveryTrackingService.
(** Evaluation of [Enum.<name>]: a name that is not a member raises
    [AttributeError]. *)
Definition member {A} (getattr : string → option A) (name : string) : M A :=
  match getattr name with
  | Some v => mret v
  | None => raise (AttributeError name)
  end.

(** The notifier is an external collaborator; it does not write to the
    store. *)
Definition send_delivery_update (order_id : Z) : M unit := mret tt.

Definition tracked (status : OrderStatus.t) (eta : option datetime)
    (o : Order.t) : Order.t :=
  Order.mk (Order.hospital_id o) (Order.vendor_id o) status
    (Order.total_amount o)
    (Order.urgency o) (Order.quantity o) (Order.delivery_location o)
    (Order.special_instructions o) (Order.cylinders_sent o)
    (Order.empty_cylinders_returned o)
    (match eta with
     | Some e => Some e
     | None => Order.expected_delivery o
     end)
    (Order.delivered_at o) (Order.cylinders o).

(** The statements up to [return self.get_delivery_status(order_id)]; the
    coroutine returned there is stood for by the order id it is made
    for.  The changes to [order] stay in the session until [commit]. *)
Definition update_delivery_status (order_id : Z) (update : DeliveryUpdate.t)
    (user_id : Z) (driver_info : option (list (string * string))) : M Z :=
  order ← gets (λ st, orders st !! order_id);
  match order with
  | None => raise (HTTPException 404 "Order not found")
  | Some o =>
      s1 ← member OrderStatus.getattr "ACCEPTED";
      s2 ← member OrderStatus.getattr "IN_TRANSIT";
      s3 ← member OrderStatus.getattr "OUT_FOR_DELIVERY";
      if decide (Order.status o ∉ [s1; s2; s3]) then
        raise (HTTPException 400 "Order is not in delivery phase")
      else
        let new_status :=
          if decide (DeliveryUpdate.status update
                     ≠ OrderStatus.value (Order.status o))
          then DeliveryUpdate.status update
          else OrderStatus.value (Order.status o) in
        let details :=
          TrackingDetails (DeliveryUpdate.current_location update)
            (DeliveryUpdate.status update)
            (match driver_info with
             | Some (_ :: _ as d) => Some d
             | _ => None
             end) in
        event_type ← member OrderEventType.getattr "DELIVERY_UPDATE";
        match OrderStatus.of_value new_status with
        | None => raise (LookupError new_status)
        | Some s =>
            modify (set_orders
                      (insert order_id
                         (tracked s (DeliveryUpdate.eta update) o))) ;;
            modify (set_order_logs (λ logs,
                      logs ++ [OrderLog.mk order_id event_type None None
                                 (Some details) None user_id])) ;;
            send_delivery_update order_id ;;
            mret order_id
        end
  end.
End DeliveryTrackingService.

(* ===================================================================== *)
(** ** Float arithmetic and the [math] module                              *)
(* ===================================================================== *)

(** What the embedding leaves open about the machine: how an exact result
    is rounded to a double, and what the C library returns at finite
    arguments.  What happens at infinities and at NaN, and which errors
    Python raises, is fixed by the definitions below. *)
Record Arith := mkArith {
  (** the double an exact result is rounded to; an infinity when the result
      is out of range *)
  round : R → float;
  (** the constant of [math.radians]: pi / 180 as a double, a positive
      number *)
  deg_to_rad : R;
  (** [sin] and [cos] of the C library at a finite argument *)
  libm_sin : R → R;
  libm_cos : R → R;
  (** [pow(x, 2.0)] of the C library at a finite [x]; an infinity when the
      result is out of range *)
  libm_pow2 : R → float;
  (** [atan2] of the C library at arguments that are not NaN; its result is
      finite *)
  libm_atan2 : float → float → R
}.

(** [-x] *)
Definition float_neg (x : float) : float :=
  match x with
  | Finite a => Finite (- a)
  | Infinity => NegInfinity
  | NegInfinity => Infinity
  | NaN => NaN
  end.

(** The product of the infinity [inf] and a finite number [a]. *)
Definition inf_times (inf : float) (a : R) : float :=
  if Req_EM_T a 0 then NaN
  else if Rlt_dec 0 a then inf
  else float_neg inf.

(** [a <= b]: false as soon as one side is NaN. *)
Definition float_le (a b : float) : Prop :=
  match a, b with
  | Finite x, Finite y => (x <= y)%R
  | NaN, _ | _, NaN => False
  | NegInfinity, _ | _, Infinity => True
  | _, _ => False
  end.

(** [a < b] *)
Definition float_lt (a b : float) : Prop :=
  match a, b with
  | Finite x, Finite y => (x < y)%R
  | NaN, _ | _, NaN => False
  | NegInfinity, NegInfinity | Infinity, _ => False
  | NegInfinity, _ | _, Infinity => True
  | _, _ => False
  end.

#[global] Instance float_le_dec a b : Decision (float_le a b).
Proof.
  destruct a as [x| | |], b as [y| | |]; simpl;
    first [apply Rle_dec | left; exact I | right; tauto].
Defined.

#[global] Instance float_lt_dec a b : Decision (float_lt a b).
Proof.
  destruct a as [x| | |], b as [y| | |]; simpl;
    first [apply Rlt_dec | left; exact I | right; tauto].
Defined.

(** Sequencing of computations that may raise. *)
Definition and_then {A B} (r : Result A) (f : A → Result B) : Result B :=
  match r with
  | Ok a => f a
  | Raise e => Raise e
  end.

Notation "'let*' x ':=' r 'in' k" := (and_then r (λ x, k))
  (at level 10, x name, r at level 100, k at level 200).

(** [x / 2] for a float [x]. *)
Definition float_half (A : Arith) (x : float) : float :=
  match x with
  | Finite a => round A (a / 2)
  | _ => x
  end.

Section operators.
Context (A : Arith).

(** [x + y] *)
Definition float_add (x y : float) : float :=
  match x, y with
  | Finite a, Finite b => round A (a + b)
  | NaN, _ | _, NaN => NaN
  | Infinity, NegInfinity | NegInfinity, Infinity => NaN
  | Infinity, _ | _, Infinity => Infinity
  | NegInfinity, _ | _, NegInfinity => NegInfinity
  end.

(** [x - y] *)
Definition float_sub (x y : float) : float :=
  match x, y with
  | Finite a, Finite b => round A (a - b)
  | _, _ => float_add x (float_neg y)
  end.

(** [x * y] *)
Definition float_mul (x y : float) : float :=
  match x, y with
  | Finite a, Finite b => round A (a * b)
  | NaN, _ | _, NaN => NaN
  | Finite a, inf | inf, Finite a => inf_times inf a
  | Infinity, Infinity | NegInfinity, NegInfinity => Infinity
  | _, _ => NegInfinity
  end.

(** [x / y]: a zero divisor raises. *)
Definition float_truediv (x y : float) : Result float :=
  match y with
  | Finite b =>
      if Req_EM_T b 0 then Raise (ZeroDivisionError "float division by zero")
      else match x with
           | Finite a => Ok (round A (a / b))
           | NaN => Ok NaN
           | inf => Ok (inf_times inf b)
           end
  | NaN => Ok NaN
  | _ => match x with
         | Finite _ => Ok (Finite 0)
         | _ => Ok NaN
         end
  end.

(** [x ** 2]: a finite [x] whose square is out of range raises. *)
Definition float_pow2 (x : float) : Result float :=
  match x with
  | Finite a =>
      match libm_pow2 A a with
      | Finite y => Ok (Finite y)
      | _ => Raise (OverflowError "Numerical result out of range")
      end
  | NaN => Ok NaN
  | _ => Ok Infinity
  end.
End operators.

Module math.
Section functions.
Context (A : Arith).

(** [math.radians(x)]: [x] times the constant. *)
Definition radians (x : float) : float :=
  match x with
  | Finite a => round A (a * deg_to_rad A)
  | _ => x
  end.

(** [math.sin(x)]: an infinite argument raises. *)
Definition sin (x : float) : Result float :=
  match x with
  | Finite a => Ok (Finite (libm_sin A a))
  | NaN => Ok NaN
  | _ => Raise (ValueError "math domain error")
  end.

Definition cos (x : float) : Result float :=
  match x with
  | Finite a => Ok (Finite (libm_cos A a))
  | NaN => Ok NaN
  | _ => Raise (ValueError "math domain error")
  end.

(** [math.sqrt(x)]: a negative argument raises. *)
Definition sqrt (x : float) : Result float :=
  match x with
  | Finite a =>
      if Rlt_dec a 0 then Raise (ValueError "math domain error")
      else Ok (round A (R_sqrt.sqrt a))
  | Infinity => Ok Infinity
  | NegInfinity => Raise (ValueError "math domain error")
  | NaN => Ok NaN
  end.

(** [math.atan2(y, x)] *)
Definition atan2 (y x : float) : float :=
  match y, x with
  | NaN, _ | _, NaN => NaN
  | _, _ => Finite (libm_atan2 A y x)
  end.
End functions.
End math.

(* ===================================================================== *)
(** ** Geo-matcher (orders/utils.py)                                       *)
(* ===================================================================== *)

Module utils.
(** Truth value of an optional coordinate: [None] and [0.0] are falsy, every
    other float (NaN and the infinities included) is truthy. *)
Definition truth (v : option float) : bool :=
  match v with
  | None => false
  | Some (Finite x) => if Req_EM_T x 0 then false else true
  | Some _ => true
  end.

Definition all (values : list (option float)) : bool := forallb truth values.

(** The float held by a coordinate that passed the guard. *)
Definition num (v : option float) : float :=
  match v with
  | Some x => x
  | None => Finite 0
  end.

Section geo.
Context (A : Arith).

Definition calculate_distance (loc1 loc2 : Location.t) : Result float :=
  if negb (all [Location.latitude loc1; Location.longitude loc1;
                Location.latitude loc2; Location.longitude loc2])
  then Ok Infinity
  else
    let R := Finite 6371 in
    let lat1 := math.radians A (num (Location.latitude loc1)) in
    let lon1 := math.radians A (num (Location.longitude loc1)) in
    let lat2 := math.radians A (num (Location.latitude loc2)) in
    let lon2 := math.radians A (num (Location.longitude loc2)) in
    let dlat := float_sub A lat2 lat1 in
    let dlon := float_sub A lon2 lon1 in
    (* a = sin(dlat/2)**2 + cos(lat1) * cos(lat2) * sin(dlon/2)**2,
       operands evaluated from left to right *)
    let* half_dlat := float_truediv A dlat (Finite 2) in
    let* sin_dlat := math.sin A half_dlat in
    let* sin_dlat_2 := float_pow2 A sin_dlat in
    let* cos_lat1 := math.cos A lat1 in
    let* cos_lat2 := math.cos A lat2 in
    let* half_dlon := float_truediv A dlon (Finite 2) in
    let* sin_dlon := math.sin A half_dlon in
    let* sin_dlon_2 := float_pow2 A sin_dlon in
    let a := float_add A sin_dlat_2
               (float_mul A (float_mul A cos_lat1 cos_lat2) sin_dlon_2) in
    (* c = 2 * atan2(sqrt(a), sqrt(1-a)) *)
    let* sqrt_a := math.sqrt A a in
    let* sqrt_1_a := math.sqrt A (float_sub A (Finite 1) a) in
    let c := float_mul A (Finite 2) (math.atan2 A sqrt_a sqrt_1_a) in
    let distance := float_mul A R c in
    Ok distance.

(** The loop of [find_nearby_vendors] that collects [distances]; an error
    raised for a candidate ends it. *)
Fixpoint distances (target_location : Location.t)
    (vendor_locations : list (Z * Location.t)) (max_distance : float)
  : Result (list (Z * float)) :=
  match vendor_locations with
  | [] => Ok []
  | (vendor_id, vendor_location) :: rest =>
      let* distance := calculate_distance target_location vendor_location in
      let* more := distances target_location rest max_distance in
      Ok (if decide (float_le distance max_distance)
          then (vendor_id, distance) :: more
          else more)
  end.
End geo.

(** [sorted(xs, key=key)]: the sort compares keys with [<] only and is
    stable; an element is placed in front of the first element of the sorted
    tail that is not smaller than it.  (This is what every stable sort
    returns when no key is NaN, which holds for the distances that passed the
    test against [max_distance].) *)
Fixpoint insert_by {A} (key : A → float) (x : A) (l : list A) : list A :=
  match l with
  | [] => [x]
  | y :: l' =>
      if decide (float_lt (key y) (key x)) then y :: insert_by key x l'
      else x :: y :: l'
  end.

Definition sorted {A} (xs : list A) (key : A → float) : list A :=
  foldr (insert_by key) [] xs.

Definition find_nearby_vendors (A : Arith) (target_location : Location.t)
    (vendor_locations : list (Z * Location.t)) (max_distance : float)
  : Result (list (Z * float)) :=
  let* found := distances A target_location vendor_locations max_distance in
  Ok (sorted found snd).
End utils.

(* ===================================================================== *)
(** ** Properties of the data model used in the statements                 *)
(* ===================================================================== *)

(** A cylinder id can be reserved for a vendor: it resolves to a row owned by
    the vendor, filled and not assigned. *)
Definition reservable (st : Store) (vendor_id : Z) (id : Z) : Prop :=
  ∃ c, cylinders st !! id = Some c
       ∧ Cylinder.vendor_id c = vendor_id
       ∧ Cylinder.status c = CylinderStatus.FILLED
       ∧ Cylinder.is_assigned c = Some false.

(** A reservation of [ids] for a vendor goes through: the ids are distinct
    and each can be reserved. *)
Definition reservation_succeeds (st : Store) (vendor_id : Z) (ids : list Z)
  : Prop :=
  NoDup ids ∧ ∀ id, id ∈ ids → reservable st vendor_id id.

(** [is_assigned == true] exactly when [current_order_id] is set. *)
Definition flag_invariant (st : Store) : Prop :=
  ∀ id c, cylinders st !! id = Some c →
    (Cylinder.is_assigned c = Some true ↔ is_Some (Cylinder.current_order_id c)).

(** The order-side cylinder set and the cylinder-side link describe the same
    relation. *)
Definition assignment_agrees (st : Store) : Prop :=
  ∀ cylinder_id order_id,
    (∃ c, cylinders st !! cylinder_id = Some c
          ∧ Cylinder.current_order_id c = Some order_id)
    ↔ (∃ o, orders st !! order_id = Some o
            ∧ cylinder_id ∈ Order.cylinders o).

(** The effect of the assignment loop of [accept_order] on the two tables. *)
Definition assign_all (order_id : Z) (l : list (Z * Cylinder.t))
    (m : gmap Z Cylinder.t) : gmap Z Cylinder.t :=
  foldl (λ m kc, alter (OrderService.assign order_id) (fst kc) m) m l.

Definition append_all (order_id : Z) (l : list (Z * Cylinder.t))
    (m : gmap Z Order.t) : gmap Z Order.t :=
  foldl (λ m kc, alter (OrderService.append_cylinder (fst kc)) order_id m) m l.

Definition append_ids (ids : list Z) (o : Order.t) : Order.t :=
  Order.mk (Order.hospital_id o) (Order.vendor_id o) (Order.status o)
    (Order.total_amount o)
    (Order.urgency o) (Order.quantity o) (Order.delivery_location o)
    (Order.special_instructions o) (Order.cylinders_sent o)
    (Order.empty_cylinders_returned o) (Order.expected_delivery o)
    (Order.delivered_at o) (Order.cylinders o ++ ids).


(** The log entry written by a successful [accept_order]. *)
Definition vendor_assigned_entry (order_id vendor_id : Z)
    (expected_delivery : datetime) (ids : list Z) : OrderLog.t :=
  OrderLog.mk order_id OrderEventType.VENDOR_ASSIGNED
    (Some OrderStatus.PENDING) (Some OrderStatus.ACCEPTED)
    (Some (AcceptDetails ids expected_delivery)) None vendor_id.

(* ===================================================================== *)
(** ** Concrete stores used to exercise the statements                     *)
(* ===================================================================== *)

Module Demo.
Definition nowhere : Location.t := Location.mk None None None None.

Definition filled (vendor_id : Z) (serial : string) : Cylinder.t :=
  Cylinder.mk serial CylinderStatus.FILLED vendor_id None (Some false) None.

Definition pending_order (hospital_id quantity : Z) : Order.t :=
  Order.mk hospital_id None OrderStatus.PENDING (1500 * quantity)
    OrderUrgency.HIGH quantity nowhere None 0 0 None None [].

(** Vendor 7 owns three filled, unassigned cylinders 10, 11 and 12, vendor
    8 owns cylinder 13; order 1 of hospital 3 is pending. *)
Definition st0 : Store :=
  mkStore
    (<[10 := filled 7 "S-10"]>
       (<[11 := filled 7 "S-11"]>
          (<[12 := filled 7 "S-12"]> (<[13 := filled 8 "S-13"]> ∅))))
    []
    (<[1 := pending_order 3 3]> ∅)
    []
    ∅.

(** The store after vendor 7 accepted order 1 with cylinders 10, 11, 12. *)
Definition st1 : Store :=
  snd (OrderService.accept_order 1 7 1000 [10; 11; 12] st0).

(** The store after the hospital cancelled the accepted order 1. *)
Definition st2 : Store :=
  snd (OrderService.cancel_order 1 3 "hospital changed mind" st1).

(** [st0] with a cache entry for cylinder 10 that holds an older row. *)
Definition stale : Store :=
  set_cache
    (insert "cylinder:10"
       (CylinderJson 10
          (Cylinder.mk "S-10" CylinderStatus.EMPTY 7 None (Some false) None)))
    st0.

(** [st0] after cylinder 10 has been read once: its row is in the cache. *)
Definition cached : Store := snd (CylinderService.get 10 st0).
End Demo.

(** The log entry written by [update] when the status changes. *)
Definition status_changed_entry (cylinder_id : Z)
    (old_status new_status : CylinderStatus.t) (order_id : option Z)
    (location : option Location.t) (notes : option string) (user_id : Z)
  : CylinderLog.t :=
  CylinderLog.mk cylinder_id CylinderEventType.STATUS_CHANGED
    (Some old_status) (Some new_status) order_id location notes user_id.

(** The rows [update] appends to the cylinder log: one [status_changed]
    row when a status is given and differs from the current one. *)
Definition update_entries (cylinder_id : Z) (cylinder_in : CylinderUpdate.t)
    (c : Cylinder.t) (user_id : Z) : list CylinderLog.t :=
  match CylinderService.status_of cylinder_in with
  | Some s =>
      if decide (s ≠ Cylinder.status c) then
        [status_changed_entry cylinder_id (Cylinder.status c) s
           (Cylinder.current_order_id
              (CylinderService.apply_update cylinder_in c))
           (CylinderService.location_of cylinder_in) None user_id]
      else []
  | None => []
  end.

(** The request of [updateStatus(id, new_status, ...)]: only the status is
    given. *)
Definition status_only (new_status : CylinderStatus.t) : CylinderUpdate.t :=
  CylinderUpdate.mk (Some (Some new_status)) None None None.

(** What the bulk update is to return for the requested ids: the rows of
    the ids that resolve, in request order, with the new status applied. *)
Definition resolved_with_status (st : Store) (ids : list Z)
    (new_status : CylinderStatus.t) (location : option Location.t)
  : list (Z * Cylinder.t) :=
  omap (λ id,
          (λ c, (id, CylinderService.status_updated new_status location c))
            <$> cylinders st !! id)
       ids.

(** The effect of the release loop of [cancel_order] on the cylinder table. *)
Definition unassign_all (ids : list Z) (m : gmap Z Cylinder.t)
  : gmap Z Cylinder.t :=
  foldl (λ m id, alter OrderService.unassign id m) m ids.

(** The log entry written by a successful [cancel_order]. *)
Definition cancelled_entry (order_id : Z) (old_status : OrderStatus.t)
    (user_id : Z) (reason : string) : OrderLog.t :=
  OrderLog.mk order_id OrderEventType.CANCELLED (Some old_status)
    (Some OrderStatus.CANCELLED) None (Some reason) user_id.

(** A cylinder row is released: not assigned and linked to no order. *)
Definition released (c : Cylinder.t) : Prop :=
  Cylinder.is_assigned c = Some false ∧ Cylinder.current_order_id c = None.

(** Every cylinder linked to the order is in the order's cylinder set. *)
Definition links_in_order_set (st : Store) (order_id : Z) (o : Order.t) : Prop :=
  ∀ id c, cylinders st !! id = Some c →
    Cylinder.current_order_id c = Some order_id → id ∈ Order.cylinders o.

Module DemoCancel.
(** Cylinder 13 is linked to order 1 through [CylinderService.update],
    which leaves the order's own cylinder set empty. *)
Definition link_13 : CylinderUpdate.t :=
  CylinderUpdate.mk None None (Some (Some true)) (Some (Some 1)).

Definition st : Store := snd (CylinderService.update 13 link_13 8 Demo.st0).
End DemoCancel.

(* ===================================================================== *)
(** ** Statements about the geo-matcher                                    *)
(* ===================================================================== *)

(** Laws of the arithmetic that the statements about distances rest on;
    each holds of IEEE 754 doubles under round-to-nearest and of the usual
    C libraries.  Rounding commutes with negation and leaves 0 and 1 alone,
    numbers of magnitude at most 1 are in range, [sin] is odd and vanishes at
    0, [cos] stays within [-1, 1], squaring forgets the sign and keeps 0, and
    [atan2(0, 1)] is 0. *)
Record ArithLaws (A : Arith) : Prop := {
  round_neg : ∀ x, round A (- x) = float_neg (round A x);
  round_0 : round A 0 = Finite 0;
  round_1 : round A 1 = Finite 1;
  round_unit : ∀ x, (Rabs x <= 1)%R → ∃ y, round A x = Finite y;
  libm_sin_odd : ∀ x, libm_sin A (- x) = (- libm_sin A x)%R;
  libm_sin_0 : libm_sin A 0 = 0%R;
  libm_cos_bound : ∀ x, (Rabs (libm_cos A x) <= 1)%R;
  libm_pow2_even : ∀ x, libm_pow2 A (- x) = libm_pow2 A x;
  libm_pow2_0 : libm_pow2 A 0 = Finite 0;
  libm_atan2_0_1 : libm_atan2 A (Finite 0) (Finite 1) = 0%R
}.

(** The arctangent of [y / x] in the quadrant of the point [(x, y)]. *)
Definition real_atan2 (y x : R) : R :=
  if Rlt_dec 0 x then atan (y / x)
  else if Rlt_dec x 0 then
    if Rle_dec 0 y then (atan (y / x) + PI)%R else (atan (y / x) - PI)%R
  else if Rlt_dec 0 y then (PI / 2)%R
  else if Rlt_dec y 0 then (- (PI / 2))%R
  else 0%R.

(** The arithmetic without rounding, an instance of the laws used to
    exercise the statements. *)
Definition exact : Arith :=
  mkArith Finite (PI / 180) sin cos (λ x, Finite (x * x))
    (λ y x, match y, x with
            | Finite a, Finite b => real_atan2 a b
            | _, _ => 0%R
            end).

(** Some coordinate of the two locations is missing or is zero: the guard
    of [calculate_distance] stops the computation. *)
Definition coordinate_missing_or_zero (a b : Location.t) : Prop :=
  utils.all [Location.latitude a; Location.longitude a;
             Location.latitude b; Location.longitude b] = false.

(** A latitude of the two locations is infinite. *)
Definition infinite_latitude (a b : Location.t) : Prop :=
  Location.latitude a = Some Infinity ∨ Location.latitude a = Some NegInfinity
  ∨ Location.latitude b = Some Infinity ∨ Location.latitude b = Some NegInfinity.

(** Both coordinates are finite and different from zero, and stay finite
    when converted to radians (as every finite double does). *)
Definition ordinary (A : Arith) (a : Location.t) : Prop :=
  ∃ x y,
    Location.latitude a = Some (Finite x) ∧ x ≠ 0%R
    ∧ Location.longitude a = Some (Finite y) ∧ y ≠ 0%R
    ∧ (∃ l, math.radians A (Finite x) = Finite l)
    ∧ (∃ m, math.radians A (Finite y) = Finite m).

(** A location has both coordinates. *)
Definition has_coordinates (a : Location.t) : Prop :=
  is_Some (Location.latitude a) ∧ is_Some (Location.longitude a).



(** The candidates whose distance is returned and within the radius, as
    (id, distance) pairs in candidate order. *)
Definition within_radius (A : Arith) (target : Location.t)
    (candidates : list (Z * Location.t)) (max_distance : float)
  : list (Z * float) :=
  omap (λ kv, match utils.calculate_distance A target (snd kv) with
              | Ok d => if decide (float_le d max_distance)
                        then Some (fst kv, d) else None
              | Raise _ => None
              end)
       candidates.

(** The distance from the target to the candidate is returned, not
    raised. *)
Definition computed (A : Arith) (target : Location.t)
    (candidate : Z * Location.t) : Prop :=
  is_ok (utils.calculate_distance A target (snd candidate)) = true.

(** Ascending order of the keys. *)
Definition key_le {A} (key : A → float) (x y : A) : Prop :=
  float_le (key x) (key y).

(** Ascending order of (id, distance) pairs. *)
Definition by_distance : Z * float → Z * float → Prop :=
  key_le snd.

(** [result] is the ranking of the candidates within the radius: the same
    pairs, ascending by distance, ties in candidate order. *)
Definition ranks (A : Arith) (target : Location.t)
    (candidates : list (Z * Location.t)) (max_distance : float)
    (result : list (Z * float)) : Prop :=
  let within := within_radius A target candidates max_distance in
  result ≡ₚ within
  ∧ StronglySorted by_distance result
  ∧ ∀ d, filter (λ p, snd p = d) result = filter (λ p, snd p = d) within.

(** The ranking property as it is worded: a ranking is returned for every
    target, candidate list and finite radius. *)
Definition ranking_as_worded (A : Arith) : Prop :=
  ∀ target candidates (max_distance : R),
    ∃ result,
      utils.find_nearby_vendors A target candidates (Finite max_distance)
      = Ok result
      ∧ ranks A target candidates (Finite max_distance) result.

Module DemoGeo.
Definition point (lat lon : R) : Location.t :=
  Location.mk None (Some (Finite lat)) (Some (Finite lon)) None.

(** A location with a latitude and no longitude. *)
Definition half : Location.t := Location.mk None (Some (Finite 5)) None None.

(** A point on the equator. *)
Definition equator : Location.t := point 0 10.

(** A location whose latitude is infinite. *)
Definition beyond : Location.t :=
  Location.mk None (Some Infinity) (Some (Finite 10)) None.

(** A location whose coordinates are NaN. *)
Definition unknown : Location.t :=
  Location.mk None (Some NaN) (Some NaN) None.

(** Two vendors at the target, one without longitude between them. *)
Definition vendors : list (Z * Location.t) :=
  [(1, point 6 3); (2, half); (3, point 6 3)].
End DemoGeo.

(* ===================================================================== *)
(** ** Consistency of the two representations of an assignment             *)
(* ===================================================================== *)

(** Both invariants of the data model. *)
Definition consistent (st : Store) : Prop :=
  flag_invariant st ∧ assignment_agrees st.

(** A request to [update] that leaves the assignment fields out. *)
Definition keeps_assignment (cylinder_in : CylinderUpdate.t) : Prop :=
  CylinderUpdate.is_assigned cylinder_in = None
  ∧ CylinderUpdate.current_order_id cylinder_in = None.

(** The invariant property as it is worded: every mutating operation keeps
    both invariants. *)
Definition every_operation_preserves : Prop :=
  ∀ st, consistent st →
    (∀ cylinder_in vendor_id,
       consistent (snd (CylinderService.create cylinder_in vendor_id st)))
    ∧ (∀ id cylinder_in user_id,
         consistent (snd (CylinderService.update id cylinder_in user_id st)))
    ∧ (∀ ids new_status location notes user_id order_id,
         consistent (snd (CylinderService.update_status_bulk ids new_status
                            location notes user_id order_id st)))
    ∧ (∀ id user_id, consistent (snd (CylinderService.delete id user_id st)))
    ∧ (∀ order_in hospital_id,
         consistent (snd (OrderService.create order_in hospital_id st)))
    ∧ (∀ order_id vendor_id expected_delivery ids,
         consistent (snd (OrderService.accept_order order_id vendor_id
                            expected_delivery ids st)))
    ∧ (∀ order_id update_data user_id,
         consistent (snd (OrderService.update_delivery_status order_id
                            update_data user_id st)))
    ∧ (∀ order_id user_id reason,
         consistent (snd (OrderService.cancel_order order_id user_id reason st))).

Module DemoUpdate.
(** A request that sets [is_assigned] and nothing else. *)
Definition flag_only : CylinderUpdate.t :=
  CylinderUpdate.mk None None (Some (Some true)) None.
End DemoUpdate.

(** Two rows carry the same assignment. *)
Definition same_assignment (c' c : Cylinder.t) : Prop :=
  Cylinder.is_assigned c' = Cylinder.is_assigned c
  ∧ Cylinder.current_order_id c' = Cylinder.current_order_id c.

(** Two cylinder tables hold the same ids with the same assignments. *)
Definition same_assignments (m' m : gmap Z Cylinder.t) : Prop :=
  (∀ id c', m' !! id = Some c' → ∃ c, m !! id = Some c ∧ same_assignment c' c)
  ∧ (∀ id c, m !! id = Some c → ∃ c', m' !! id = Some c' ∧ same_assignment c' c).

(* ===================================================================== *)
(** ** Proof automation                                                    *)
(* ===================================================================== *)

(** Unfolding of the monad, for symbolic execution of a service method. *)
Ltac run :=
  repeat (progress (cbn [fst snd] in *;
       unfold mbind, M_bind, mret, M_ret, gets, modify, raise,
              RedisCache.get, RedisCache.set, RedisCache.delete,
              RedisCache.invalidate_pattern in * )).


(* ===================================================================== *)
(** ** Statements about the rest of the registry and the engine           *)
(* ===================================================================== *)

(** The row [create] stores for a request. *)
Definition created_cylinder (cylinder_in : CylinderCreate.t) (vendor_id : Z)
  : Cylinder.t :=
  Cylinder.mk (CylinderCreate.serial_number cylinder_in)
    (CylinderCreate.status cylinder_in) vendor_id
    (CylinderCreate.location cylinder_in) (Some false) None.

(** The log rows written by [create] and [delete] of the registry. *)
Definition cylinder_created_entry (id : Z) (cylinder_in : CylinderCreate.t)
    (vendor_id : Z) : CylinderLog.t :=
  CylinderLog.mk id CylinderEventType.CREATED None
    (Some (CylinderCreate.status cylinder_in)) None
    (CylinderCreate.location cylinder_in) (Some "Cylinder created") vendor_id.

Definition cylinder_deleted_entry (id : Z) (old_status : CylinderStatus.t)
    (user_id : Z) : CylinderLog.t :=
  CylinderLog.mk id CylinderEventType.DELETED (Some old_status) None None None
    (Some "Cylinder deleted") user_id.

(** A serial number is registered in the store. *)
Definition serial_registered (st : Store) (serial : string) : Prop :=
  ∃ id c, cylinders st !! id = Some c ∧ Cylinder.serial_number c = serial.

(** No two rows of the cylinder table carry the same serial number. *)
Definition serials_unique (m : gmap Z Cylinder.t) : Prop :=
  ∀ i j c d, m !! i = Some c → m !! j = Some d →
    Cylinder.serial_number c = Cylinder.serial_number d → i = j.

(** The log row written by [update_delivery_status] of the engine. *)
Definition delivery_status_entry (order_id : Z) (old_status : OrderStatus.t)
    (update_data : OrderDeliveryUpdate.t) (user_id : Z) : OrderLog.t :=
  OrderLog.mk order_id OrderEventType.STATUS_CHANGED (Some old_status)
    (Some (OrderDeliveryUpdate.status update_data))
    (Some (DeliveryDetails
             (OrderDeliveryUpdate.cylinders_sent update_data)
             (OrderDeliveryUpdate.empty_cylinders_returned update_data)
             (OrderDeliveryUpdate.notes update_data)))
    None user_id.

(** The cache keys of the two services. *)
Definition cylinder_key (id : Z) : string :=
  RedisCache._generate_key [CylinderService.CACHE_PREFIX; str id].

Definition order_key (id : Z) : string :=
  RedisCache._generate_key [OrderService.CACHE_PREFIX; str id].

(** Both audit logs of [st'] start with the logs of [st]: rows were only
    appended. *)
Definition logs_extend (st st' : Store) : Prop :=
  cylinder_logs st `prefix_of` cylinder_logs st'
  ∧ order_logs st `prefix_of` order_logs st'.

(** The log rows of one cylinder and of one order, as the [where] clause of
    [get_logs] selects them. *)
Definition cylinder_history (st : Store) (cylinder_id : Z)
  : list CylinderLog.t :=
  filter (λ log, CylinderLog.cylinder_id log = cylinder_id) (cylinder_logs st).

Definition order_history (st : Store) (order_id : Z) : list OrderLog.t :=
  filter (λ log, OrderLog.order_id log = order_id) (order_logs st).

(** [rows] is a page of [all] whatever the order of the page: its rows are
    rows of [all], each at most as often as [all] has it, it has as many
    rows as are left of [all] after [skip] of them, up to [limit], and
    from [skip = 0] with room for every row it is [all] rearranged. *)
Definition page_of {A : Type} (all : list A) (skip limit : nat)
    (rows : list A) : Prop :=
  rows ⊆+ all
  ∧ length rows = (limit `min` (length all - skip))%nat
  ∧ (skip = 0%nat → (length all ≤ limit)%nat → rows ≡ₚ all).

(** A request that sets the status back to pending and the counters. *)
Definition reopen (cylinders_sent empty_cylinders_returned : Z)
  : OrderDeliveryUpdate.t :=
  OrderDeliveryUpdate.mk OrderStatus.PENDING cylinders_sent
    empty_cylinders_returned None None.

(** Every cylinder entry of the cache is the JSON of the row now stored
    under that id. *)
Definition cylinder_cache_coherent (st : Store) : Prop :=
  ∀ id v, cache st !! cylinder_key id = Some v →
    ∃ c, cylinders st !! id = Some c ∧ v = CylinderJson id c.

(* ===================================================================== *)
(** ** Routes of the registry (cylinders/router.py)                        *)
(* ===================================================================== *)

Module UserRole.
Inductive t := HOSPITAL | VENDOR | ADMIN.
#[global] Instance eq_dec : EqDecision t.
Proof. solve_decision. Defined.
End UserRole.

(** The authenticated user, with the two fields the routes read. *)
Module User.
Record t := mk {
  id : Z;
  role : UserRole.t
}.
End User.

(** The body of a bulk status update (cylinders/schemas.py). *)
Module CylinderStatusUpdate.
Record t := mk {
  cylinder_ids : list Z;
  new_status : CylinderStatus.t;
  location : option Location.t;
  notes : option string
}.
End CylinderStatusUpdate.

Module CylinderRouter.
(** The permission check of the routes:
    [role == VENDOR and cylinder.vendor_id != current_user.id
     and role != ADMIN]. *)
Definition refused (current_user : User.t) (c : Cylinder.t) : Prop :=
  User.role current_user = UserRole.VENDOR
  ∧ Cylinder.vendor_id c ≠ User.id current_user
  ∧ User.role current_user ≠ UserRole.ADMIN.

#[global] Instance refused_dec current_user c : Decision (refused current_user c).
Proof. unfold refused. apply _. Defined.

Definition create_cylinder (cylinder_in : CylinderCreate.t)
    (current_user : User.t) : M (Z * Cylinder.t) :=
  if decide (User.role current_user ≠ UserRole.VENDOR) then
    raise (HTTPException 403 "Only vendors can create cylinders")
  else CylinderService.create cylinder_in (User.id current_user).

(** In [list_cylinders] the query parameter [status] hides the module
    [fastapi.status]: the 403 of the last branch is never built, the
    attribute lookup on the parameter fails first. *)
Definition list_cylinders (status : option CylinderStatus.t)
    (is_assigned : option bool) (skip limit : nat) (current_user : User.t)
  : M (list (Z * Cylinder.t)) :=
  if decide (User.role current_user = UserRole.VENDOR) then
    CylinderService.list (Some (User.id current_user)) status is_assigned
      skip limit
  else if decide (User.role current_user ≠ UserRole.ADMIN) then
    raise (AttributeError "HTTP_403_FORBIDDEN")
  else CylinderService.list None status is_assigned skip limit.

Definition update_cylinder (cylinder_id : Z) (cylinder_in : CylinderUpdate.t)
    (current_user : User.t) : M Cylinder.t :=
  cylinder ← CylinderService.get cylinder_id;
  match cylinder with
  | None => raise (HTTPException 404 "Cylinder not found")
  | Some c =>
      if decide (refused current_user c) then
        raise (HTTPException 403 "Not enough permissions")
      else
        CylinderService.update cylinder_id cylinder_in (User.id current_user)
  end.

(** One turn of the permission loop of [update_cylinder_status_bulk]. *)
Definition verify (current_user : User.t) (cylinder_id : Z) : M unit :=
  cylinder ← CylinderService.get cylinder_id;
  match cylinder with
  | None =>
      raise (HTTPException 404
               ("Cylinder " +:+ str cylinder_id +:+ " not found"))
  | Some c =>
      if decide (refused current_user c) then
        raise (HTTPException 403
                 ("Not enough permissions for cylinder " +:+ str cylinder_id))
      else mret tt
  end.

Definition update_cylinder_status_bulk (status_update : CylinderStatusUpdate.t)
    (current_user : User.t) : M (list (Z * Cylinder.t)) :=
  for_each (CylinderStatusUpdate.cylinder_ids status_update)
    (verify current_user) ;;
  CylinderService.update_status_bulk
    (CylinderStatusUpdate.cylinder_ids status_update)
    (CylinderStatusUpdate.new_status status_update)
    (CylinderStatusUpdate.location status_update)
    (CylinderStatusUpdate.notes status_update)
    (User.id current_user) None.

Definition delete_cylinder (cylinder_id : Z) (current_user : User.t) : M unit :=
  cylinder ← CylinderService.get cylinder_id;
  match cylinder with
  | None => raise (HTTPException 404 "Cylinder not found")
  | Some c =>
      if decide (refused current_user c) then
        raise (HTTPException 403 "Not enough permissions")
      else
        deleted ← CylinderService.delete cylinder_id (User.id current_user);
        if negb deleted then raise (HTTPException 404 "Cylinder not found")
        else mret tt
  end.
End CylinderRouter.

(** The user passes the permission check of the routes on the cylinder
    stored under the id. *)
Definition permitted (current_user : User.t) (st : Store) (id : Z) : Prop :=
  ∃ c, cylinders st !! id = Some c ∧ ¬ CylinderRouter.refused current_user c.

Module DemoRouter.
Definition vendor7 : User.t := User.mk 7 UserRole.VENDOR.
Definition hospital3 : User.t := User.mk 3 UserRole.HOSPITAL.

Definition empty_all (ids : list Z) : CylinderStatusUpdate.t :=
  CylinderStatusUpdate.mk ids CylinderStatus.EMPTY None None.

Definition set_empty : CylinderUpdate.t :=
  CylinderUpdate.mk (Some (Some CylinderStatus.EMPTY)) None None None.
End DemoRouter.
(* ===================================================================== *)
(** * Properties                                                           *)
(* ===================================================================== *)

Lemma bind_run {A B} (m : M A) (f : A → M B) (st : Store) :
  (m ≫= f) st
  = match m st with
    | (Ok a, st') => f a st'
    | (Raise e, st') => (Raise e, st')
    end.
Proof. reflexivity. Qed.

Lemma db_eq (st st' : Store) :
  db st' = db st →
  cylinders st' = cylinders st ∧ cylinder_logs st' = cylinder_logs st
  ∧ orders st' = orders st ∧ order_logs st' = order_logs st.
Proof. unfold db. intros [= -> -> -> ->]. done. Qed.

Lemma cylinder_get_run (id : Z) (st : Store) :
  CylinderService.get id st
  = (Ok (cylinders st !! id),
     match cylinders st !! id with
     | Some c =>
         if truthy (cache st !! cylinder_key id) then st
         else set_cache (insert (cylinder_key id) (CylinderJson id c)) st
     | None => st
     end).
Proof.
  unfold CylinderService.get, CylinderService.select_by_id,
    CylinderService._cache_cylinder, RedisCache.set, RedisCache.get.
  rewrite bind_run. unfold gets at 1. fold (cylinder_key id).
  destruct (truthy _).
  - unfold gets. by destruct (cylinders st !! id).
  - rewrite bind_run. unfold gets at 1.
    destruct (cylinders st !! id); [|done].
    rewrite bind_run. by unfold modify at 1.
Qed.

Lemma cylinder_key_inj (a b : Z) : cylinder_key a = cylinder_key b → a = b.
Proof.
  unfold cylinder_key, RedisCache._generate_key, str. cbn.
  intros [= H]. by apply (inj pretty).
Qed.

Lemma cylinder_get_spec (id : Z) (st : Store) :
  fst (CylinderService.get id st) = Ok (cylinders st !! id)
  ∧ db (snd (CylinderService.get id st)) = db st.
Proof.
  unfold CylinderService.get, CylinderService.select_by_id,
    CylinderService._cache_cylinder. run.
  destruct (truthy _); [done|].
  destruct (cylinders st !! id) eqn:E; cbn; rewrite ?E; done.
Qed.

Lemma order_get_spec (id : Z) (st : Store) :
  fst (OrderService.get id st) = Ok (orders st !! id)
  ∧ db (snd (OrderService.get id st)) = db st.
Proof.
  unfold OrderService.get, OrderService.select_by_id,
    OrderService._cache_order. run.
  destruct (truthy _); [done|].
  destruct (orders st !! id) eqn:E; cbn; rewrite ?E; done.
Qed.

(** C10: for every id and every store (so for every cache content, a hit
    with a stale copy included), [CylinderService.get] and
    [OrderService.get] return what the lookup of the id in the table
    returns, and leave the tables as they are. *)
Theorem get_returns_stored_row (id : Z) (st : Store) :
  fst (CylinderService.get id st) = Ok (cylinders st !! id)
  ∧ fst (OrderService.get id st) = Ok (orders st !! id)
  ∧ db (snd (CylinderService.get id st)) = db st
  ∧ db (snd (OrderService.get id st)) = db st.
Proof.
  destruct (cylinder_get_spec id st) as [? ?].
  destruct (order_get_spec id st) as [? ?]. done.
Qed.

(** *** Counting the rows selected by the availability query *)

Lemma size_list_to_set_le (l : list Z) :
  (size (list_to_set l : gset Z) ≤ length l)%nat.
Proof.
  induction l as [|x l IH]; cbn [list_to_set length].
  - by rewrite size_empty.
  - rewrite size_union_alt, size_singleton.
    pose proof (subseteq_size (list_to_set l ∖ {[x]}) (list_to_set l : gset Z)) as Hs.
    assert (Hsub : list_to_set l ∖ {[x]} ⊆ (list_to_set l : gset Z))
      by (intros y Hy; by apply elem_of_difference in Hy as [? _]).
    specialize (Hs Hsub). lia.
Qed.

Lemma query_available_all (m : gmap Z Cylinder.t) (ids : list Z) (v : Z) :
  length (map_to_list (filter (OrderService.available ids v) m)) = length ids →
  ∀ id, id ∈ ids →
    ∃ c, m !! id = Some c ∧ OrderService.available ids v (id, c).
Proof.
  intros Hlen id Hid.
  set (S := filter (OrderService.available ids v) m) in *.
  assert (Hsub : dom S ⊆ (list_to_set ids : gset Z)).
  { intros i Hi. apply elem_of_dom in Hi as [x Hx].
    apply map_lookup_filter_Some in Hx as [_ (Hin & _)].
    by apply elem_of_list_to_set. }
  assert (Heq : dom S = (list_to_set ids : gset Z)).
  { apply set_subseteq_size_eq; [done|].
    rewrite size_dom, <- length_map_to_list, Hlen.
    apply size_list_to_set_le. }
  assert (Hd : id ∈ dom S) by (rewrite Heq; by apply elem_of_list_to_set).
  apply elem_of_dom in Hd as [c Hc].
  apply map_lookup_filter_Some in Hc as [Hm Hav]. eauto.
Qed.

(** *** The assignment loop of [accept_order] *)



Lemma accept_loop_run (order_id : Z) (l : list (Z * Cylinder.t)) (st : Store) :
  for_each l (λ kc,
      modify (set_cylinders (alter (OrderService.assign order_id) (fst kc))) ;;
      modify (set_orders (alter (OrderService.append_cylinder (fst kc)) order_id)))
    st
  = (Ok tt,
     mkStore (assign_all order_id l (cylinders st)) (cylinder_logs st)
       (append_all order_id l (orders st)) (order_logs st) (cache st)).
Proof.
  revert st. induction l as [|kc l IH]; intros st.
  - by destruct st.
  - cbn [for_each]. run. rewrite IH. done.
Qed.

Lemma assign_all_lookup (order_id : Z) (l : list (Z * Cylinder.t))
    (m : gmap Z Cylinder.t) (id : Z) :
  assign_all order_id l m !! id
  = if decide (id ∈ l.*1) then OrderService.assign order_id <$> m !! id
    else m !! id.
Proof.
  revert m. induction l as [|[k c] l IH]; intros m; cbn.
  - case_decide as H; [by apply elem_of_nil in H | done].
  - unfold assign_all in IH. rewrite IH. cbn.
    destruct (decide (k = id)) as [->|Hne].
    + rewrite lookup_alter_eq.
      destruct (decide (id ∈ l.*1)) as [Hl|Hl];
        (destruct (decide (id ∈ id :: l.*1)) as [_|Hn];
           [|exfalso; apply Hn; left]).
      * by destruct (m !! id).
      * done.
    + rewrite lookup_alter_ne by done.
      destruct (decide (id ∈ l.*1)) as [Hl|Hl];
        destruct (decide (id ∈ k :: l.*1)) as [Hn|Hn]; try done.
      * exfalso. apply Hn. by right.
      * exfalso. apply elem_of_cons in Hn as [?|?]; congruence.
Qed.

Lemma append_all_lookup_ne (order_id : Z) (l : list (Z * Cylinder.t))
    (m : gmap Z Order.t) (id : Z) :
  id ≠ order_id → append_all order_id l m !! id = m !! id.
Proof.
  intros Hne. revert m. induction l as [|[k c] l IH]; intros m; cbn; [done|].
  unfold append_all in IH. rewrite IH. by rewrite lookup_alter_ne.
Qed.


Lemma append_all_lookup (order_id : Z) (l : list (Z * Cylinder.t))
    (m : gmap Z Order.t) :
  append_all order_id l m !! order_id = append_ids l.*1 <$> m !! order_id.
Proof.
  revert m. induction l as [|[k c] l IH]; intros m; cbn.
  - destruct (m !! order_id) as [[]|]; cbn; [|done].
    unfold append_ids; cbn. by rewrite app_nil_r.
  - unfold append_all in IH. rewrite IH, lookup_alter_eq.
    destruct (m !! order_id) as [o|]; cbn; [|done].
    unfold append_ids, OrderService.append_cylinder; cbn.
    by rewrite <- app_assoc.
Qed.

(** *** Symbolic execution of [accept_order] *)

Lemma accept_order_run (st : Store) (order_id vendor_id : Z)
    (expected_delivery : datetime) (ids : list Z) :
  let r := OrderService.accept_order order_id vendor_id expected_delivery ids st in
  let sel := map_to_list
               (filter (OrderService.available ids vendor_id) (cylinders st)) in
  match orders st !! order_id with
  | None =>
      fst r = Raise (HTTPException 404 "Order not found") ∧ db (snd r) = db st
  | Some o =>
      if decide (Order.status o ≠ OrderStatus.PENDING) then
        fst r = Raise (HTTPException 400 "Order cannot be accepted")
        ∧ db (snd r) = db st
      else if decide (length sel ≠ length ids) then
        fst r = Raise (HTTPException 400 "Some cylinders are not available")
        ∧ db (snd r) = db st
      else
        fst r = Ok (append_ids sel.*1
                      (OrderService.accepted vendor_id expected_delivery o))
        ∧ cylinders (snd r) = assign_all order_id sel (cylinders st)
        ∧ cylinder_logs (snd r) = cylinder_logs st
        ∧ orders (snd r)
          = append_all order_id sel
              (alter (OrderService.accepted vendor_id expected_delivery)
                     order_id (orders st))
        ∧ order_logs (snd r)
          = order_logs st
            ++ [vendor_assigned_entry order_id vendor_id expected_delivery ids]
  end.
Proof.
  intros r sel. subst r.
  destruct (OrderService.accept_order order_id vendor_id expected_delivery ids st)
    as [r st'] eqn:E.
  unfold OrderService.accept_order in E.
  destruct (order_get_spec order_id st) as [Hr Hdb].
  rewrite bind_run in E.
  destruct (OrderService.get order_id st) as [r0 st0]. cbn in Hr, Hdb.
  subst r0. pose proof Hdb as Hdb'.
  apply db_eq in Hdb' as (Hc & Hcl & Ho & Hol).
  destruct (orders st !! order_id) as [o|] eqn:Eo;
    [|by injection E as <- <-].
  destruct (decide (Order.status o ≠ OrderStatus.PENDING)) as [Hs|Hs];
    [by injection E as <- <-|].
  rewrite bind_run in E. unfold OrderService.query_available, gets in E.
  rewrite Hc in E. fold sel in E.
  destruct (decide (length sel ≠ length ids)) as [Hl|Hl];
    [by injection E as <- <-|].
  rewrite bind_run in E. unfold modify at 1 in E.
  rewrite bind_run, accept_loop_run in E.
  cbn [cylinders orders set_orders cylinder_logs order_logs cache] in E.
  rewrite bind_run in E. unfold OrderService.create_log in E.
  rewrite bind_run in E. unfold modify at 1 in E. unfold mret, M_ret in E.
  rewrite bind_run in E. unfold OrderService.select_by_id, gets in E.
  cbn [cylinders orders set_order_logs cylinder_logs order_logs cache] in E.
  rewrite append_all_lookup, lookup_alter_eq, Ho, Eo in E.
  cbn [fmap option_fmap option_map] in E.
  unfold OrderService._cache_order in E. rewrite bind_run in E.
  unfold RedisCache.set, modify in E. cbn in E.
  injection E as <- <-. cbn.
  rewrite Hc, Hcl, Hol. done.
Qed.

Lemma size_list_to_set_NoDup (l : list Z) :
  size (list_to_set l : gset Z) = length l → NoDup l.
Proof.
  induction l as [|x l IH]; cbn [list_to_set length]; intros Hs.
  - constructor.
  - pose proof (size_list_to_set_le l) as Hle.
    destruct (decide (x ∈ l)) as [Hin|Hin].
    + assert (Heq : {[x]} ∪ list_to_set l = (list_to_set l : gset Z)).
      { apply set_eq. intros y. rewrite elem_of_union, elem_of_singleton,
          elem_of_list_to_set. split; [intros [->|?]; done | by right]. }
      rewrite Heq in Hs. lia.
    + rewrite size_union, size_singleton in Hs.
      * constructor; [done | apply IH; lia].
      * intros y. rewrite elem_of_singleton, elem_of_list_to_set.
        intros -> ?. done.
Qed.

Lemma query_available_length (m : gmap Z Cylinder.t) (ids : list Z) (v : Z) :
  length (map_to_list (filter (OrderService.available ids v) m)) = length ids
  ↔ NoDup ids
    ∧ ∀ id, id ∈ ids → ∃ c, m !! id = Some c ∧ OrderService.available ids v (id, c).
Proof.
  set (S := filter (OrderService.available ids v) m).
  assert (Hsub : dom S ⊆ (list_to_set ids : gset Z)).
  { intros i Hi. apply elem_of_dom in Hi as [x Hx].
    apply map_lookup_filter_Some in Hx as [_ (Hin & _)].
    by apply elem_of_list_to_set. }
  split.
  - intros Hlen.
    assert (Heq : dom S = (list_to_set ids : gset Z)).
    { apply set_subseteq_size_eq; [done|].
      rewrite size_dom, <- length_map_to_list, Hlen.
      apply size_list_to_set_le. }
    split; [|by apply query_available_all].
    apply size_list_to_set_NoDup.
    by rewrite <- Heq, size_dom, <- length_map_to_list.
  - intros [Hnd Hall].
    assert (Heq : dom S = (list_to_set ids : gset Z)).
    { apply set_eq. intros i. split; [apply Hsub|].
      rewrite elem_of_list_to_set. intros Hi.
      destruct (Hall i Hi) as (c & Hc & Hav).
      apply elem_of_dom. exists c. by apply map_lookup_filter_Some. }
    rewrite length_map_to_list, <- size_dom, Heq.
    by apply size_list_to_set.
Qed.

Lemma reservation_succeeds_length (st : Store) (vendor_id : Z) (ids : list Z) :
  length (map_to_list
            (filter (OrderService.available ids vendor_id) (cylinders st)))
  = length ids
  ↔ reservation_succeeds st vendor_id ids.
Proof.
  rewrite query_available_length. unfold reservation_succeeds, reservable.
  split; intros [Hnd Hall]; (split; [done|]); intros id Hid;
    destruct (Hall id Hid) as (c & Hc & Hav); exists c.
  - destruct Hav as (_ & ? & ? & ?). done.
  - split; [done|]. destruct Hav as (? & ? & ?). by repeat split.
Qed.

(** A cache hit with an older copy: the stored row is returned. *)
Example get_ignores_stale_copy :
  cache Demo.stale !! "cylinder:10"
  = Some (CylinderJson 10
            (Cylinder.mk "S-10" CylinderStatus.EMPTY 7 None (Some false) None))
  ∧ fst (CylinderService.get 10 Demo.stale) = Ok (Some (Demo.filled 7 "S-10")).
Proof. split; vm_compute; reflexivity. Qed.

(** *** C1 and C2: acceptance *)

(** C1: when [accept_order] succeeds, every requested id resolved to a
    cylinder owned by the vendor, filled and not assigned; afterwards each of
    them is assigned and linked to the order, the order is accepted with its
    vendor and expected delivery set, and exactly one [vendor_assigned] log
    row for the order was appended.  When some requested id does not meet
    the condition the call raises and the tables are left as they were. *)
Theorem accept_order_all_or_nothing (st : Store) (order_id vendor_id : Z)
    (expected_delivery : datetime) (ids : list Z) :
  let r := OrderService.accept_order order_id vendor_id expected_delivery ids st in
  (∀ o', fst r = Ok o' →
     (∀ id, id ∈ ids → reservable st vendor_id id)
     ∧ (∀ id, id ∈ ids →
          ∃ c, cylinders (snd r) !! id = Some c
               ∧ Cylinder.is_assigned c = Some true
               ∧ Cylinder.current_order_id c = Some order_id)
     ∧ orders (snd r) !! order_id = Some o'
     ∧ Order.status o' = OrderStatus.ACCEPTED
     ∧ Order.vendor_id o' = Some vendor_id
     ∧ Order.expected_delivery o' = Some expected_delivery
     ∧ order_logs (snd r)
       = order_logs st
         ++ [vendor_assigned_entry order_id vendor_id expected_delivery ids])
  ∧ ((∃ id, id ∈ ids ∧ ¬ reservable st vendor_id id) →
     (∃ e, fst r = Raise e) ∧ db (snd r) = db st).
Proof.
  intros r.
  pose proof (accept_order_run st order_id vendor_id expected_delivery ids) as H.
  cbv zeta in H. fold r in H.
  set (sel := map_to_list _) in H.
  pose proof (reservation_succeeds_length st vendor_id ids) as Hres.
  fold sel in Hres.
  destruct (orders st !! order_id) as [o|] eqn:Eo.
  2:{ destruct H as [Hr Hdb]. split; [intros o'; rewrite Hr; done | eauto]. }
  destruct (decide (Order.status o ≠ OrderStatus.PENDING)) as [Hs|Hs].
  { destruct H as [Hr Hdb]. split; [intros o'; rewrite Hr; done | eauto]. }
  destruct (decide (length sel ≠ length ids)) as [Hl|Hl].
  { destruct H as [Hr Hdb]. split; [intros o'; rewrite Hr; done | eauto]. }
  assert (Hlen : length sel = length ids) by (destruct (decide (length sel = length ids)); done).
  apply Hres in Hlen as [Hnd Hall].
  destruct H as (Hr & Hc & _ & Ho & Hlog).
  split.
  - intros o' Ho'. rewrite Hr in Ho'. injection Ho' as <-.
    split; [done|]. split; [|split].
    + intros id Hid. destruct (Hall id Hid) as (c & Hc0 & Hv & Hf & Ha).
      exists (OrderService.assign order_id c).
      rewrite Hc, assign_all_lookup, Hc0.
      rewrite decide_True; [done|].
      apply list_elem_of_fmap. exists (id, c). split; [done|].
      apply elem_of_map_to_list, map_lookup_filter_Some.
      split; [done|]. by repeat split.
    + by rewrite Ho, append_all_lookup, lookup_alter_eq, Eo.
    + done.
  - intros (id & Hid & Hbad). exfalso. by apply Hbad, Hall.
Qed.

Lemma accept_order_all_or_nothing_witness :
  (∃ c, cylinders Demo.st1 !! 11 = Some c
        ∧ Cylinder.is_assigned c = Some true
        ∧ Cylinder.current_order_id c = Some 1)
  ∧ db (snd (OrderService.accept_order 1 7 1000 [10; 13] Demo.st0))
    = db Demo.st0.
Proof.
  split.
  - destruct (accept_order_all_or_nothing Demo.st0 1 7 1000 [10; 11; 12])
      as [Hok _].
    assert (E : ∃ o', fst (OrderService.accept_order 1 7 1000 [10; 11; 12]
                             Demo.st0) = Ok o')
      by (eexists; vm_compute; reflexivity).
    destruct E as [o' E]. destruct (Hok o' E) as (_ & Hpost & _).
    apply (Hpost 11). apply list_elem_of_In. simpl. tauto.
  - destruct (accept_order_all_or_nothing Demo.st0 1 7 1000 [10; 13])
      as [_ Hfail].
    apply Hfail. exists 13. split.
    + apply list_elem_of_In. simpl. tauto.
    + intros (c & Hc & Hv & _). vm_compute in Hc. injection Hc as <-.
      vm_compute in Hv. discriminate.
Defined.

(** C2: on an order that is not pending [accept_order] fails with the 400
    "cannot be accepted" error, and on a pending order whose reservation does
    not go through it fails with the 400 "not available" error; in both cases
    the tables (order row, order log, cylinders, cylinder log) are left as
    they were. *)
Theorem accept_order_failure_is_atomic (st : Store) (order_id vendor_id : Z)
    (expected_delivery : datetime) (ids : list Z) (o : Order.t) :
  orders st !! order_id = Some o →
  let r := OrderService.accept_order order_id vendor_id expected_delivery ids st in
  (Order.status o ≠ OrderStatus.PENDING →
     fst r = Raise (HTTPException 400 "Order cannot be accepted")
     ∧ db (snd r) = db st)
  ∧ (Order.status o = OrderStatus.PENDING →
     ¬ reservation_succeeds st vendor_id ids →
     fst r = Raise (HTTPException 400 "Some cylinders are not available")
     ∧ db (snd r) = db st).
Proof.
  intros Eo r.
  pose proof (accept_order_run st order_id vendor_id expected_delivery ids) as H.
  cbv zeta in H. fold r in H. rewrite Eo in H.
  set (sel := map_to_list _) in H.
  pose proof (reservation_succeeds_length st vendor_id ids) as Hres.
  fold sel in Hres.
  split.
  - intros Hs. by rewrite decide_True in H.
  - intros Hs Hno. rewrite decide_False in H by (intros Hn; by apply Hn).
    rewrite decide_True in H; [done|].
    intros Hlen. by apply Hno, Hres.
Qed.

Lemma accept_order_failure_is_atomic_witness :
  (fst (OrderService.accept_order 1 7 2000 [12] Demo.st1)
     = Raise (HTTPException 400 "Order cannot be accepted")
   ∧ db (snd (OrderService.accept_order 1 7 2000 [12] Demo.st1)) = db Demo.st1)
  ∧ (fst (OrderService.accept_order 1 7 1000 [10; 13] Demo.st0)
     = Raise (HTTPException 400 "Some cylinders are not available")
   ∧ db (snd (OrderService.accept_order 1 7 1000 [10; 13] Demo.st0))
     = db Demo.st0).
Proof.
  split.
  - assert (E : ∃ o, orders Demo.st1 !! 1 = Some o
                     ∧ Order.status o ≠ OrderStatus.PENDING).
    { eexists. split; [vm_compute; reflexivity | discriminate]. }
    destruct E as (o & Eo & Hs).
    exact (proj1 (accept_order_failure_is_atomic Demo.st1 1 7 2000 [12] o Eo) Hs).
  - refine (proj2 (accept_order_failure_is_atomic Demo.st0 1 7 1000 [10; 13]
                     (Demo.pending_order 3 3) eq_refl) eq_refl _).
    intros [_ Hall]. destruct (Hall 13) as (c & Hc & Hv & _).
    + apply list_elem_of_In. simpl. tauto.
    + vm_compute in Hc. injection Hc as <-. vm_compute in Hv. discriminate.
Defined.

(** Acceptance goes through on a pending order whose reservation does. *)
Lemma accept_order_succeeds (st : Store) (order_id vendor_id : Z)
    (expected_delivery : datetime) (ids : list Z) (o : Order.t) :
  orders st !! order_id = Some o →
  Order.status o = OrderStatus.PENDING →
  reservation_succeeds st vendor_id ids →
  ∃ o', fst (OrderService.accept_order order_id vendor_id expected_delivery
               ids st) = Ok o'.
Proof.
  intros Eo Hs Hres.
  pose proof (accept_order_run st order_id vendor_id expected_delivery ids) as H.
  cbv zeta in H. rewrite Eo in H.
  rewrite decide_False in H by (intros Hn; by apply Hn).
  apply reservation_succeeds_length in Hres.
  rewrite decide_False in H by (intros Hn; by apply Hn).
  destruct H as [Hr _]. eauto.
Qed.

(** Accepting order 1 with cylinders 10, 11 and 12 of vendor 7. *)
Example accept_order_scenario :
  (Order.status <$> orders Demo.st1 !! 1) = Some OrderStatus.ACCEPTED
  ∧ (Cylinder.is_assigned <$> cylinders Demo.st1 !! 10) = Some (Some true)
  ∧ (Cylinder.is_assigned <$> cylinders Demo.st1 !! 11) = Some (Some true)
  ∧ (Cylinder.is_assigned <$> cylinders Demo.st1 !! 12) = Some (Some true)
  ∧ (Cylinder.is_assigned <$> cylinders Demo.st1 !! 13) = Some (Some false)
  ∧ order_logs Demo.st1 = [vendor_assigned_entry 1 7 1000 [10; 11; 12]].
Proof. repeat split; vm_compute; reflexivity. Qed.

(** A request that names the same cylinder twice is refused, although the
    cylinder can be reserved. *)
Example accept_order_repeated_id :
  fst (OrderService.accept_order 1 7 1000 [10; 10] Demo.st0)
  = Raise (HTTPException 400 "Some cylinders are not available").
Proof. vm_compute. reflexivity. Qed.

(** *** C3: cancellation *)

Lemma cancel_loop_run (ids : list Z) (st : Store) :
  for_each ids (λ cylinder_id,
      modify (set_cylinders (alter OrderService.unassign cylinder_id))) st
  = (Ok tt,
     mkStore (unassign_all ids (cylinders st)) (cylinder_logs st) (orders st)
       (order_logs st) (cache st)).
Proof.
  revert st. induction ids as [|id ids IH]; intros st.
  - by destruct st.
  - cbn [for_each]. rewrite bind_run. unfold modify at 1. rewrite IH. done.
Qed.

Lemma unassign_all_lookup (ids : list Z) (m : gmap Z Cylinder.t) (id : Z) :
  unassign_all ids m !! id
  = if decide (id ∈ ids) then OrderService.unassign <$> m !! id else m !! id.
Proof.
  revert m. induction ids as [|k ids IH]; intros m; cbn.
  - rewrite decide_False; [done | apply not_elem_of_nil].
  - unfold unassign_all in IH. rewrite IH.
    destruct (decide (k = id)) as [->|Hne].
    + rewrite lookup_alter_eq, (decide_True (P := id ∈ id :: ids)) by left.
      destruct (decide (id ∈ ids)); [|done]. by destruct (m !! id).
    + rewrite lookup_alter_ne by done.
      destruct (decide (id ∈ ids)) as [Hl|Hl].
      * rewrite decide_True; [done | by right].
      * rewrite decide_False; [done|].
        intros [?|?]%elem_of_cons; congruence.
Qed.

Lemma cancel_order_run (st : Store) (order_id user_id : Z) (reason : string) :
  let r := OrderService.cancel_order order_id user_id reason st in
  match orders st !! order_id with
  | None =>
      fst r = Raise (HTTPException 404 "Order not found") ∧ db (snd r) = db st
  | Some o =>
      if decide (Order.status o ∉ [OrderStatus.PENDING; OrderStatus.ACCEPTED])
      then
        fst r = Raise (HTTPException 400 "Order cannot be cancelled")
        ∧ db (snd r) = db st
      else
        fst r = Ok (OrderService.cancelled o)
        ∧ cylinders (snd r) = unassign_all (Order.cylinders o) (cylinders st)
        ∧ cylinder_logs (snd r) = cylinder_logs st
        ∧ orders (snd r) = <[order_id := OrderService.cancelled o]> (orders st)
        ∧ order_logs (snd r)
          = order_logs st
            ++ [cancelled_entry order_id (Order.status o) user_id reason]
  end.
Proof.
  intros r. subst r.
  destruct (OrderService.cancel_order order_id user_id reason st)
    as [r st'] eqn:E.
  unfold OrderService.cancel_order in E.
  destruct (order_get_spec order_id st) as [Hr Hdb].
  rewrite bind_run in E.
  destruct (OrderService.get order_id st) as [r0 st0]. cbn in Hr, Hdb.
  subst r0. pose proof Hdb as Hdb'.
  apply db_eq in Hdb' as (Hc & Hcl & Ho & Hol).
  destruct (orders st !! order_id) as [o|] eqn:Eo;
    [|by injection E as <- <-].
  destruct (decide (Order.status o ∉ _)) as [Hs|Hs];
    [by injection E as <- <-|].
  rewrite bind_run in E. unfold modify at 1 in E.
  rewrite bind_run, cancel_loop_run in E.
  cbn [cylinders orders set_orders cylinder_logs order_logs cache] in E.
  unfold OrderService.create_log, OrderService._cache_order,
    RedisCache.set in E.
  repeat (rewrite bind_run in E; unfold modify at 1 in E).
  unfold mret, M_ret in E. cbn in E.
  injection E as <- <-. cbn.
  rewrite Hc, Hcl, Ho, Hol. done.
Qed.

Lemma status_cancellable (s : OrderStatus.t) :
  s ∈ [OrderStatus.IN_TRANSIT; OrderStatus.DELIVERED; OrderStatus.CANCELLED]
  ↔ s ∉ [OrderStatus.PENDING; OrderStatus.ACCEPTED].
Proof.
  unfold not. rewrite !elem_of_cons, !elem_of_nil.
  destruct s; intuition discriminate.
Qed.

(** C3, as the code has it: for an order that exists, [cancel_order] fails
    with the 400 "cannot be cancelled" error exactly when the status is
    in_transit, delivered or cancelled; otherwise it sets the status to
    cancelled, appends exactly one [cancelled] log row whose notes are the
    reason, and releases every cylinder of the order's cylinder set.  Every
    cylinder whose [current_order_id] is the order is released provided each
    of them is in that set. *)
Theorem cancel_order_releases_order_set (st : Store) (order_id user_id : Z)
    (reason : string) (o : Order.t) :
  orders st !! order_id = Some o →
  let r := OrderService.cancel_order order_id user_id reason st in
  (Order.status o ∈ [OrderStatus.IN_TRANSIT; OrderStatus.DELIVERED;
                     OrderStatus.CANCELLED]
   ↔ fst r = Raise (HTTPException 400 "Order cannot be cancelled"))
  ∧ (Order.status o ∈ [OrderStatus.PENDING; OrderStatus.ACCEPTED] →
     (∃ o', fst r = Ok o' ∧ orders (snd r) !! order_id = Some o'
            ∧ Order.status o' = OrderStatus.CANCELLED)
     ∧ order_logs (snd r)
       = order_logs st
         ++ [cancelled_entry order_id (Order.status o) user_id reason]
     ∧ (∀ id c, cylinders st !! id = Some c → id ∈ Order.cylinders o →
          ∃ c', cylinders (snd r) !! id = Some c' ∧ released c')
     ∧ (links_in_order_set st order_id o →
        ∀ id c, cylinders st !! id = Some c →
          Cylinder.current_order_id c = Some order_id →
          ∃ c', cylinders (snd r) !! id = Some c' ∧ released c')).
Proof.
  intros Eo r.
  pose proof (cancel_order_run st order_id user_id reason) as H.
  cbv zeta in H. fold r in H. rewrite Eo in H.
  pose proof (status_cancellable (Order.status o)) as Hsc.
  destruct (decide (Order.status o ∉ [OrderStatus.PENDING; OrderStatus.ACCEPTED]))
    as [Hs|Hs].
  - destruct H as [Hr Hdb]. split.
    + split; [done | intros _; by apply Hsc].
    + intros Hin. done.
  - destruct H as (Hr & Hc & _ & Ho & Hlog). split.
    + split; [intros Hin; by apply Hsc in Hin | rewrite Hr; discriminate].
    + intros _.
      assert (Hrel : ∀ id c, cylinders st !! id = Some c →
                id ∈ Order.cylinders o →
                ∃ c', cylinders (snd r) !! id = Some c' ∧ released c').
      { intros id c Hid Hin. exists (OrderService.unassign c).
        rewrite Hc, unassign_all_lookup, decide_True, Hid by done.
        done. }
      split; [|split; [done|split; [done|]]].
      * exists (OrderService.cancelled o).
        rewrite Ho, lookup_insert_eq. done.
      * intros Hlinks id c Hid Hcur. eapply Hrel; [done|]. by eapply Hlinks.
Qed.

(** Where the two representations agree, every cylinder linked to an order
    is in the order's cylinder set. *)
Lemma agreement_links_in_order_set (st : Store) (order_id : Z) (o : Order.t) :
  assignment_agrees st → orders st !! order_id = Some o →
  links_in_order_set st order_id o.
Proof.
  intros Hagree Eo id c Hid Hcur.
  destruct (proj1 (Hagree id order_id)) as (o' & Eo' & Hin); [eauto|].
  congruence.
Qed.


(** Cancelling the accepted order 1. *)
Example cancel_order_scenario :
  (Order.status <$> orders Demo.st2 !! 1) = Some OrderStatus.CANCELLED
  ∧ (Cylinder.is_assigned <$> cylinders Demo.st2 !! 10) = Some (Some false)
  ∧ (Cylinder.current_order_id <$> cylinders Demo.st2 !! 11) = Some None
  ∧ (Cylinder.is_assigned <$> cylinders Demo.st2 !! 12) = Some (Some false)
  ∧ order_logs Demo.st2
    = [vendor_assigned_entry 1 7 1000 [10; 11; 12];
       cancelled_entry 1 OrderStatus.ACCEPTED 3 "hospital changed mind"].
Proof. repeat split; vm_compute; reflexivity. Qed.

(** The statement of C3 about every cylinder linked to the order fails: a
    cylinder linked to order 1 through [CylinderService.update] is not in the
    order's cylinder set, and stays linked and assigned when the order is
    cancelled. *)
Lemma cancel_order_leaves_linked_cylinder :
  let r := OrderService.cancel_order 1 3 "hospital changed mind" DemoCancel.st in
  is_ok (fst r) = true
  ∧ ¬ (∀ id c, cylinders DemoCancel.st !! id = Some c →
         Cylinder.current_order_id c = Some 1 →
         ∃ c', cylinders (snd r) !! id = Some c' ∧ released c').
Proof.
  split; [vm_compute; reflexivity|].
  intros H.
  destruct (H 13 (Cylinder.mk "S-13" CylinderStatus.FILLED 8 None (Some true)
                    (Some 1))) as (c' & Hc' & _ & Hcur).
  - vm_compute. reflexivity.
  - reflexivity.
  - vm_compute in Hc'. injection Hc' as <-. discriminate.
Qed.

(** *** C8 and C9: status updates of cylinders *)

Lemma update_status_bulk_step_run (st : Store) (new_status : CylinderStatus.t)
    (location : option Location.t) (notes : option string) (user_id : Z)
    (order_id : option Z) (cyl_id : Z) :
  let r := CylinderService.update_status_bulk_step new_status location notes
             user_id order_id cyl_id st in
  match cylinders st !! cyl_id with
  | None => fst r = Ok [] ∧ db (snd r) = db st
  | Some c =>
      let c' := CylinderService.status_updated new_status location c in
      fst r = Ok [(cyl_id, c')]
      ∧ cylinders (snd r) = <[cyl_id := c']> (cylinders st)
      ∧ cylinder_logs (snd r)
        = cylinder_logs st
          ++ [status_changed_entry cyl_id (Cylinder.status c) new_status
                order_id location notes user_id]
      ∧ orders (snd r) = orders st
      ∧ order_logs (snd r) = order_logs st
  end.
Proof.
  intros r. subst r.
  destruct (CylinderService.update_status_bulk_step _ _ _ _ _ _ st)
    as [r st'] eqn:E.
  unfold CylinderService.update_status_bulk_step in E.
  destruct (cylinder_get_spec cyl_id st) as [Hr Hdb].
  rewrite bind_run in E.
  destruct (CylinderService.get cyl_id st) as [r0 st0]. cbn in Hr, Hdb.
  subst r0. pose proof Hdb as Hdb'.
  apply db_eq in Hdb' as (Hc & Hcl & Ho & Hol).
  destruct (cylinders st !! cyl_id) as [c|] eqn:Ec;
    [|by injection E as <- <-].
  unfold CylinderService.create_log, CylinderService._cache_cylinder,
    RedisCache.set in E.
  repeat (rewrite bind_run in E; unfold modify at 1 in E).
  unfold mret, M_ret in E. cbn in E.
  injection E as <- <-. cbn.
  rewrite Hc, Hcl, Ho, Hol. done.
Qed.

Lemma status_updated_idem (s : CylinderStatus.t) (l : option Location.t)
    (c : Cylinder.t) :
  CylinderService.status_updated s l (CylinderService.status_updated s l c)
  = CylinderService.status_updated s l c.
Proof. unfold CylinderService.status_updated. cbn. by destruct l. Qed.

Lemma resolved_with_status_insert (st st' : Store) (ids : list Z)
    (s : CylinderStatus.t) (l : option Location.t) (id : Z) (c : Cylinder.t) :
  cylinders st !! id = Some c →
  cylinders st' = <[id := CylinderService.status_updated s l c]> (cylinders st) →
  resolved_with_status st' ids s l = resolved_with_status st ids s l.
Proof.
  intros Hc Hst'. unfold resolved_with_status.
  induction ids as [|k ids IH]; [done|]. cbn. rewrite IH. f_equal.
  rewrite Hst'. destruct (decide (id = k)) as [->|Hne].
  - rewrite lookup_insert_eq, Hc. cbn. by rewrite status_updated_idem.
  - by rewrite lookup_insert_ne.
Qed.

Lemma update_status_bulk_run (ids : list Z) (new_status : CylinderStatus.t)
    (location : option Location.t) (notes : option string) (user_id : Z)
    (order_id : option Z) (st : Store) :
  let r := CylinderService.update_status_bulk ids new_status location notes
             user_id order_id st in
  fst r = Ok (resolved_with_status st ids new_status location)
  ∧ (∀ id, cylinders (snd r) !! id
           = if decide (id ∈ ids)
             then CylinderService.status_updated new_status location
                    <$> cylinders st !! id
             else cylinders st !! id)
  ∧ orders (snd r) = orders st
  ∧ order_logs (snd r) = order_logs st.
Proof.
  revert st. induction ids as [|k ids IH]; intros st r; subst r.
  - cbn. split; [done|]. split; [|done]. intros id.
    rewrite decide_False; [done | apply not_elem_of_nil].
  - cbn [CylinderService.update_status_bulk]. rewrite bind_run.
    pose proof (update_status_bulk_step_run st new_status location notes
                  user_id order_id k) as Hstep. cbv zeta in Hstep.
    destruct (CylinderService.update_status_bulk_step _ _ _ _ _ k st)
      as [r1 st1]. cbn [fst snd] in Hstep.
    specialize (IH st1). cbv zeta in IH.
    destruct IH as (Hr2 & Hc2 & Ho2 & Hol2).
    assert (Hrun : ∀ a,
      ((CylinderService.update_status_bulk ids new_status location notes
          user_id order_id
        ≫= λ more, mret (a ++ more)) st1)
      = (Ok (a ++ resolved_with_status st1 ids new_status location),
         snd (CylinderService.update_status_bulk ids new_status location notes
                user_id order_id st1))).
    { intros a. rewrite bind_run.
      destruct (CylinderService.update_status_bulk ids _ _ _ _ _ st1)
        as [r2 st2]. cbn in Hr2. by subst r2. }
    destruct (cylinders st !! k) as [c|] eqn:Ek.
    + destruct Hstep as (-> & Hc1 & _ & Ho1 & Hol1). rewrite Hrun. cbn [fst snd].
      rewrite (resolved_with_status_insert st st1 ids _ _ k c) by done.
      unfold resolved_with_status at 2. cbn. rewrite Ek. cbn.
      repeat split; try congruence.
      intros id. rewrite Hc2, Hc1.
      destruct (decide (k = id)) as [->|Hne].
      * rewrite lookup_insert_eq, Ek, (decide_True (P := id ∈ id :: ids)) by left.
        cbn. rewrite status_updated_idem. by destruct (decide (id ∈ ids)).
      * rewrite lookup_insert_ne by done.
        destruct (decide (id ∈ ids)) as [Hl|Hl].
        -- rewrite decide_True; [done | by right].
        -- rewrite decide_False; [done|].
           intros [?|?]%elem_of_cons; congruence.
    + destruct Hstep as (-> & Hdb1). apply db_eq in Hdb1 as (Hc1 & _ & Ho1 & Hol1).
      rewrite Hrun. cbn [fst snd].
      unfold resolved_with_status at 2. cbn. rewrite Ek. cbn.
      assert (Hrw : resolved_with_status st1 ids new_status location
                    = resolved_with_status st ids new_status location)
        by (unfold resolved_with_status; by rewrite Hc1).
      rewrite Hrw. repeat split; try congruence.
      intros id. rewrite Hc2, Hc1.
      destruct (decide (k = id)) as [->|Hne].
      * rewrite Ek. cbn. by repeat case_decide.
      * destruct (decide (id ∈ ids)) as [Hl|Hl].
        -- rewrite decide_True; [done | by right].
        -- rewrite decide_False; [done|].
           intros [?|?]%elem_of_cons; congruence.
Qed.

Lemma update_run (st : Store) (cylinder_id : Z) (cylinder_in : CylinderUpdate.t)
    (user_id : Z) :
  let r := CylinderService.update cylinder_id cylinder_in user_id st in
  match cylinders st !! cylinder_id with
  | None =>
      fst r = Raise (HTTPException 404 "Cylinder not found")
      ∧ db (snd r) = db st
  | Some c =>
      match CylinderUpdate.status cylinder_in with
      | Some None =>
          fst r = Raise (IntegrityError "cylinders.status")
          ∧ db (snd r) = db st
      | _ =>
          let c' := CylinderService.apply_update cylinder_in c in
          fst r = Ok c'
          ∧ cylinders (snd r) = <[cylinder_id := c']> (cylinders st)
          ∧ cylinder_logs (snd r)
            = cylinder_logs st
              ++ update_entries cylinder_id cylinder_in c user_id
          ∧ orders (snd r) = orders st
          ∧ order_logs (snd r) = order_logs st
      end
  end.
Proof.
  intros r. subst r.
  destruct (CylinderService.update cylinder_id cylinder_in user_id st)
    as [r st'] eqn:E.
  unfold CylinderService.update in E.
  destruct (cylinder_get_spec cylinder_id st) as [Hr Hdb].
  rewrite bind_run in E.
  destruct (CylinderService.get cylinder_id st) as [r0 st0]. cbn in Hr, Hdb.
  subst r0. pose proof Hdb as Hdb'.
  apply db_eq in Hdb' as (Hc & Hcl & Ho & Hol).
  destruct (cylinders st !! cylinder_id) as [c|] eqn:Ec;
    [|by injection E as <- <-].
  unfold update_entries, CylinderService.status_of.
  unfold CylinderService.status_of in E.
  destruct (CylinderUpdate.status cylinder_in) as [[s|]|] eqn:Es.
  - rewrite bind_run in E. unfold modify at 1 in E.
    destruct (decide (s ≠ Cylinder.status c)) as [Hs|Hs].
    + unfold CylinderService.create_log, CylinderService._cache_cylinder,
        RedisCache.set in E.
      repeat (rewrite bind_run in E; unfold modify at 1 in E).
      unfold mret, M_ret in E. cbn in E.
      injection E as <- <-. cbn. rewrite Hc, Hcl, Ho, Hol. done.
    + unfold CylinderService._cache_cylinder, RedisCache.set in E.
      repeat (rewrite bind_run in E; unfold modify at 1 in E).
      unfold mret, M_ret in E. cbn in E.
      injection E as <- <-. cbn. rewrite Hc, Hcl, Ho, Hol, app_nil_r. done.
  - by injection E as <- <-.
  - unfold CylinderService._cache_cylinder, RedisCache.set in E.
    repeat (rewrite bind_run in E; unfold modify at 1 in E).
    unfold mret, M_ret in E. cbn in E.
    injection E as <- <-. cbn. rewrite Hc, Hcl, Ho, Hol, app_nil_r. done.
Qed.

(** A [get] that follows a successful [update] returns the updated row,
    whatever the cache holds. *)
Lemma get_after_update (st : Store) (id : Z) (cylinder_in : CylinderUpdate.t)
    (user_id : Z) (c' : Cylinder.t) :
  fst (CylinderService.update id cylinder_in user_id st) = Ok c' →
  fst (CylinderService.get id
         (snd (CylinderService.update id cylinder_in user_id st)))
  = Ok (Some c').
Proof.
  intros Hok. rewrite (proj1 (cylinder_get_spec _ _)).
  pose proof (update_run st id cylinder_in user_id) as H. cbv zeta in H.
  destruct (cylinders st !! id) as [c|].
  2:{ destruct H as [Hr _]. congruence. }
  destruct (CylinderUpdate.status cylinder_in) as [[s|]|].
  - destruct H as (Hr & Hc & _). rewrite Hc, lookup_insert_eq. congruence.
  - destruct H as [Hr _]. congruence.
  - destruct H as (Hr & Hc & _). rewrite Hc, lookup_insert_eq. congruence.
Qed.

(** [update] with only a status writes a [status_changed] row exactly when
    the status differs from the current one. *)
Lemma update_logs_iff_status_changes (st : Store) (cylinder_id user_id : Z)
    (new_status : CylinderStatus.t) (c : Cylinder.t) :
  cylinders st !! cylinder_id = Some c →
  let r := CylinderService.update cylinder_id (status_only new_status) user_id st in
  (new_status ≠ Cylinder.status c →
     cylinder_logs (snd r)
     = cylinder_logs st
       ++ [status_changed_entry cylinder_id (Cylinder.status c) new_status
             (Cylinder.current_order_id c) None None user_id])
  ∧ (new_status = Cylinder.status c → cylinder_logs (snd r) = cylinder_logs st).
Proof.
  intros Ec r.
  pose proof (update_run st cylinder_id (status_only new_status) user_id) as H.
  cbv zeta in H. fold r in H. rewrite Ec in H. cbn in H.
  destruct H as (_ & _ & Hl & _). rewrite Hl. unfold update_entries. cbn.
  split; intros Hs.
  - by rewrite decide_True.
  - rewrite decide_False by (intros Hn; by apply Hn). by rewrite app_nil_r.
Qed.

(** [update_status_bulk] writes a [status_changed] row for a resolving id
    whatever the current status is. *)
Lemma update_status_bulk_always_logs (st : Store) (cyl_id user_id : Z)
    (new_status : CylinderStatus.t) (location : option Location.t)
    (notes : option string) (order_id : option Z) (c : Cylinder.t) :
  cylinders st !! cyl_id = Some c →
  cylinder_logs
    (snd (CylinderService.update_status_bulk [cyl_id] new_status location
            notes user_id order_id st))
  = cylinder_logs st
    ++ [status_changed_entry cyl_id (Cylinder.status c) new_status order_id
          location notes user_id].
Proof.
  intros Ec. cbn [CylinderService.update_status_bulk]. rewrite bind_run.
  pose proof (update_status_bulk_step_run st new_status location notes
                user_id order_id cyl_id) as H. cbv zeta in H.
  rewrite Ec in H.
  destruct (CylinderService.update_status_bulk_step _ _ _ _ _ cyl_id st)
    as [r1 st1]. cbn [fst snd] in H.
  destruct H as (-> & _ & Hl & _). cbn. done.
Qed.

(** C8 fails on the bulk path: cylinder 10 is filled, and a bulk update of
    cylinder 10 to filled appends a [status_changed] row from filled to
    filled, where [update] with the same request appends none. *)
Theorem update_status_bulk_logs_unchanged_status :
  (∃ c, cylinders Demo.st0 !! 10 = Some c
        ∧ Cylinder.status c = CylinderStatus.FILLED)
  ∧ cylinder_logs
      (snd (CylinderService.update_status_bulk [10] CylinderStatus.FILLED
              None None 7 None Demo.st0))
    = cylinder_logs Demo.st0
      ++ [status_changed_entry 10 CylinderStatus.FILLED CylinderStatus.FILLED
            None None None 7]
  ∧ cylinder_logs
      (snd (CylinderService.update 10 (status_only CylinderStatus.FILLED) 7
              Demo.st0))
    = cylinder_logs Demo.st0.
Proof.
  split; [eexists; split; vm_compute; reflexivity|].
  split; vm_compute; reflexivity.
Qed.

(** C9: [update_status_bulk] never raises; it returns, in request order, the
    rows of exactly the ids that resolve, each with the new status and as it
    is stored afterwards; ids that do not resolve are skipped. *)
Theorem update_status_bulk_skips_unresolved (st : Store) (ids : list Z)
    (new_status : CylinderStatus.t) (location : option Location.t)
    (notes : option string) (user_id : Z) (order_id : option Z) :
  let r := CylinderService.update_status_bulk ids new_status location notes
             user_id order_id st in
  fst r = Ok (resolved_with_status st ids new_status location)
  ∧ (resolved_with_status st ids new_status location).*1
    = filter (λ id, is_Some (cylinders st !! id)) ids
  ∧ ∀ id c', (id, c') ∈ resolved_with_status st ids new_status location →
      Cylinder.status c' = new_status
      ∧ cylinders (snd r) !! id = Some c'.
Proof.
  intros r.
  destruct (update_status_bulk_run ids new_status location notes user_id
              order_id st) as (Hr & Hc & _). fold r in Hr, Hc.
  split; [done|]. split.
  - unfold resolved_with_status. clear.
    induction ids as [|k ids IH]; [done|]. cbn.
    destruct (cylinders st !! k) eqn:Ek; cbn.
    + rewrite decide_True by eauto. by rewrite IH.
    + rewrite decide_False by (by intros [? ?]). done.
  - intros id c' Hin. unfold resolved_with_status in Hin.
    apply list_elem_of_omap in Hin as (k & Hk & Hf).
    destruct (cylinders st !! k) as [c|] eqn:Ek; [|done].
    cbn in Hf. injection Hf as <- <-. split; [done|].
    rewrite Hc, decide_True, Ek by done. done.
Qed.

Lemma update_status_bulk_skips_unresolved_witness :
  ∃ c10 c11,
    fst (CylinderService.update_status_bulk [10; 99; 11]
           CylinderStatus.IN_TRANSIT None None 7 None Demo.st0)
    = Ok [(10, c10); (11, c11)]
    ∧ Cylinder.status c11 = CylinderStatus.IN_TRANSIT
    ∧ cylinders
        (snd (CylinderService.update_status_bulk [10; 99; 11]
                CylinderStatus.IN_TRANSIT None None 7 None Demo.st0)) !! 11
      = Some c11.
Proof.
  destruct (update_status_bulk_skips_unresolved Demo.st0 [10; 99; 11]
              CylinderStatus.IN_TRANSIT None None 7 None) as (Hr & _ & Hrows).
  do 2 eexists. split; [rewrite Hr; vm_compute; reflexivity|].
  apply Hrows. apply list_elem_of_In. vm_compute. tauto.
Defined.

(** *** C5: the delivery tracker's update *)

(** C5 fails on the code: [update_delivery_status] of the delivery tracker
    applies no update at all.  For every order that exists, whatever its
    status, building the list of allowed statuses raises [AttributeError],
    because [OrderStatus] has no member [OUT_FOR_DELIVERY]; the store is left
    as it was and no log row is written. *)
Theorem delivery_update_never_applies (st : Store) (order_id : Z)
    (update : DeliveryUpdate.t) (user_id : Z)
    (driver_info : option (list (string * string))) :
  DeliveryTrackingService.update_delivery_status order_id update user_id
    driver_info st
  = (match orders st !! order_id with
     | None => Raise (HTTPException 404 "Order not found")
     | Some _ => Raise (AttributeError "OUT_FOR_DELIVERY")
     end, st).
Proof.
  unfold DeliveryTrackingService.update_delivery_status.
  rewrite bind_run. unfold gets.
  destruct (orders st !! order_id) as [o|]; reflexivity.
Qed.

(** The same on the accepted order 1 of the demo store. *)
Example delivery_update_on_accepted_order :
  (∃ o, orders Demo.st1 !! 1 = Some o
        ∧ Order.status o = OrderStatus.ACCEPTED)
  ∧ fst (DeliveryTrackingService.update_delivery_status 1
           (DeliveryUpdate.mk None (Some "depot") "in_transit" None) 7 None
           Demo.st1)
    = Raise (AttributeError "OUT_FOR_DELIVERY").
Proof.
  split; [eexists; split; vm_compute; reflexivity|].
  vm_compute. reflexivity.
Qed.

(** The event type of the log row is not a member of [OrderEventType]
    either. *)
Example delivery_update_event_type_missing :
  OrderEventType.getattr "DELIVERY_UPDATE" = None
  ∧ OrderStatus.getattr "OUT_FOR_DELIVERY" = None.
Proof. split; reflexivity. Qed.

(** *** The order of floats *)

Lemma float_le_not_nan (a b : float) : float_le a b → a ≠ NaN ∧ b ≠ NaN.
Proof. destruct a, b; cbn; intros H; (split; [discriminate || done|discriminate || done]). Qed.

Lemma float_le_refl (a : float) : a ≠ NaN → float_le a a.
Proof. destruct a; cbn; intros H; [lra|done|done|done]. Qed.

Lemma float_le_trans (a b c : float) :
  float_le a b → float_le b c → float_le a c.
Proof. destruct a, b, c; cbn; try tauto. lra. Qed.

Lemma float_lt_irrefl (a : float) : ¬ float_lt a a.
Proof. destruct a; cbn; [lra|tauto..]. Qed.

Lemma float_lt_le (a b : float) : float_lt a b → float_le a b.
Proof. destruct a, b; cbn; try tauto. lra. Qed.

Lemma float_not_lt_le (a b : float) :
  a ≠ NaN → b ≠ NaN → ¬ float_lt b a → float_le a b.
Proof. destruct a, b; cbn; try tauto. lra. Qed.

(** *** The stable sort *)

Section sorted_by_key.
Context {A : Type} (key : A → float).

Local Abbreviation le := (key_le key).
Local Abbreviation numbers := (Forall (λ x : A, key x ≠ NaN)).

Lemma insert_by_perm (x : A) (l : list A) :
  utils.insert_by key x l ≡ₚ x :: l.
Proof.
  induction l as [|y l IH]; cbn; [done|].
  case_decide; [|done]. rewrite IH. apply perm_swap.
Qed.

Lemma sorted_perm (xs : list A) : utils.sorted xs key ≡ₚ xs.
Proof.
  unfold utils.sorted. induction xs as [|x xs IH]; cbn; [done|].
  by rewrite insert_by_perm, IH.
Qed.

Lemma insert_by_sorted (x : A) (l : list A) :
  key x ≠ NaN → numbers l →
  StronglySorted le l → StronglySorted le (utils.insert_by key x l).
Proof.
  intros Hx Hl Hs. induction Hs as [|y l Hs IH Hy]; cbn.
  - repeat constructor.
  - apply Forall_cons in Hl as [Hyn Hl].
    case_decide as Hyx.
    + constructor; [by apply IH|].
      rewrite insert_by_perm. constructor; [|done].
      by apply float_lt_le.
    + assert (Hxy : le x y) by (by apply float_not_lt_le).
      constructor; [by constructor|]. constructor; [done|].
      eapply Forall_impl; [exact Hy|]. intros z Hz.
      by eapply float_le_trans.
Qed.

Lemma sorted_sorted (xs : list A) :
  numbers xs → StronglySorted le (utils.sorted xs key).
Proof.
  unfold utils.sorted. induction 1 as [|x xs Hx Hxs IH]; cbn.
  - constructor.
  - apply insert_by_sorted; [done| |done].
    fold (utils.sorted xs key). by rewrite sorted_perm.
Qed.

Lemma insert_by_filter (d : float) (x : A) (l : list A) :
  filter (λ y, key y = d) (utils.insert_by key x l)
  = filter (λ y, key y = d) (x :: l).
Proof.
  induction l as [|y l IH]; cbn; [done|].
  case_decide as Hyx; [|done].
  rewrite (filter_cons _ y), IH, !filter_cons.
  destruct (decide (key y = d)) as [Hy|Hy]; [|done].
  destruct (decide (key x = d)) as [Hx|Hx]; [|done].
  exfalso. rewrite Hx, Hy in Hyx. by apply float_lt_irrefl in Hyx.
Qed.

Lemma sorted_stable (d : float) (xs : list A) :
  filter (λ y, key y = d) (utils.sorted xs key)
  = filter (λ y, key y = d) xs.
Proof.
  unfold utils.sorted. induction xs as [|x xs IH]; cbn; [done|].
  rewrite insert_by_filter, !filter_cons. by rewrite IH.
Qed.
End sorted_by_key.

(** *** C7: ranking within a radius *)

Lemma within_radius_numbers (A : Arith) (target : Location.t)
    (candidates : list (Z * Location.t)) (max_distance : float) :
  Forall (λ p, snd p ≠ NaN) (within_radius A target candidates max_distance).
Proof.
  unfold within_radius.
  induction candidates as [|[id loc] l IH]; cbn; [constructor|].
  destruct (utils.calculate_distance A target loc) as [d|e]; [|done].
  case_decide as Hd; [|done]. cbn. constructor; [|done].
  by apply float_le_not_nan in Hd as [? _].
Qed.

Lemma distances_run (A : Arith) (target : Location.t)
    (candidates : list (Z * Location.t)) (max_distance : float) :
  match utils.distances A target candidates max_distance with
  | Ok found =>
      Forall (computed A target) candidates
      ∧ found = within_radius A target candidates max_distance
  | Raise e =>
      ∃ before c after,
        candidates = before ++ c :: after
        ∧ Forall (computed A target) before
        ∧ utils.calculate_distance A target (snd c) = Raise e
  end.
Proof.
  induction candidates as [|[id loc] l IH]; cbn; [by split|].
  unfold within_radius, computed in *. cbn.
  destruct (utils.calculate_distance A target loc) as [d|e] eqn:Ed; cbn.
  2:{ exists [], (id, loc), l. by repeat split. }
  destruct (utils.distances A target l max_distance) as [found|e]; cbn.
  - destruct IH as [Hall ->]. split.
    + constructor; [cbn; by rewrite Ed|done].
    + by case_decide.
  - destruct IH as (before & c & after & -> & Hall & Hc).
    exists ((id, loc) :: before), c, after. split; [done|]. split; [|done].
    constructor; [cbn; by rewrite Ed|done].
Qed.

(** C7, as the code has it: [find_nearby_vendors] raises the error of the
    first candidate whose distance is not returned; when every distance is
    returned, the result holds exactly the candidates whose distance is at
    most [max_distance] (so none at distance [+infinity] or NaN), as (id,
    distance) pairs in ascending order of distance, pairs of equal distance
    in candidate order. *)
Theorem find_nearby_vendors_ranks (A : Arith) (target : Location.t)
    (candidates : list (Z * Location.t)) (max_distance : R) :
  match utils.find_nearby_vendors A target candidates (Finite max_distance) with
  | Ok result =>
      Forall (computed A target) candidates
      ∧ ranks A target candidates (Finite max_distance) result
      ∧ Forall (λ p, (∃ x, snd p = Finite x ∧ (x <= max_distance)%R)
                     ∨ snd p = NegInfinity) result
  | Raise e =>
      ∃ before c after,
        candidates = before ++ c :: after
        ∧ Forall (computed A target) before
        ∧ utils.calculate_distance A target (snd c) = Raise e
  end.
Proof.
  unfold utils.find_nearby_vendors.
  pose proof (distances_run A target candidates (Finite max_distance)) as H.
  destruct (utils.distances A target candidates (Finite max_distance))
    as [found|e]; cbn; [|done].
  destruct H as [Hall ->]. split; [done|].
  pose proof (within_radius_numbers A target candidates (Finite max_distance))
    as Hnum.
  split.
  - split; [apply sorted_perm|]. split.
    + by apply (sorted_sorted snd).
    + intros d. apply (sorted_stable snd).
  - rewrite sorted_perm. unfold within_radius.
    clear. induction candidates as [|[id loc] l IH]; cbn; [constructor|].
    destruct (utils.calculate_distance A target loc) as [d|e]; [|done].
    case_decide as Hd; [|done]. cbn. constructor; [|done].
    destruct d; cbn in Hd; try done; [left; eauto | by right].
Qed.

(** *** C6: the haversine distance *)


Lemma inf_times_pos (inf : float) (a : R) :
  (0 < a)%R → inf_times inf a = inf.
Proof.
  intros Ha. unfold inf_times.
  destruct (Req_EM_T a 0); [lra|]. by destruct (Rlt_dec 0 a).
Qed.

Lemma float_truediv_2 (A : Arith) (x : float) :
  float_truediv A x (Finite 2) = Ok (float_half A x).
Proof.
  unfold float_truediv. destruct (Req_EM_T 2 0); [lra|].
  destruct x; cbn; try done; by rewrite inf_times_pos by lra.
Qed.


Lemma calculate_distance_guard (A : Arith) (a b : Location.t) :
  coordinate_missing_or_zero a b →
  utils.calculate_distance A a b = Ok Infinity.
Proof.
  unfold coordinate_missing_or_zero, utils.calculate_distance.
  by intros ->.
Qed.

Lemma coordinate_missing (a b : Location.t) :
  Location.latitude a = None ∨ Location.longitude a = None
  ∨ Location.latitude b = None ∨ Location.longitude b = None →
  coordinate_missing_or_zero a b.
Proof.
  unfold coordinate_missing_or_zero, utils.all. cbn.
  intros [H|[H|[H|H]]]; rewrite H; cbn;
    rewrite ?andb_false_r; try reflexivity;
    repeat (destruct (utils.truth _); cbn; try reflexivity).
Qed.

Lemma radians_infinite (A : Arith) (v : option float) :
  v = Some Infinity ∨ v = Some NegInfinity →
  math.radians A (utils.num v) = Infinity
  ∨ math.radians A (utils.num v) = NegInfinity.
Proof. intros [->| ->]; cbn; [by left | by right]. Qed.

Lemma infinite_angle_raises (A : Arith) (lat1 lat2 : float)
    (K : float → float → float → Result float) :
  (lat1 = Infinity ∨ lat1 = NegInfinity)
  ∨ (lat2 = Infinity ∨ lat2 = NegInfinity) →
  (let* half_dlat := float_truediv A (float_sub A lat2 lat1) (Finite 2) in
   let* sin_dlat := math.sin A half_dlat in
   let* sin_dlat_2 := float_pow2 A sin_dlat in
   let* cos_lat1 := math.cos A lat1 in
   let* cos_lat2 := math.cos A lat2 in
   K sin_dlat_2 cos_lat1 cos_lat2)
  = Raise (ValueError "math domain error").
Proof.
  rewrite float_truediv_2. cbn [and_then].
  destruct lat1, lat2; cbn; intros [[H|H]|[H|H]];
    first [discriminate H | reflexivity].
Qed.

Lemma calculate_distance_infinite_latitude (A : Arith) (a b : Location.t) :
  ¬ coordinate_missing_or_zero a b → infinite_latitude a b →
  utils.calculate_distance A a b = Raise (ValueError "math domain error").
Proof.
  unfold coordinate_missing_or_zero, infinite_latitude,
    utils.calculate_distance.
  intros Hguard Hinf.
  destruct (utils.all _); [|done]. cbn [negb]. cbv zeta.
  apply (infinite_angle_raises A _ _ (λ p c1 c2, _)).
  destruct Hinf as [H|[H|[H|H]]].
  - left. apply radians_infinite. by left.
  - left. apply radians_infinite. by right.
  - right. apply radians_infinite. by left.
  - right. apply radians_infinite. by right.
Qed.

Section laws.
Context (A : Arith) (L : ArithLaws A).







Lemma calculate_distance_self (a : Location.t) :
  ordinary A a → utils.calculate_distance A a a = Ok (Finite 0).
Proof.
  intros (x & y & Hlat & Hx & Hlon & Hy & [l Hl] & [m Hm]).
  assert (Hsub : ∀ u v, float_sub A (Finite u) (Finite v) = round A (u - v))
    by reflexivity.
  assert (Hadd : ∀ u v, float_add A (Finite u) (Finite v) = round A (u + v))
    by reflexivity.
  assert (Hmul : ∀ u v, float_mul A (Finite u) (Finite v) = round A (u * v))
    by reflexivity.
  assert (Hsin0 : math.sin A (float_half A (Finite 0)) = Ok (Finite 0)).
  { unfold float_half. replace (0 / 2)%R with 0%R by lra.
    rewrite (round_0 A L). cbn. by rewrite (libm_sin_0 A L). }
  assert (Hpow0 : float_pow2 A (Finite 0) = Ok (Finite 0))
    by (cbn; by rewrite (libm_pow2_0 A L)).
  assert (Hsqrt0 : math.sqrt A (Finite 0) = Ok (Finite 0)).
  { cbn. destruct (Rlt_dec 0 0); [lra|]. by rewrite sqrt_0, (round_0 A L). }
  assert (Hsqrt1 : math.sqrt A (Finite 1) = Ok (Finite 1)).
  { cbn. destruct (Rlt_dec 1 0); [lra|]. by rewrite sqrt_1, (round_1 A L). }
  assert (Hatan : math.atan2 A (Finite 0) (Finite 1) = Finite 0)
    by (cbn; by rewrite (libm_atan2_0_1 A L)).
  assert (Hcos : ∃ c, float_mul A (Finite (libm_cos A l)) (Finite (libm_cos A l))
                      = Finite c).
  { apply (round_unit A L). rewrite Rabs_mult.
    pose proof (libm_cos_bound A L l) as Hb. pose proof (Rabs_pos (libm_cos A l)).
    nra. }
  destruct Hcos as [c Hc].
  unfold utils.calculate_distance. rewrite Hlat, Hlon.
  unfold utils.all. cbn [forallb utils.truth].
  destruct (Req_EM_T x 0); [done|]. destruct (Req_EM_T y 0); [done|].
  cbn [andb negb utils.num]. cbv zeta. rewrite Hl, Hm.
  rewrite !float_truediv_2. cbn [and_then].
  rewrite !Hsub, !Rminus_diag, (round_0 A L), Hsin0. cbn [and_then].
  rewrite Hpow0. cbn [and_then math.cos]. rewrite Hc, !Hmul, Rmult_0_r.
  rewrite (round_0 A L), Hadd, Rplus_0_l, (round_0 A L), Hsqrt0.
  cbn [and_then]. rewrite Hsub, Rminus_0_r, (round_1 A L), Hsqrt1.
  cbn [and_then]. rewrite Hatan, Hmul, Rmult_0_r, (round_0 A L).
  by rewrite Hmul, Rmult_0_r, (round_0 A L).
Qed.

End laws.

Lemma real_atan2_0_1 : real_atan2 0 1 = 0%R.
Proof.
  unfold real_atan2. destruct (Rlt_dec 0 1) as [_|H]; [|lra].
  replace (0 / 1)%R with 0%R by lra. apply atan_0.
Qed.

Lemma exact_laws : ArithLaws exact.
Proof.
  split; cbn; try done.
  - eauto.
  - apply sin_neg.
  - apply sin_0.
  - intros x. apply Rabs_le. pose proof (COS_bound x). lra.
  - intros x. f_equal. ring.
  - f_equal. ring.
  - apply real_atan2_0_1.
Qed.

Lemma exact_ordinary (lat lon : R) :
  lat ≠ 0%R → lon ≠ 0%R → ordinary exact (DemoGeo.point lat lon).
Proof. intros Hlat Hlon. exists lat, lon. cbn. eauto 10. Qed.




(** A point on the equator has both coordinates, yet its distance to itself
    is [+infinity]: the guard takes the latitude [0.0] for a missing one. *)
Lemma calculate_distance_equator :
  has_coordinates DemoGeo.equator
  ∧ ∀ A, utils.calculate_distance A DemoGeo.equator DemoGeo.equator
         = Ok Infinity.
Proof.
  split; [split; eexists; reflexivity|].
  intros A. apply calculate_distance_guard.
  unfold coordinate_missing_or_zero, utils.all. cbn.
  destruct (Req_EM_T 0 0) as [_|Hne]; [reflexivity | contradiction].
Qed.

(** A location whose coordinates are NaN passes the guard, and its distance
    to itself is NaN, which is not equal to 0 (nor to itself under [==]). *)
Lemma calculate_distance_nan :
  has_coordinates DemoGeo.unknown
  ∧ ∀ A, utils.calculate_distance A DemoGeo.unknown DemoGeo.unknown = Ok NaN.
Proof.
  split; [split; eexists; reflexivity|].
  intros A. unfold utils.calculate_distance. cbn [utils.all forallb DemoGeo.unknown
    Location.latitude Location.longitude utils.truth andb negb].
  cbv zeta. rewrite !float_truediv_2. reflexivity.
Qed.

(** The ranking property as worded fails, whatever the arithmetic: a
    candidate whose latitude is infinite makes [find_nearby_vendors] raise
    instead of returning a ranking. *)
Lemma find_nearby_vendors_raises :
  utils.find_nearby_vendors exact (DemoGeo.point 6 3)
    [(1, DemoGeo.point 6 3); (2, DemoGeo.beyond)] (Finite 50)
  = Raise (ValueError "math domain error")
  ∧ ¬ ∃ A, ranking_as_worded A.
Proof.
  assert (Hg : ¬ coordinate_missing_or_zero (DemoGeo.point 6 3) DemoGeo.beyond).
  { unfold coordinate_missing_or_zero, utils.all. cbn.
    repeat (destruct (Req_EM_T _ 0); [lra|]). discriminate. }
  assert (Hraise : ∀ A, utils.calculate_distance A (DemoGeo.point 6 3)
                          DemoGeo.beyond
                        = Raise (ValueError "math domain error")).
  { intros A. apply calculate_distance_infinite_latitude; [done|].
    right. right. left. reflexivity. }
  split.
  - unfold utils.find_nearby_vendors. cbn [utils.distances].
    rewrite (calculate_distance_self exact exact_laws)
      by (apply exact_ordinary; lra).
    cbn [and_then]. by rewrite Hraise.
  - intros [A H].
    destruct (H (DemoGeo.point 6 3) [(2, DemoGeo.beyond)] 50%R)
      as (result & Hr & _).
    unfold utils.find_nearby_vendors in Hr. cbn [utils.distances] in Hr.
    rewrite Hraise in Hr. discriminate Hr.
Qed.

(** The two vendors at the target are ranked in candidate order and the
    vendor without longitude is left out. *)
Example find_nearby_vendors_demo :
  utils.find_nearby_vendors exact (DemoGeo.point 6 3) DemoGeo.vendors
    (Finite 50)
  = Ok [(1, Finite 0); (3, Finite 0)].
Proof.
  unfold utils.find_nearby_vendors, DemoGeo.vendors. cbn [utils.distances].
  rewrite (calculate_distance_self exact exact_laws)
    by (apply exact_ordinary; lra).
  rewrite (calculate_distance_guard exact _ DemoGeo.half)
    by (apply coordinate_missing; right; right; right; reflexivity).
  cbn [and_then].
  rewrite decide_True by (cbn; lra). rewrite decide_False by (cbn; tauto).
  rewrite decide_True by (cbn; lra).
  cbn [and_then utils.sorted foldr utils.insert_by snd].
  rewrite decide_False by (cbn; lra). reflexivity.
Qed.

(** *** Narrowing the radius *)

Section narrowing.
Context {A : Type} (key : A → float) (d : float).

Local Abbreviation within := (λ y : A, float_le (key y) d).

Lemma filter_within_nil (y : A) (l : list A) :
  ¬ float_le (key y) d →
  Forall (key_le key y) l →
  filter within l = [].
Proof.
  intros Hy Hall. induction Hall as [|z l Hz _ IH]; [done|].
  rewrite filter_cons, decide_False; [done|].
  intros Hzd. apply Hy. by eapply float_le_trans.
Qed.

Lemma insert_by_within (x : A) (l : list A) :
  StronglySorted (key_le key) l →
  filter within (utils.insert_by key x l)
  = if decide (float_le (key x) d)
    then utils.insert_by key x (filter within l)
    else filter within l.
Proof.
  induction 1 as [|y l Hl IH Hy]; cbn [utils.insert_by].
  - rewrite filter_cons, filter_nil. by case_decide.
  - destruct (decide (float_lt (key y) (key x))) as [Hyx|Hyx].
    + rewrite (filter_cons _ y), IH, (filter_cons _ y).
      destruct (decide (float_le (key x) d)) as [Hxd|Hxd]; [|done].
      assert (Hyd : float_le (key y) d)
        by (eapply float_le_trans; [by apply float_lt_le|done]).
      destruct (decide (float_le (key y) d)); [|done].
      cbn [utils.insert_by]. by rewrite decide_True.
    + rewrite (filter_cons _ x), (filter_cons _ y).
      destruct (decide (float_le (key y) d)) as [Hyd|Hyd].
      * destruct (decide (float_le (key x) d)); [|done].
        cbn [utils.insert_by]. by rewrite decide_False.
      * rewrite (filter_within_nil y l Hyd Hy).
        by destruct (decide (float_le (key x) d)).
Qed.

Lemma sorted_within (xs : list A) :
  Forall (λ x, key x ≠ NaN) xs →
  filter within (utils.sorted xs key) = utils.sorted (filter within xs) key.
Proof.
  unfold utils.sorted. induction 1 as [|x xs Hx Hxs IH]; [done|].
  cbn [foldr]. rewrite insert_by_within by (by apply sorted_sorted).
  fold (utils.sorted xs key). unfold utils.sorted at 1. rewrite IH.
  rewrite filter_cons. by case_decide.
Qed.

Lemma within_prefix (l : list A) :
  StronglySorted (key_le key) l → filter within l `prefix_of` l.
Proof.
  induction 1 as [|y l Hl IH Hy]; [done|].
  rewrite filter_cons. case_decide as Hyd.
  - by apply prefix_cons.
  - rewrite (filter_within_nil y l Hyd Hy). apply prefix_nil.
Qed.
End narrowing.

Lemma within_radius_narrow (A : Arith) (target : Location.t)
    (candidates : list (Z * Location.t)) (r1 r2 : float) :
  float_le r1 r2 →
  within_radius A target candidates r1
  = filter (λ p, float_le (snd p) r1) (within_radius A target candidates r2).
Proof.
  intros Hr. unfold within_radius.
  induction candidates as [|[id loc] l IH]; [done|]. cbn -[filter].
  destruct (utils.calculate_distance A target loc) as [dist|e]; [|done].
  destruct (decide (float_le dist r1)) as [H1|H1].
  - rewrite decide_True by (by eapply float_le_trans).
    cbn -[filter]. rewrite filter_cons, decide_True by done. by rewrite IH.
  - case_decide; [|done].
    cbn -[filter]. rewrite filter_cons, decide_False by done. done.
Qed.

(** Narrowing the radius only cuts the tail of the ranking: for radii
    [r1 <= r2], when [find_nearby_vendors] returns a ranking for [r2], it
    returns for [r1] the entries of that ranking that lie within [r1], with
    the same distances and in the same order, and they are the first entries
    of that ranking; when it raises for [r2], it raises the same error for
    [r1]. *)
Theorem find_nearby_vendors_narrow (A : Arith) (target : Location.t)
    (candidates : list (Z * Location.t)) (r1 r2 : float) :
  float_le r1 r2 →
  match utils.find_nearby_vendors A target candidates r2 with
  | Ok wide =>
      utils.find_nearby_vendors A target candidates r1
      = Ok (filter (λ p, float_le (snd p) r1) wide)
      ∧ filter (λ p, float_le (snd p) r1) wide `prefix_of` wide
  | Raise e => utils.find_nearby_vendors A target candidates r1 = Raise e
  end.
Proof.
  intros Hr. unfold utils.find_nearby_vendors.
  pose proof (distances_run A target candidates r1) as H1.
  pose proof (distances_run A target candidates r2) as H2.
  pose proof (within_radius_numbers A target candidates r2) as Hnum.
  destruct (utils.distances A target candidates r2) as [found2|e2];
    destruct (utils.distances A target candidates r1) as [found1|e1]; cbn.
  - destruct H1 as [_ ->], H2 as [_ ->]. split.
    + by rewrite (sorted_within snd r1), <-within_radius_narrow.
    + by apply (within_prefix snd r1), sorted_sorted.
  - exfalso. destruct H2 as [Hall _].
    destruct H1 as (before & c & after & -> & _ & Hc).
    apply Forall_app in Hall as [_ Hall].
    apply Forall_cons in Hall as [Hok _].
    unfold computed in Hok. by rewrite Hc in Hok.
  - exfalso. destruct H1 as [Hall _].
    destruct H2 as (before & c & after & -> & _ & Hc).
    apply Forall_app in Hall as [_ Hall].
    apply Forall_cons in Hall as [Hok _].
    unfold computed in Hok. by rewrite Hc in Hok.
  - destruct H1 as (b1 & c1 & a1 & E1 & Hb1 & Hc1).
    destruct H2 as (b2 & c2 & a2 & E2 & Hb2 & Hc2).
    (* both name the first candidate whose distance is not returned *)
    assert (Hfirst : ∀ (b b' : list (Z * Location.t)) c c' a a' e e',
              b ++ c :: a = b' ++ c' :: a' →
              Forall (computed A target) b →
              Forall (computed A target) b' →
              utils.calculate_distance A target (snd c) = Raise e →
              utils.calculate_distance A target (snd c') = Raise e' →
              e = e').
    { clear. intros b. induction b as [|x b IH];
        intros [|x' b'] c c' a a' e e' Heq Hb Hb' Hc Hc'.
      - injection Heq as -> _. congruence.
      - injection Heq as -> _. apply Forall_cons in Hb' as [Hok _].
        unfold computed in Hok. by rewrite Hc in Hok.
      - injection Heq as <- _. apply Forall_cons in Hb as [Hok _].
        unfold computed in Hok. by rewrite Hc' in Hok.
      - injection Heq as -> Heq.
        apply Forall_cons in Hb as [_ Hb]. apply Forall_cons in Hb' as [_ Hb'].
        by eapply IH. }
    f_equal. subst candidates. by eapply Hfirst.
Qed.

Lemma find_nearby_vendors_narrow_witness :
  utils.find_nearby_vendors exact (DemoGeo.point 6 3) DemoGeo.vendors Infinity
  = Ok [(1, Finite 0); (3, Finite 0); (2, Infinity)]
  ∧ utils.find_nearby_vendors exact (DemoGeo.point 6 3) DemoGeo.vendors
      (Finite 10)
    = Ok [(1, Finite 0); (3, Finite 0)].
Proof.
  assert (Hwide : utils.find_nearby_vendors exact (DemoGeo.point 6 3)
                    DemoGeo.vendors Infinity
                  = Ok [(1, Finite 0); (3, Finite 0); (2, Infinity)]).
  { unfold utils.find_nearby_vendors, DemoGeo.vendors. cbn [utils.distances].
    rewrite (calculate_distance_self exact exact_laws)
      by (apply exact_ordinary; lra).
    rewrite (calculate_distance_guard exact _ DemoGeo.half)
      by (apply coordinate_missing; right; right; right; reflexivity).
    cbn [and_then]. rewrite !decide_True by (cbn; tauto).
    cbn [and_then utils.sorted foldr utils.insert_by snd].
    rewrite (decide_True (P := float_lt (Finite 0) Infinity)) by exact I.
    cbn [utils.insert_by snd].
    by rewrite (decide_False (P := float_lt (Finite 0) (Finite 0)))
      by (cbn; lra). }
  split; [exact Hwide|].
  pose proof (find_nearby_vendors_narrow exact (DemoGeo.point 6 3)
                DemoGeo.vendors (Finite 10) Infinity I) as H.
  rewrite Hwide in H. destruct H as [H _]. rewrite H. f_equal.
  rewrite !filter_cons, filter_nil.
  rewrite !decide_True by (cbn; lra). by rewrite decide_False by (cbn; tauto).
Defined.

(** *** C4: the invariants of the assignment *)

Lemma fresh_id_above {A} (m : gmap Z A) (k : Z) :
  is_Some (m !! k) → (k ≤ map_fold (λ k _ acc, Z.max k acc) 0 m)%Z.
Proof.
  revert k.
  apply (map_fold_weak_ind
           (λ (r : Z) (m : gmap Z A), ∀ k, is_Some (m !! k) → (k ≤ r)%Z)).
  - intros k [x Hx]. by rewrite lookup_empty in Hx.
  - intros i x m' r Hi IH k [y Hy].
    destruct (decide (i = k)) as [->|Hne]; [lia|].
    rewrite lookup_insert_ne in Hy by done.
    specialize (IH k (ex_intro _ y Hy)). lia.
Qed.

Lemma fresh_id_fresh {A} (m : gmap Z A) : m !! fresh_id m = None.
Proof.
  destruct (m !! fresh_id m) eqn:E; [|done].
  pose proof (fresh_id_above m (fresh_id m) (ex_intro _ _ E)) as H.
  unfold fresh_id in H. lia.
Qed.

Lemma cylinder_create_run (st : Store) (cylinder_in : CylinderCreate.t)
    (vendor_id : Z) :
  let r := CylinderService.create cylinder_in vendor_id st in
  db (snd r) = db st
  ∨ ∃ c, Cylinder.is_assigned c = Some false
         ∧ Cylinder.current_order_id c = None
         ∧ cylinders (snd r) = <[fresh_id (cylinders st) := c]> (cylinders st)
         ∧ orders (snd r) = orders st.
Proof.
  intros r. subst r. unfold CylinderService.create.
  rewrite bind_run. unfold CylinderService.get_by_serial_number, gets.
  destruct (head _) as [?|]; [by left|].
  right. eexists. rewrite bind_run.
  unfold CylinderService.create_log, CylinderService._cache_cylinder,
    RedisCache.set.
  repeat (rewrite bind_run; unfold modify at 1).
  cbn. repeat split; reflexivity.
Qed.

Lemma cylinder_delete_run (st : Store) (cylinder_id user_id : Z) :
  let r := CylinderService.delete cylinder_id user_id st in
  cylinders (snd r) = cylinders st
  ∧ orders (snd r) = orders st
  ∧ order_logs (snd r) = order_logs st
  ∧ match cylinders st !! cylinder_id with
    | None => r = (Ok false, st)
    | Some c =>
        fst r = Raise (IntegrityError "cylinder_logs.cylinder_id")
        ∧ cylinder_logs (snd r)
          = cylinder_logs st
            ++ [cylinder_deleted_entry cylinder_id (Cylinder.status c) user_id]
        ∧ cache (snd r)
          = filter (λ kv, String.prefix (CylinderService.CACHE_PREFIX +:+ ":list:")
                            (fst kv) = false)
              (base.delete (cylinder_key cylinder_id) (cache st))
    end.
Proof.
  intros r. subst r. unfold CylinderService.delete.
  rewrite bind_run, cylinder_get_run.
  destruct (cylinders st !! cylinder_id) as [c|] eqn:Ec; [|done].
  unfold CylinderService.create_log, CylinderService._invalidate_cylinder_cache,
    RedisCache.delete, RedisCache.invalidate_pattern.
  fold (cylinder_key cylinder_id).
  destruct (truthy _);
    unfold mbind, M_bind, modify, mret, M_ret, gets; cbn;
    rewrite filter_app, filter_cons, decide_True by done;
    (destruct (filter _ (cylinder_logs st)); cbn;
     repeat split; by rewrite ?delete_insert_eq).
Qed.

Lemma order_create_run (st : Store) (order_in : OrderCreate.t)
    (hospital_id : Z) :
  OrderService.create order_in hospital_id st
  = (Raise (IntegrityError "orders.total_amount"), st).
Proof. reflexivity. Qed.

Lemma order_update_delivery_status_run (st : Store) (order_id : Z)
    (update_data : OrderDeliveryUpdate.t) (user_id : Z) :
  let r := OrderService.update_delivery_status order_id update_data user_id st in
  cylinders (snd r) = cylinders st
  ∧ (orders (snd r) = orders st
     ∨ ∃ o, orders st !! order_id = Some o
            ∧ orders (snd r)
              = <[order_id := OrderService.delivery_updated update_data o]>
                  (orders st)).
Proof.
  intros r. subst r.
  destruct (OrderService.update_delivery_status order_id update_data user_id st)
    as [r st'] eqn:E.
  unfold OrderService.update_delivery_status in E.
  destruct (order_get_spec order_id st) as [Hr Hdb].
  rewrite bind_run in E.
  destruct (OrderService.get order_id st) as [r0 st0]. cbn in Hr, Hdb.
  subst r0. apply db_eq in Hdb as (Hc & Hcl & Ho & Hol).
  destruct (orders st !! order_id) as [o|] eqn:Eo.
  - unfold OrderService.create_log, OrderService._cache_order,
      RedisCache.set in E.
    repeat (rewrite bind_run in E; unfold modify at 1 in E).
    unfold mret, M_ret in E. cbn in E.
    injection E as <- <-. cbn. rewrite Hc, Ho. eauto.
  - injection E as <- <-. cbn. rewrite Hc, Ho. eauto.
Qed.

Lemma consistent_same_assignments (st st' : Store) :
  orders st' = orders st →
  same_assignments (cylinders st') (cylinders st) →
  consistent st → consistent st'.
Proof.
  intros Ho [H1 H2] [Hflag Hagree]. split.
  - intros id c' Hc'. destruct (H1 id c' Hc') as (c & Hc & Hia & Hcur).
    rewrite Hia, Hcur. by eapply Hflag.
  - unfold assignment_agrees in *. intros cid oid. rewrite Ho, <- Hagree. split.
    + intros (c' & Hc' & Hcur). destruct (H1 cid c' Hc') as (c & Hc & _ & Hcur').
      exists c. split; [done | congruence].
    + intros (c & Hc & Hcur). destruct (H2 cid c Hc) as (c' & Hc' & _ & Hcur').
      exists c'. split; [done | congruence].
Qed.

Lemma same_assignments_refl (m : gmap Z Cylinder.t) : same_assignments m m.
Proof. split; intros id c Hc; exists c; done. Qed.

Lemma consistent_same_tables (st st' : Store) :
  cylinders st' = cylinders st → orders st' = orders st →
  consistent st → consistent st'.
Proof.
  intros Hc Ho. apply consistent_same_assignments; [done|].
  rewrite Hc. apply same_assignments_refl.
Qed.

Lemma same_assignments_insert (m : gmap Z Cylinder.t) (id : Z)
    (c c' : Cylinder.t) :
  m !! id = Some c → same_assignment c' c →
  same_assignments (<[id := c']> m) m.
Proof.
  intros Hc Hs. split; intros k x Hk.
  - destruct (decide (id = k)) as [->|Hne].
    + rewrite lookup_insert_eq in Hk. injection Hk as <-. eauto.
    + rewrite lookup_insert_ne in Hk by done. exists x. done.
  - destruct (decide (id = k)) as [->|Hne].
    + rewrite lookup_insert_eq. exists c'. split; [done|]. congruence.
    + rewrite lookup_insert_ne by done. exists x. done.
Qed.

Lemma cylinder_create_consistent (st : Store) (cylinder_in : CylinderCreate.t)
    (vendor_id : Z) :
  consistent st →
  consistent (snd (CylinderService.create cylinder_in vendor_id st)).
Proof.
  intros Hcons.
  destruct (cylinder_create_run st cylinder_in vendor_id)
    as [Hdb|(c & Hia & Hcur & Hc & Ho)].
  { apply db_eq in Hdb as (? & _ & ? & _). by eapply consistent_same_tables. }
  destruct Hcons as [Hflag Hagree].
  pose proof (fresh_id_fresh (cylinders st)) as Hfresh.
  split.
  - intros id c' Hc'. rewrite Hc in Hc'.
    apply lookup_insert_Some in Hc' as [[_ <-]|[_ Hc']].
    + rewrite Hia, Hcur. split; [discriminate | by intros [? ?]].
    + by eapply Hflag.
  - unfold assignment_agrees in *. intros cid oid. rewrite Ho, <- Hagree, Hc. split.
    + intros (c' & Hc' & Hcur').
      apply lookup_insert_Some in Hc' as [[_ <-]|[_ Hc']]; [congruence|eauto].
    + intros (c' & Hc' & Hcur'). exists c'. split; [|done].
      rewrite lookup_insert_ne; [done|]. intros <-. congruence.
Qed.

Lemma cylinder_update_consistent (st : Store) (id : Z)
    (cylinder_in : CylinderUpdate.t) (user_id : Z) :
  keeps_assignment cylinder_in → consistent st →
  consistent (snd (CylinderService.update id cylinder_in user_id st)).
Proof.
  intros [Hia Hcur].
  pose proof (update_run st id cylinder_in user_id) as H. cbv zeta in H.
  destruct (cylinders st !! id) as [c|] eqn:Ec.
  2:{ destruct H as [_ Hdb]. apply db_eq in Hdb as (? & _ & ? & _).
      by apply consistent_same_tables. }
  assert (Hsame : same_assignment (CylinderService.apply_update cylinder_in c) c).
  { unfold same_assignment, CylinderService.apply_update. cbn.
    by rewrite Hia, Hcur. }
  destruct (CylinderUpdate.status cylinder_in) as [[s|]|].
  - destruct H as (_ & Hc & _ & Ho & _).
    apply consistent_same_assignments; [done|]. rewrite Hc.
    by eapply same_assignments_insert.
  - destruct H as [_ Hdb]. apply db_eq in Hdb as (? & _ & ? & _).
    by apply consistent_same_tables.
  - destruct H as (_ & Hc & _ & Ho & _).
    apply consistent_same_assignments; [done|]. rewrite Hc.
    by eapply same_assignments_insert.
Qed.

Lemma cylinder_bulk_consistent (st : Store) (ids : list Z)
    (new_status : CylinderStatus.t) (location : option Location.t)
    (notes : option string) (user_id : Z) (order_id : option Z) :
  consistent st →
  consistent (snd (CylinderService.update_status_bulk ids new_status location
                     notes user_id order_id st)).
Proof.
  destruct (update_status_bulk_run ids new_status location notes user_id
              order_id st) as (_ & Hc & Ho & _).
  apply consistent_same_assignments; [done|].
  split; intros id c Hid.
  - rewrite Hc in Hid. destruct (decide (id ∈ ids)); [|by exists c].
    destruct (cylinders st !! id) as [c0|]; [|done].
    cbn in Hid. injection Hid as <-. exists c0. done.
  - rewrite Hc, Hid. destruct (decide (id ∈ ids)); cbn; eexists; done.
Qed.

Lemma cylinder_delete_flag (st : Store) (id user_id : Z) :
  flag_invariant st →
  flag_invariant (snd (CylinderService.delete id user_id st)).
Proof.
  intros Hflag k c Hk.
  destruct (cylinder_delete_run st id user_id) as [Hc _].
  rewrite Hc in Hk. by eapply Hflag.
Qed.

Lemma cylinder_delete_consistent (st : Store) (id user_id : Z) :
  consistent st →
  consistent (snd (CylinderService.delete id user_id st)).
Proof.
  destruct (cylinder_delete_run st id user_id) as (Hc & Ho & _).
  by apply consistent_same_tables.
Qed.

Lemma order_create_consistent (st : Store) (order_in : OrderCreate.t)
    (hospital_id : Z) :
  consistent st →
  consistent (snd (OrderService.create order_in hospital_id st)).
Proof. by rewrite order_create_run. Qed.

Lemma order_update_delivery_status_consistent (st : Store) (order_id : Z)
    (update_data : OrderDeliveryUpdate.t) (user_id : Z) :
  consistent st →
  consistent (snd (OrderService.update_delivery_status order_id update_data
                     user_id st)).
Proof.
  intros [Hflag Hagree].
  destruct (order_update_delivery_status_run st order_id update_data user_id)
    as [Hc [Ho|(o & Eo & Ho)]].
  { by apply (consistent_same_tables st). }
  split.
  - intros id c Hid. rewrite Hc in Hid. by eapply Hflag.
  - unfold assignment_agrees in *. intros cid oid. rewrite Hc, Hagree, Ho. split.
    + intros (o' & Ho' & Hin). destruct (decide (order_id = oid)) as [->|Hne].
      * rewrite lookup_insert_eq. eexists. split; [done|].
        cbn. congruence.
      * rewrite lookup_insert_ne by done. eauto.
    + intros (o' & Ho' & Hin).
      apply lookup_insert_Some in Ho' as [[<- <-]|[_ Ho']]; eauto.
Qed.

Lemma cancel_order_flag (st : Store) (order_id user_id : Z) (reason : string) :
  flag_invariant st →
  flag_invariant (snd (OrderService.cancel_order order_id user_id reason st)).
Proof.
  intros Hflag.
  pose proof (cancel_order_run st order_id user_id reason) as H.
  cbv zeta in H.
  assert (Hsame : ∀ st', cylinders st' = cylinders st → flag_invariant st').
  { intros st' Hc id c Hid. rewrite Hc in Hid. by eapply Hflag. }
  destruct (orders st !! order_id) as [o|].
  2:{ destruct H as [_ Hdb]. apply db_eq in Hdb as (? & _). by apply Hsame. }
  case_decide.
  { destruct H as [_ Hdb]. apply db_eq in Hdb as (? & _). by apply Hsame. }
  destruct H as (_ & Hc & _).
  intros id c Hid. rewrite Hc, unassign_all_lookup in Hid.
  destruct (decide (id ∈ Order.cylinders o)); [|by eapply Hflag].
  destruct (cylinders st !! id) as [c0|]; [|done].
  cbn in Hid. injection Hid as <-. cbn.
  split; [discriminate | by intros [? ?]].
Qed.

Lemma accept_order_consistent (st : Store) (order_id vendor_id : Z)
    (expected_delivery : datetime) (ids : list Z) :
  consistent st →
  consistent (snd (OrderService.accept_order order_id vendor_id
                     expected_delivery ids st)).
Proof.
  intros Hcons.
  pose proof (accept_order_run st order_id vendor_id expected_delivery ids) as H.
  cbv zeta in H. set (sel := map_to_list _) in H.
  destruct (orders st !! order_id) as [o|] eqn:Eo.
  2:{ destruct H as [_ Hdb]. apply db_eq in Hdb as (? & _ & ? & _).
      by apply (consistent_same_tables st). }
  case_decide.
  { destruct H as [_ Hdb]. apply db_eq in Hdb as (? & _ & ? & _).
    by apply (consistent_same_tables st). }
  case_decide.
  { destruct H as [_ Hdb]. apply db_eq in Hdb as (? & _ & ? & _).
    by apply (consistent_same_tables st). }
  destruct H as (_ & Hc & _ & Ho & _).
  destruct Hcons as [Hflag Hagree].
  (* the selected rows are unassigned, so linked to no order and in no set *)
  assert (Hsel : ∀ id, id ∈ sel.*1 →
            ∃ c, cylinders st !! id = Some c
                 ∧ Cylinder.current_order_id c = None).
  { intros id Hid. apply list_elem_of_fmap in Hid as ([k c] & -> & Hin).
    apply elem_of_map_to_list, map_lookup_filter_Some in Hin
      as [Hk (_ & _ & _ & Hia)]. cbn in *.
    exists c. split; [done|].
    destruct (Cylinder.current_order_id c) as [oid|] eqn:Hcur; [|done].
    assert (Cylinder.is_assigned c = Some true)
      by (apply (Hflag k c Hk); rewrite Hcur; eauto).
    congruence. }
  assert (Horders : ∀ oid,
            orders (snd (OrderService.accept_order order_id vendor_id
                           expected_delivery ids st)) !! oid
            = if decide (oid = order_id)
              then Some (append_ids sel.*1
                           (OrderService.accepted vendor_id expected_delivery o))
              else orders st !! oid).
  { intros oid. rewrite Ho. case_decide as Hoid.
    - subst oid. by rewrite append_all_lookup, lookup_alter_eq, Eo.
    - by rewrite append_all_lookup_ne, lookup_alter_ne. }
  split.
  - intros id c' Hid. rewrite Hc, assign_all_lookup in Hid.
    destruct (decide (id ∈ sel.*1)); [|by eapply Hflag].
    destruct (cylinders st !! id) as [c|]; [|done].
    cbn in Hid. injection Hid as <-. cbn. split; eauto.
  - unfold assignment_agrees in *. intros cid oid.
    rewrite Hc, assign_all_lookup, Horders.
    destruct (decide (cid ∈ sel.*1)) as [Hin|Hnin].
    + destruct (Hsel cid Hin) as (c & Hk & Hcur). rewrite Hk. cbn.
      assert (Hnone : ∀ oid', ¬ ∃ o', orders st !! oid' = Some o'
                                      ∧ cid ∈ Order.cylinders o').
      { intros oid' Hex. apply Hagree in Hex as (c0 & Hk0 & Hcur0). congruence. }
      case_decide as Hoid.
      * subst oid. split.
        -- intros _. eexists. split; [done|]. cbn.
           apply elem_of_app. by right.
        -- intros _. eexists. split; [done|]. done.
      * split.
        -- intros (c' & [= <-] & Hcur'). cbn in Hcur'. congruence.
        -- intros Hex. by apply Hnone in Hex.
    + rewrite Hagree. case_decide as Hoid; [|done].
      subst oid. rewrite Eo. split.
      * intros (o' & [= <-] & Hin'). eexists. split; [done|]. cbn.
        apply elem_of_app. by left.
      * intros (o' & [= <-] & Hin'). exists o. split; [done|].
        cbn in Hin'. apply elem_of_app in Hin' as [?|?]; done.
Qed.

Lemma flag_same_assignments (st st' : Store) :
  same_assignments (cylinders st') (cylinders st) →
  flag_invariant st → flag_invariant st'.
Proof.
  intros [H1 _] Hflag id c' Hc'.
  destruct (H1 id c' Hc') as (c & Hc & Hia & Hcur).
  rewrite Hia, Hcur. by eapply Hflag.
Qed.

Lemma flag_same_cylinders (st st' : Store) :
  cylinders st' = cylinders st → flag_invariant st → flag_invariant st'.
Proof. intros Hc Hflag id c Hid. rewrite Hc in Hid. by eapply Hflag. Qed.

Lemma cylinder_create_flag (st : Store) (cylinder_in : CylinderCreate.t)
    (vendor_id : Z) :
  flag_invariant st →
  flag_invariant (snd (CylinderService.create cylinder_in vendor_id st)).
Proof.
  intros Hflag.
  destruct (cylinder_create_run st cylinder_in vendor_id)
    as [Hdb|(c & Hia & Hcur & Hc & Ho)].
  { apply db_eq in Hdb as (? & _). by eapply flag_same_cylinders. }
  intros id c' Hc'. rewrite Hc in Hc'.
  apply lookup_insert_Some in Hc' as [[_ <-]|[_ Hc']].
  - rewrite Hia, Hcur. split; [discriminate | by intros [? ?]].
  - by eapply Hflag.
Qed.

Lemma cylinder_update_flag (st : Store) (id : Z)
    (cylinder_in : CylinderUpdate.t) (user_id : Z) :
  keeps_assignment cylinder_in → flag_invariant st →
  flag_invariant (snd (CylinderService.update id cylinder_in user_id st)).
Proof.
  intros [Hia Hcur].
  pose proof (update_run st id cylinder_in user_id) as H. cbv zeta in H.
  destruct (cylinders st !! id) as [c|] eqn:Ec.
  2:{ destruct H as [_ Hdb]. apply db_eq in Hdb as (? & _).
      by apply flag_same_cylinders. }
  assert (Hsame : same_assignment (CylinderService.apply_update cylinder_in c) c).
  { unfold same_assignment, CylinderService.apply_update. cbn.
    by rewrite Hia, Hcur. }
  destruct (CylinderUpdate.status cylinder_in) as [[s|]|].
  - destruct H as (_ & Hc & _).
    apply flag_same_assignments. rewrite Hc.
    by eapply same_assignments_insert.
  - destruct H as [_ Hdb]. apply db_eq in Hdb as (? & _).
    by apply flag_same_cylinders.
  - destruct H as (_ & Hc & _).
    apply flag_same_assignments. rewrite Hc.
    by eapply same_assignments_insert.
Qed.

Lemma cylinder_bulk_flag (st : Store) (ids : list Z)
    (new_status : CylinderStatus.t) (location : option Location.t)
    (notes : option string) (user_id : Z) (order_id : option Z) :
  flag_invariant st →
  flag_invariant (snd (CylinderService.update_status_bulk ids new_status location
                         notes user_id order_id st)).
Proof.
  destruct (update_status_bulk_run ids new_status location notes user_id
              order_id st) as (_ & Hc & _).
  apply flag_same_assignments.
  split; intros id c Hid.
  - rewrite Hc in Hid. destruct (decide (id ∈ ids)); [|by exists c].
    destruct (cylinders st !! id) as [c0|]; [|done].
    cbn in Hid. injection Hid as <-. exists c0. done.
  - rewrite Hc, Hid. destruct (decide (id ∈ ids)); cbn; eexists; done.
Qed.

Lemma accept_order_flag (st : Store) (order_id vendor_id : Z)
    (expected_delivery : datetime) (ids : list Z) :
  flag_invariant st →
  flag_invariant (snd (OrderService.accept_order order_id vendor_id
                         expected_delivery ids st)).
Proof.
  intros Hflag.
  pose proof (accept_order_run st order_id vendor_id expected_delivery ids) as H.
  cbv zeta in H. set (sel := map_to_list _) in H.
  destruct (orders st !! order_id) as [o|].
  2:{ destruct H as [_ Hdb]. apply db_eq in Hdb as (? & _).
      by apply (flag_same_cylinders st). }
  case_decide.
  { destruct H as [_ Hdb]. apply db_eq in Hdb as (? & _).
    by apply (flag_same_cylinders st). }
  case_decide.
  { destruct H as [_ Hdb]. apply db_eq in Hdb as (? & _).
    by apply (flag_same_cylinders st). }
  destruct H as (_ & Hc & _).
  intros id c' Hid. rewrite Hc, assign_all_lookup in Hid.
  destruct (decide (id ∈ sel.*1)); [|by eapply Hflag].
  destruct (cylinders st !! id) as [c|]; [|done].
  cbn in Hid. injection Hid as <-. cbn. split; eauto.
Qed.

(** C4, as the code has it.  The flag invariant alone is kept by every
    mutating operation, cancel included, with one proviso: a cylinder update
    must leave [is_assigned] and [current_order_id] out.  When the two
    representations of the assignment agree as well, the agreement is kept by
    every operation but cancel, under the same proviso.  (Cylinder delete and
    order create keep both because they never change a cylinder or an order
    row: the first raises after writing its log row, the second raises
    before writing anything.) *)
Theorem operations_preserve_invariants (st : Store) :
  (flag_invariant st →
     (∀ cylinder_in vendor_id,
        flag_invariant (snd (CylinderService.create cylinder_in vendor_id st)))
     ∧ (∀ id cylinder_in user_id, keeps_assignment cylinder_in →
          flag_invariant
            (snd (CylinderService.update id cylinder_in user_id st)))
     ∧ (∀ ids new_status location notes user_id order_id,
          flag_invariant
            (snd (CylinderService.update_status_bulk ids new_status location
                    notes user_id order_id st)))
     ∧ (∀ id user_id,
          flag_invariant (snd (CylinderService.delete id user_id st)))
     ∧ (∀ order_in hospital_id,
          flag_invariant (snd (OrderService.create order_in hospital_id st)))
     ∧ (∀ order_id vendor_id expected_delivery ids,
          flag_invariant
            (snd (OrderService.accept_order order_id vendor_id
                    expected_delivery ids st)))
     ∧ (∀ order_id update_data user_id,
          flag_invariant
            (snd (OrderService.update_delivery_status order_id update_data
                    user_id st)))
     ∧ (∀ order_id user_id reason,
          flag_invariant
            (snd (OrderService.cancel_order order_id user_id reason st))))
  ∧ (consistent st →
     (∀ cylinder_in vendor_id,
        consistent (snd (CylinderService.create cylinder_in vendor_id st)))
     ∧ (∀ id cylinder_in user_id, keeps_assignment cylinder_in →
          consistent (snd (CylinderService.update id cylinder_in user_id st)))
     ∧ (∀ ids new_status location notes user_id order_id,
          consistent
            (snd (CylinderService.update_status_bulk ids new_status location
                    notes user_id order_id st)))
     ∧ (∀ id user_id,
          consistent (snd (CylinderService.delete id user_id st)))
     ∧ (∀ order_in hospital_id,
          consistent (snd (OrderService.create order_in hospital_id st)))
     ∧ (∀ order_id vendor_id expected_delivery ids,
          consistent
            (snd (OrderService.accept_order order_id vendor_id
                    expected_delivery ids st)))
     ∧ (∀ order_id update_data user_id,
          consistent
            (snd (OrderService.update_delivery_status order_id update_data
                    user_id st)))).
Proof.
  split.
  - intros Hflag.
    split; [intros; by apply cylinder_create_flag|].
    split; [intros; by apply cylinder_update_flag|].
    split; [intros; by apply cylinder_bulk_flag|].
    split; [intros; by apply cylinder_delete_flag|].
    split; [intros; by rewrite order_create_run|].
    split; [intros; by apply accept_order_flag|].
    split; [|intros; by apply cancel_order_flag].
    intros oid ud u.
    destruct (order_update_delivery_status_run st oid ud u) as [Hc _].
    by apply (flag_same_cylinders st).
  - intros Hcons.
    split; [intros; by apply cylinder_create_consistent|].
    split; [intros; by apply cylinder_update_consistent|].
    split; [intros; by apply cylinder_bulk_consistent|].
    split; [intros; by apply cylinder_delete_consistent|].
    split; [intros; by apply order_create_consistent|].
    split; [intros; by apply accept_order_consistent|].
    intros; by apply order_update_delivery_status_consistent.
Qed.

Lemma demo_consistent : consistent Demo.st0.
Proof.
  split.
  - intros id c H. unfold Demo.st0 in H. cbn in H.
    repeat (apply lookup_insert_Some in H as [[<- <-]|[? H]]);
      try (by rewrite lookup_empty in H);
      cbn; (split; [discriminate | by intros [? ?]]).
  - intros cid oid. split.
    + intros (c & H & Hcur). exfalso. unfold Demo.st0 in H. cbn in H.
      repeat (apply lookup_insert_Some in H as [[<- <-]|[? H]]);
        try (by rewrite lookup_empty in H); discriminate.
    + intros (o & H & Hin). exfalso. unfold Demo.st0 in H. cbn in H.
      apply lookup_insert_Some in H as [[<- <-]|[? H]];
        [by apply elem_of_nil in Hin | by rewrite lookup_empty in H].
Qed.

Lemma operations_preserve_invariants_witness :
  consistent Demo.st1
  ∧ consistent (snd (CylinderService.update 10
                       (status_only CylinderStatus.IN_TRANSIT) 7 Demo.st0))
  ∧ flag_invariant Demo.st2
  ∧ flag_invariant
      (snd (OrderService.update_delivery_status 1 (reopen 0 0) 7 Demo.st2)).
Proof.
  destruct (proj2 (operations_preserve_invariants Demo.st0) demo_consistent)
    as (_ & Hupd & _ & _ & _ & Hacc & _).
  split; [apply Hacc|]. split; [apply Hupd; split; reflexivity|].
  assert (Hst2 : flag_invariant Demo.st2).
  { refine (proj2 (proj2 (proj2 (proj2 (proj2 (proj2 (proj2
              (proj1 (operations_preserve_invariants Demo.st1) _)))))))
              1 3 "hospital changed mind").
    exact (proj1 (Hacc 1 7 1000 [10; 11; 12])). }
  split; [exact Hst2|].
  exact (proj1 (proj2 (proj2 (proj2 (proj2 (proj2 (proj2
           (proj1 (operations_preserve_invariants Demo.st2) Hst2)))))))
           1 (reopen 0 0) 7).
Defined.

(** Cancelling the accepted order of the demo store, where the two
    representations agree, releases its cylinders. *)
Lemma cancel_order_releases_order_set_witness :
  (∃ c', cylinders Demo.st2 !! 11 = Some c' ∧ released c')
  ∧ (∃ c', cylinders Demo.st2 !! 12 = Some c' ∧ released c').
Proof.
  assert (E : ∃ o, orders Demo.st1 !! 1 = Some o
               ∧ Order.status o ∈ [OrderStatus.PENDING; OrderStatus.ACCEPTED]
               ∧ 11 ∈ Order.cylinders o).
  { eexists. split; [vm_compute; reflexivity|].
    split; apply list_elem_of_In; vm_compute; tauto. }
  destruct E as (o & Eo & Hs & Hin).
  destruct (cancel_order_releases_order_set Demo.st1 1 3
              "hospital changed mind" o Eo) as [_ Hok].
  destruct (Hok Hs) as (_ & _ & Hrel & Hlinked).
  split.
  - assert (Ec : ∃ c, cylinders Demo.st1 !! 11 = Some c)
      by (eexists; vm_compute; reflexivity).
    destruct Ec as [c Ec]. exact (Hrel 11 c Ec Hin).
  - assert (Ec : ∃ c, cylinders Demo.st1 !! 12 = Some c
                      ∧ Cylinder.current_order_id c = Some 1)
      by (eexists; split; vm_compute; reflexivity).
    destruct Ec as (c & Ec & Hcur).
    refine (Hlinked _ 12 c Ec Hcur).
    apply agreement_links_in_order_set; [|exact Eo].
    apply accept_order_consistent, demo_consistent.
Defined.

(** The invariant property as worded fails: on the consistent demo store,
    [update] with a request that sets only [is_assigned] leaves cylinder 13
    assigned and linked to no order. *)
Lemma every_operation_preserves_fails :
  consistent Demo.st0
  ∧ ¬ flag_invariant
        (snd (CylinderService.update 13 DemoUpdate.flag_only 8 Demo.st0))
  ∧ ¬ every_operation_preserves.
Proof.
  assert (Hbad : ¬ flag_invariant
                     (snd (CylinderService.update 13 DemoUpdate.flag_only 8
                             Demo.st0))).
  { intros Hflag.
    destruct (proj1 (Hflag 13 (Cylinder.mk "S-13" CylinderStatus.FILLED 8 None
                                 (Some true) None)
                       ltac:(vm_compute; reflexivity)) eq_refl) as [oid Hoid].
    discriminate Hoid. }
  split; [apply demo_consistent|]. split; [done|].
  intros H.
  destruct (H Demo.st0 demo_consistent) as (_ & Hupd & _).
  by destruct (Hupd 13 DemoUpdate.flag_only 8) as [Hflag _].
Qed.

(** After the accepted order 1 is cancelled its cylinder set still holds
    cylinder 10, which is linked to no order any more. *)
Lemma cancel_order_leaves_order_set :
  consistent Demo.st1
  ∧ ¬ assignment_agrees
        (snd (OrderService.cancel_order 1 3 "hospital changed mind" Demo.st1)).
Proof.
  split; [apply accept_order_consistent, demo_consistent|].
  intros H. destruct (proj2 (H 10 1)) as (c & Hc & Hcur).
  - eexists. split; [vm_compute; reflexivity|].
    apply list_elem_of_In. vm_compute. tauto.
  - vm_compute in Hc. injection Hc as <-. discriminate.
Qed.

(* ===================================================================== *)
(** * Further properties of the registry                                   *)
(* ===================================================================== *)

Lemma head_filter_None {A} (P : A → Prop) `{∀ x, Decision (P x)} (l : list A) :
  head (filter P l) = None ↔ ∀ x, x ∈ l → ¬ P x.
Proof.
  induction l as [|y l IH].
  - split; [intros _ x Hx; by apply elem_of_nil in Hx | done].
  - rewrite filter_cons. destruct (decide (P y)) as [Hy|Hy]; cbn [head].
    + split; [done|]. intros Hall. exfalso. apply (Hall y); [left | done].
    + rewrite IH. split.
      * intros Hall x [->|Hx]%elem_of_cons; auto.
      * intros Hall x Hx. apply Hall. by right.
Qed.

Lemma get_by_serial_number_None (st : Store) (serial : string) :
  fst (CylinderService.get_by_serial_number serial st) = Ok None
  ↔ ¬ serial_registered st serial.
Proof.
  unfold CylinderService.get_by_serial_number, gets. cbn.
  split.
  - intros [= Hhead] (id & c & Hc & Hs).
    apply (proj1 (head_filter_None _ _) Hhead (id, c)); [|done].
    by apply elem_of_map_to_list.
  - intros Hno. f_equal. apply head_filter_None. intros [id c] Hin Hs.
    apply elem_of_map_to_list in Hin. apply Hno. by exists id, c.
Qed.

Lemma cylinder_create_spec (st : Store) (cylinder_in : CylinderCreate.t)
    (vendor_id : Z) :
  let r := CylinderService.create cylinder_in vendor_id st in
  let id := fresh_id (cylinders st) in
  let row := created_cylinder cylinder_in vendor_id in
  (serial_registered st (CylinderCreate.serial_number cylinder_in) →
     r = (Raise (HTTPException 400 "Serial number already registered"), st))
  ∧ (¬ serial_registered st (CylinderCreate.serial_number cylinder_in) →
     r = (Ok (id, row),
          mkStore (<[id := row]> (cylinders st))
            (cylinder_logs st ++ [cylinder_created_entry id cylinder_in vendor_id])
            (orders st) (order_logs st)
            (<[RedisCache._generate_key [CylinderService.CACHE_PREFIX; str id]
               := CylinderJson id row]> (cache st)))).
Proof.
  intros r id row. subst r.
  pose proof (get_by_serial_number_None st
                (CylinderCreate.serial_number cylinder_in)) as Hnone.
  unfold CylinderService.create. rewrite bind_run.
  destruct (CylinderService.get_by_serial_number _ st) as [r0 st0] eqn:E.
  assert (Hst0 : st0 = st ∧ ∃ x, r0 = Ok x).
  { unfold CylinderService.get_by_serial_number, gets in E.
    injection E as <- <-. eauto. }
  destruct Hst0 as [-> [x ->]]. cbn in Hnone.
  split.
  - intros Hreg. destruct x as [?|]; [done|].
    exfalso. by apply (proj1 Hnone).
  - intros Hno. destruct x as [?|].
    + apply Hnone in Hno. discriminate.
    + rewrite bind_run. unfold gets at 1.
      unfold CylinderService.create_log, CylinderService._cache_cylinder,
        RedisCache.set.
      repeat (rewrite bind_run; unfold modify at 1).
      reflexivity.
Qed.

(** [create] refuses a serial number that some row already carries: it
    raises the 400 error and the store, cache included, is left as it was. *)
Theorem create_duplicate_serial_refused (st : Store)
    (cylinder_in : CylinderCreate.t) (vendor_id : Z) :
  serial_registered st (CylinderCreate.serial_number cylinder_in) →
  CylinderService.create cylinder_in vendor_id st
  = (Raise (HTTPException 400 "Serial number already registered"), st).
Proof. apply cylinder_create_spec. Qed.

Lemma create_duplicate_serial_refused_witness :
  CylinderService.create
    (CylinderCreate.mk "S-10" None CylinderStatus.EMPTY) 8 Demo.st0
  = (Raise (HTTPException 400 "Serial number already registered"), Demo.st0).
Proof.
  apply (create_duplicate_serial_refused Demo.st0
           (CylinderCreate.mk "S-10" None CylinderStatus.EMPTY) 8).
  exists 10, (Demo.filled 7 "S-10"). split; reflexivity.
Defined.

(** [create] with a serial number that no row carries stores the new row
    under an id that was not in use, unassigned and owned by the caller,
    appends one [created] log row and leaves the other tables alone; a [get]
    of the new id returns the row, and the serial number is registered from
    then on, so that a second [create] with it is refused. *)
Theorem create_registers_cylinder (st : Store)
    (cylinder_in : CylinderCreate.t) (vendor_id : Z) :
  ¬ serial_registered st (CylinderCreate.serial_number cylinder_in) →
  let r := CylinderService.create cylinder_in vendor_id st in
  let id := fresh_id (cylinders st) in
  let row := created_cylinder cylinder_in vendor_id in
  fst r = Ok (id, row)
  ∧ cylinders st !! id = None
  ∧ cylinders (snd r) = <[id := row]> (cylinders st)
  ∧ cylinder_logs (snd r)
    = cylinder_logs st ++ [cylinder_created_entry id cylinder_in vendor_id]
  ∧ orders (snd r) = orders st
  ∧ order_logs (snd r) = order_logs st
  ∧ fst (CylinderService.get id (snd r)) = Ok (Some row)
  ∧ ∀ again vendor_id',
      CylinderCreate.serial_number again
      = CylinderCreate.serial_number cylinder_in →
      fst (CylinderService.create again vendor_id' (snd r))
      = Raise (HTTPException 400 "Serial number already registered").
Proof.
  intros Hno r id row.
  pose proof (proj2 (cylinder_create_spec st cylinder_in vendor_id) Hno) as E.
  cbv zeta in E. fold r id row in E. rewrite E. cbn [fst snd cylinders
    cylinder_logs orders order_logs].
  split; [done|]. split; [apply fresh_id_fresh|].
  do 4 (split; [done|]). split.
  - rewrite (proj1 (cylinder_get_spec _ _)). cbn. by rewrite lookup_insert_eq.
  - intros again v' Hs.
    rewrite (proj1 (cylinder_create_spec _ again v')); [done|].
    exists id, row. cbn. rewrite lookup_insert_eq. by rewrite Hs.
Qed.

Lemma create_registers_cylinder_witness :
  fst (CylinderService.create
         (CylinderCreate.mk "S-99" None CylinderStatus.FILLED) 7 Demo.st0)
  = Ok (14, Demo.filled 7 "S-99").
Proof.
  refine (proj1 (create_registers_cylinder Demo.st0
                   (CylinderCreate.mk "S-99" None CylinderStatus.FILLED) 7 _)).
  apply get_by_serial_number_None. vm_compute. reflexivity.
Defined.

(** *** Serial numbers stay unique *)

Lemma serials_unique_keep (m m' : gmap Z Cylinder.t) :
  (∀ id c', m' !! id = Some c' →
     ∃ c, m !! id = Some c
          ∧ Cylinder.serial_number c' = Cylinder.serial_number c) →
  serials_unique m → serials_unique m'.
Proof.
  intros Hkeep Hu i j c d Hi Hj Hs.
  destruct (Hkeep i c Hi) as (c0 & Hi0 & Hsc).
  destruct (Hkeep j d Hj) as (d0 & Hj0 & Hsd).
  apply (Hu i j c0 d0); congruence.
Qed.

Lemma serials_unique_create (st : Store) (cylinder_in : CylinderCreate.t)
    (vendor_id : Z) :
  serials_unique (cylinders st) →
  serials_unique (cylinders (snd (CylinderService.create cylinder_in vendor_id st))).
Proof.
  intros Hu.
  destruct (cylinder_create_spec st cylinder_in vendor_id) as [Hdup Hnew].
  cbv zeta in *.
  destruct (get_by_serial_number_None st
              (CylinderCreate.serial_number cylinder_in)) as [_ Hnone].
  destruct (CylinderService.get_by_serial_number
              (CylinderCreate.serial_number cylinder_in) st) as [r0 st0] eqn:E.
  unfold CylinderService.get_by_serial_number, gets in E.
  injection E as <- <-. cbn in Hnone.
  destruct (head _) as [[k x]|] eqn:Ehead.
  - rewrite Hdup; [done|].
    apply head_Some_elem_of, list_elem_of_filter in Ehead as [Hs Hin].
    apply elem_of_map_to_list in Hin. by exists k, x.
  - assert (Hno : ¬ serial_registered st (CylinderCreate.serial_number cylinder_in)).
    { intros (k & x & Hk & Hs).
      apply (proj1 (head_filter_None _ _) Ehead (k, x)); [|done].
      by apply elem_of_map_to_list. }
    rewrite (Hnew Hno). cbn [snd cylinders].
    pose proof (fresh_id_fresh (cylinders st)) as Hfresh.
    intros i j c d Hi Hj Hs.
    apply lookup_insert_Some in Hi as [[<- <-]|[Hni Hi]];
      apply lookup_insert_Some in Hj as [[<- <-]|[Hnj Hj]]; try done.
    + exfalso. apply Hno. exists j, d. by rewrite <- Hs.
    + exfalso. apply Hno. exists i, c. by rewrite Hs.
    + by eapply Hu.
Qed.

(** If serial numbers are unique in the cylinder table they stay unique
    under every operation that writes cylinders: [create] with any request,
    [update], the bulk status update, [delete], [accept_order] and
    [cancel_order]. *)
Theorem operations_keep_serials_unique (st : Store) :
  serials_unique (cylinders st) →
  (∀ cylinder_in vendor_id,
     serials_unique
       (cylinders (snd (CylinderService.create cylinder_in vendor_id st))))
  ∧ (∀ id cylinder_in user_id,
       serials_unique
         (cylinders (snd (CylinderService.update id cylinder_in user_id st))))
  ∧ (∀ ids new_status location notes user_id order_id,
       serials_unique
         (cylinders (snd (CylinderService.update_status_bulk ids new_status
                            location notes user_id order_id st))))
  ∧ (∀ id user_id,
       serials_unique (cylinders (snd (CylinderService.delete id user_id st))))
  ∧ (∀ order_id vendor_id expected_delivery ids,
       serials_unique
         (cylinders (snd (OrderService.accept_order order_id vendor_id
                            expected_delivery ids st))))
  ∧ (∀ order_id user_id reason,
       serials_unique
         (cylinders (snd (OrderService.cancel_order order_id user_id reason st)))).
Proof.
  intros Hu.
  assert (Hsame : ∀ st', db st' = db st → serials_unique (cylinders st')).
  { intros st' Hdb. apply db_eq in Hdb as (-> & _). done. }
  split; [intros; by apply serials_unique_create|].
  split.
  { intros id cin u.
    pose proof (update_run st id cin u) as H. cbv zeta in H.
    destruct (cylinders st !! id) as [c|] eqn:Ec; [|by apply Hsame, (proj2 H)].
    assert (Hins : serials_unique
                     (<[id := CylinderService.apply_update cin c]> (cylinders st))).
    { eapply serials_unique_keep; [|exact Hu]. intros k c' Hk.
      apply lookup_insert_Some in Hk as [[<- <-]|[_ Hk]]; eauto. }
    destruct (CylinderUpdate.status cin) as [[s|]|].
    - destruct H as (_ & -> & _). done.
    - by apply Hsame, (proj2 H).
    - destruct H as (_ & -> & _). done. }
  split.
  { intros ids s l n u o.
    destruct (update_status_bulk_run ids s l n u o st) as (_ & Hc & _).
    eapply serials_unique_keep; [|exact Hu]. intros k c' Hk.
    rewrite Hc in Hk. destruct (decide (k ∈ ids)); [|eauto].
    destruct (cylinders st !! k) as [c|]; [|done].
    cbn in Hk. injection Hk as <-. eauto. }
  split.
  { intros id u. destruct (cylinder_delete_run st id u) as [Hc _].
    by rewrite Hc. }
  split.
  { intros oid v ed ids.
    pose proof (accept_order_run st oid v ed ids) as H. cbv zeta in H.
    destruct (orders st !! oid) as [o|]; [|by apply Hsame, (proj2 H)].
    case_decide; [by apply Hsame, (proj2 H)|]. case_decide; [by apply Hsame, (proj2 H)|].
    destruct H as (_ & Hc & _).
    eapply serials_unique_keep; [|exact Hu]. intros k c' Hk.
    rewrite Hc, assign_all_lookup in Hk. case_decide; [|eauto].
    destruct (cylinders st !! k) as [c|]; [|done].
    cbn in Hk. injection Hk as <-. eauto. }
  intros oid u reason.
  pose proof (cancel_order_run st oid u reason) as H. cbv zeta in H.
  destruct (orders st !! oid) as [o|]; [|by apply Hsame, (proj2 H)].
  case_decide; [by apply Hsame, (proj2 H)|].
  destruct H as (_ & Hc & _).
  eapply serials_unique_keep; [|exact Hu]. intros k c' Hk.
  rewrite Hc, unassign_all_lookup in Hk. case_decide; [|eauto].
  destruct (cylinders st !! k) as [c|]; [|done].
  cbn in Hk. injection Hk as <-. eauto.
Qed.

Lemma demo_serials_unique : serials_unique (cylinders Demo.st0).
Proof.
  intros i j c d Hi Hj Hs. unfold Demo.st0 in Hi, Hj. cbn in Hi, Hj.
  repeat (apply lookup_insert_Some in Hi as [[<- <-]|[? Hi]]);
    try (by rewrite lookup_empty in Hi);
    repeat (apply lookup_insert_Some in Hj as [[<- <-]|[? Hj]]);
    try (by rewrite lookup_empty in Hj);
    first [reflexivity | discriminate Hs].
Qed.

Lemma operations_keep_serials_unique_witness :
  serials_unique (cylinders Demo.st1)
  ∧ serials_unique
      (cylinders (snd (CylinderService.create
                         (CylinderCreate.mk "S-99" None CylinderStatus.FILLED)
                         7 Demo.st0))).
Proof.
  destruct (operations_keep_serials_unique Demo.st0 demo_serials_unique)
    as (Hcreate & _ & _ & _ & Haccept & _).
  split; [apply Haccept | apply Hcreate].
Defined.

(** *** Deleting a cylinder *)

Lemma cylinder_get_missing (st : Store) (id : Z) :
  cylinders st !! id = None → CylinderService.get id st = (Ok None, st).
Proof.
  intros Hid. unfold CylinderService.get, CylinderService.select_by_id.
  rewrite bind_run. unfold RedisCache.get, gets. cbn.
  destruct (truthy _); [by rewrite Hid|].
  rewrite bind_run. by rewrite Hid.
Qed.

(** [delete] of an id that does not resolve returns [False] and changes
    nothing, neither a table nor the cache. *)
Theorem delete_missing_cylinder (st : Store) (cylinder_id user_id : Z) :
  cylinders st !! cylinder_id = None →
  CylinderService.delete cylinder_id user_id st = (Ok false, st).
Proof.
  intros Ec.
  destruct (cylinder_delete_run st cylinder_id user_id) as (_ & _ & _ & H).
  by rewrite Ec in H.
Qed.

Lemma delete_missing_cylinder_witness :
  CylinderService.delete 99 8 Demo.st0 = (Ok false, Demo.st0).
Proof. apply (delete_missing_cylinder Demo.st0 99 8). reflexivity. Defined.

(** [delete] of a cylinder that exists does not delete it.  The deletion
    log row is committed and the cache entry of the cylinder dropped first;
    the deletion itself then fails on the log rows that name the cylinder
    (the one just written among them), whose [cylinder_id] cannot be null:
    the call raises, the cylinder row stays as it was, and so do the orders
    and their log. *)
Theorem delete_existing_cylinder_raises (st : Store)
    (cylinder_id user_id : Z) (c : Cylinder.t) :
  cylinders st !! cylinder_id = Some c →
  let r := CylinderService.delete cylinder_id user_id st in
  fst r = Raise (IntegrityError "cylinder_logs.cylinder_id")
  ∧ cylinders (snd r) = cylinders st
  ∧ cylinder_logs (snd r)
    = cylinder_logs st
      ++ [cylinder_deleted_entry cylinder_id (Cylinder.status c) user_id]
  ∧ orders (snd r) = orders st
  ∧ order_logs (snd r) = order_logs st
  ∧ cache (snd r) !! cylinder_key cylinder_id = None.
Proof.
  intros Ec r.
  destruct (cylinder_delete_run st cylinder_id user_id)
    as (Hc & Ho & Hol & H).
  rewrite Ec in H. destruct H as (Hr & Hl & Hca).
  fold r in Hc, Ho, Hol, Hr, Hl, Hca.
  repeat split; try done.
  rewrite Hca. apply map_lookup_filter_None. left.
  apply lookup_delete_eq.
Qed.

Lemma delete_existing_cylinder_raises_witness :
  cylinders Demo.cached !! 13 = Some (Demo.filled 8 "S-13")
  ∧ fst (CylinderService.delete 13 8 Demo.cached)
    = Raise (IntegrityError "cylinder_logs.cylinder_id")
  ∧ cylinders (snd (CylinderService.delete 13 8 Demo.cached))
    = cylinders Demo.cached.
Proof.
  assert (Ec : cylinders Demo.cached !! 13 = Some (Demo.filled 8 "S-13"))
    by (vm_compute; reflexivity).
  split; [exact Ec|].
  destruct (delete_existing_cylinder_raises Demo.cached 13 8 _ Ec)
    as (Hr & Hc & _).
  by split.
Defined.

(** *** Ids that do not resolve *)

Lemma order_get_missing (st : Store) (id : Z) :
  orders st !! id = None → OrderService.get id st = (Ok None, st).
Proof.
  intros Hid. unfold OrderService.get, OrderService.select_by_id.
  rewrite bind_run. unfold RedisCache.get, gets. cbn.
  destruct (truthy _); [by rewrite Hid|].
  rewrite bind_run. by rewrite Hid.
Qed.

(** An id that does not resolve makes every single-entity write raise the
    404 error of its entity and change nothing, neither a table nor the
    cache: [update] of the registry, and [accept_order],
    [update_delivery_status] and [cancel_order] of the engine. *)
Theorem missing_id_raises_not_found (st : Store) (id : Z) :
  (cylinders st !! id = None →
     ∀ cylinder_in user_id,
       CylinderService.update id cylinder_in user_id st
       = (Raise (HTTPException 404 "Cylinder not found"), st))
  ∧ (orders st !! id = None →
     (∀ vendor_id expected_delivery ids,
        OrderService.accept_order id vendor_id expected_delivery ids st
        = (Raise (HTTPException 404 "Order not found"), st))
     ∧ (∀ update_data user_id,
          OrderService.update_delivery_status id update_data user_id st
          = (Raise (HTTPException 404 "Order not found"), st))
     ∧ (∀ user_id reason,
          OrderService.cancel_order id user_id reason st
          = (Raise (HTTPException 404 "Order not found"), st))).
Proof.
  split.
  - intros Hid cin u. unfold CylinderService.update.
    rewrite bind_run. by rewrite cylinder_get_missing.
  - intros Hid. repeat split; intros.
    + unfold OrderService.accept_order.
      rewrite bind_run. by rewrite order_get_missing.
    + unfold OrderService.update_delivery_status.
      rewrite bind_run. by rewrite order_get_missing.
    + unfold OrderService.cancel_order.
      rewrite bind_run. by rewrite order_get_missing.
Qed.

Lemma missing_id_raises_not_found_witness :
  CylinderService.update 99 (status_only CylinderStatus.EMPTY) 7 Demo.st0
  = (Raise (HTTPException 404 "Cylinder not found"), Demo.st0)
  ∧ OrderService.cancel_order 99 3 "no such order" Demo.st0
    = (Raise (HTTPException 404 "Order not found"), Demo.st0).
Proof.
  destruct (missing_id_raises_not_found Demo.st0 99) as [Hc Ho].
  split.
  - apply Hc. reflexivity.
  - apply (Ho eq_refl).
Defined.

(** *** What [update] writes *)

(** A successful [update] rewrites the addressed row and no other: the row
    keeps its serial number and its owner, every other cylinder and both
    order tables are as before, and a [get] of the id returns the new row. *)
Theorem update_rewrites_one_row (st : Store) (id : Z)
    (cylinder_in : CylinderUpdate.t) (user_id : Z) (c' : Cylinder.t) :
  let r := CylinderService.update id cylinder_in user_id st in
  fst r = Ok c' →
  (∃ c, cylinders st !! id = Some c
        ∧ c' = CylinderService.apply_update cylinder_in c
        ∧ Cylinder.serial_number c' = Cylinder.serial_number c
        ∧ Cylinder.vendor_id c' = Cylinder.vendor_id c)
  ∧ cylinders (snd r) !! id = Some c'
  ∧ (∀ k, k ≠ id → cylinders (snd r) !! k = cylinders st !! k)
  ∧ orders (snd r) = orders st
  ∧ order_logs (snd r) = order_logs st
  ∧ fst (CylinderService.get id (snd r)) = Ok (Some c').
Proof.
  intros r Hok.
  pose proof (update_run st id cylinder_in user_id) as H. cbv zeta in H.
  fold r in H.
  destruct (cylinders st !! id) as [c|] eqn:Ec.
  2:{ destruct H as [Hr _]. congruence. }
  assert (Hmain : fst r = Ok (CylinderService.apply_update cylinder_in c)
            ∧ cylinders (snd r)
              = <[id := CylinderService.apply_update cylinder_in c]> (cylinders st)
            ∧ orders (snd r) = orders st
            ∧ order_logs (snd r) = order_logs st).
  { destruct (CylinderUpdate.status cylinder_in) as [[s|]|].
    - destruct H as (? & ? & _ & ? & ?). done.
    - destruct H as [Hr _]. congruence.
    - destruct H as (? & ? & _ & ? & ?). done. }
  destruct Hmain as (Hr & Hc & Ho & Hol).
  assert (c' = CylinderService.apply_update cylinder_in c) as -> by congruence.
  split; [exists c; done|].
  split; [by rewrite Hc, lookup_insert_eq|].
  split; [intros k Hk; by rewrite Hc, lookup_insert_ne|].
  do 2 (split; [done|]).
  rewrite (proj1 (cylinder_get_spec _ _)), Hc, lookup_insert_eq. done.
Qed.

Lemma update_rewrites_one_row_witness :
  cylinders (snd (CylinderService.update 10
                    (status_only CylinderStatus.EMPTY) 7 Demo.st0)) !! 11
  = cylinders Demo.st0 !! 11.
Proof.
  assert (E : ∃ c', fst (CylinderService.update 10
                           (status_only CylinderStatus.EMPTY) 7 Demo.st0)
                    = Ok c')
    by (eexists; vm_compute; reflexivity).
  destruct E as [c' E].
  destruct (update_rewrites_one_row Demo.st0 10
              (status_only CylinderStatus.EMPTY) 7 c' E) as (_ & _ & Hk & _).
  apply Hk. discriminate.
Defined.

(** *** The bulk status update *)

Lemma bind_mret_run {A} (m : M A) (st : Store) : (m ≫= mret) st = m st.
Proof. rewrite bind_run. by destruct (m st) as [[a|e] st']. Qed.

(** A bulk update of a list of ids that is the concatenation of two lists is
    the bulk update of the first followed by the bulk update of the second:
    the same store results and the returned rows are concatenated. *)
Theorem update_status_bulk_app (ids1 ids2 : list Z)
    (new_status : CylinderStatus.t) (location : option Location.t)
    (notes : option string) (user_id : Z) (order_id : option Z) (st : Store) :
  CylinderService.update_status_bulk (ids1 ++ ids2) new_status location notes
    user_id order_id st
  = (r1 ← CylinderService.update_status_bulk ids1 new_status location notes
            user_id order_id;
     r2 ← CylinderService.update_status_bulk ids2 new_status location notes
            user_id order_id;
     mret (r1 ++ r2)) st.
Proof.
  revert st. induction ids1 as [|k ids1 IH]; intros st.
  - cbn [app CylinderService.update_status_bulk]. rewrite bind_run.
    unfold mret at 1, M_ret at 1. cbn [app]. by rewrite bind_mret_run.
  - cbn [app CylinderService.update_status_bulk]. rewrite !bind_run.
    destruct (CylinderService.update_status_bulk_step _ _ _ _ _ k st)
      as [[u|e] st1]; [|done].
    rewrite !bind_run, IH, !bind_run.
    destruct (CylinderService.update_status_bulk ids1 _ _ _ _ _ st1)
      as [[a|e] st2]; [|done].
    unfold mret, M_ret. rewrite !bind_run.
    destruct (CylinderService.update_status_bulk ids2 _ _ _ _ _ st2)
      as [[b|e] st3]; [|done].
    by rewrite app_assoc.
Qed.

Lemma update_status_bulk_logs (ids : list Z) (new_status : CylinderStatus.t)
    (location : option Location.t) (notes : option string) (user_id : Z)
    (order_id : option Z) (st : Store) :
  ∃ new,
    cylinder_logs
      (snd (CylinderService.update_status_bulk ids new_status location notes
              user_id order_id st))
    = cylinder_logs st ++ new
    ∧ length new = length (resolved_with_status st ids new_status location)
    ∧ Forall (λ log, CylinderLog.event_type log = CylinderEventType.STATUS_CHANGED
                     ∧ CylinderLog.new_status log = Some new_status
                     ∧ CylinderLog.cylinder_id log ∈ ids) new.
Proof.
  revert st. induction ids as [|k ids IH]; intros st.
  - exists []. cbn. by rewrite app_nil_r.
  - cbn [CylinderService.update_status_bulk]. rewrite bind_run.
    pose proof (update_status_bulk_step_run st new_status location notes
                  user_id order_id k) as Hstep. cbv zeta in Hstep.
    destruct (CylinderService.update_status_bulk_step _ _ _ _ _ k st)
      as [r1 st1]. cbn [fst snd] in Hstep.
    destruct (IH st1) as (new & Hl & Hlen & Hall).
    destruct (update_status_bulk_run ids new_status location notes user_id
                order_id st1) as (Hr2 & _).
    assert (Hall' : Forall (λ log,
               CylinderLog.event_type log = CylinderEventType.STATUS_CHANGED
               ∧ CylinderLog.new_status log = Some new_status
               ∧ CylinderLog.cylinder_id log ∈ k :: ids) new).
    { eapply Forall_impl; [exact Hall|]. intros log (? & ? & ?).
      repeat split; try done. by right. }
    destruct (cylinders st !! k) as [c|] eqn:Ek.
    + destruct Hstep as (-> & Hc1 & Hl1 & _). rewrite bind_run.
      destruct (CylinderService.update_status_bulk ids _ _ _ _ _ st1)
        as [r2 st2]. cbn [fst snd] in *. subst r2.
      unfold mret, M_ret. cbn [snd].
      eexists (_ :: new). rewrite Hl, Hl1, <- app_assoc. split; [done|].
      split.
      * unfold resolved_with_status at 1. cbn. rewrite Ek. cbn.
        rewrite Hlen. f_equal.
        by rewrite (resolved_with_status_insert st st1 ids _ _ k c).
      * constructor; [|done]. cbn. repeat split; try done. by left.
    + destruct Hstep as (-> & Hdb1).
      apply db_eq in Hdb1 as (Hc1 & Hl1 & _). rewrite bind_run.
      destruct (CylinderService.update_status_bulk ids _ _ _ _ _ st1)
        as [r2 st2]. cbn [fst snd] in *. subst r2.
      unfold mret, M_ret. cbn [snd].
      exists new. rewrite Hl, Hl1. split; [done|]. split; [|done].
      unfold resolved_with_status at 1. cbn. rewrite Ek. cbn.
      rewrite Hlen. unfold resolved_with_status. by rewrite Hc1.
Qed.

(** The bulk update appends one [status_changed] log row per returned row,
    each for a requested id and towards the new status, and nothing else;
    when no requested id resolves it returns the empty list and leaves the
    tables as they were. *)
Theorem update_status_bulk_logs_per_row (ids : list Z)
    (new_status : CylinderStatus.t) (location : option Location.t)
    (notes : option string) (user_id : Z) (order_id : option Z) (st : Store) :
  let r := CylinderService.update_status_bulk ids new_status location notes
             user_id order_id st in
  (∃ rows new,
     fst r = Ok rows
     ∧ cylinder_logs (snd r) = cylinder_logs st ++ new
     ∧ length new = length rows
     ∧ Forall (λ log,
                 CylinderLog.event_type log = CylinderEventType.STATUS_CHANGED
                 ∧ CylinderLog.new_status log = Some new_status
                 ∧ CylinderLog.cylinder_id log ∈ ids) new)
  ∧ ((∀ id, id ∈ ids → cylinders st !! id = None) →
     fst r = Ok [] ∧ db (snd r) = db st).
Proof.
  intros r.
  destruct (update_status_bulk_run ids new_status location notes user_id
              order_id st) as (Hr & Hc & Ho & Hol). fold r in Hr, Hc, Ho, Hol.
  destruct (update_status_bulk_logs ids new_status location notes user_id
              order_id st) as (new & Hl & Hlen & Hall). fold r in Hl.
  split; [by exists (resolved_with_status st ids new_status location), new|].
  intros Hnone.
  assert (Hres : resolved_with_status st ids new_status location = []).
  { unfold resolved_with_status. clear -Hnone.
    induction ids as [|k ids IH]; [done|]. cbn.
    rewrite (Hnone k) by left. cbn. apply IH. intros id Hid.
    apply Hnone. by right. }
  rewrite Hres in *. split; [done|].
  destruct new; [|done]. rewrite app_nil_r in Hl.
  unfold db. rewrite Hl, Ho, Hol. f_equal. f_equal. f_equal.
  apply map_eq. intros id. rewrite Hc. case_decide; [|done].
  by rewrite Hnone.
Qed.

Lemma update_status_bulk_logs_per_row_witness :
  fst (CylinderService.update_status_bulk [98; 99] CylinderStatus.EMPTY None
         None 7 None Demo.st0) = Ok []
  ∧ db (snd (CylinderService.update_status_bulk [98; 99] CylinderStatus.EMPTY
               None None 7 None Demo.st0)) = db Demo.st0.
Proof.
  apply (update_status_bulk_logs_per_row [98; 99] CylinderStatus.EMPTY None
           None 7 None Demo.st0).
  intros id Hid. apply list_elem_of_In in Hid.
  destruct Hid as [<-|[<-|[]]]; reflexivity.
Defined.

(** *** Listing cylinders *)

(** [list] returns at most [limit] rows, each a stored row that meets every
    filter that was given (a vendor id of [0] counts as not given), no row
    twice, and it changes nothing; from offset 0 with a limit that is at
    least the size of the table it returns every stored row that meets the
    filters. *)
Theorem list_returns_matching_rows (st : Store) (vendor_id : option Z)
    (status : option CylinderStatus.t) (is_assigned : option bool)
    (skip limit : nat) :
  ∃ rows,
    CylinderService.list vendor_id status is_assigned skip limit st
    = (Ok rows, st)
    ∧ (length rows ≤ limit)%nat
    ∧ NoDup rows.*1
    ∧ (∀ id c, (id, c) ∈ rows →
         cylinders st !! id = Some c
         ∧ CylinderService.list_filter vendor_id status is_assigned (id, c))
    ∧ (skip = 0%nat → (size (cylinders st) ≤ limit)%nat →
       ∀ id c, cylinders st !! id = Some c →
         CylinderService.list_filter vendor_id status is_assigned (id, c) →
         (id, c) ∈ rows).
Proof.
  eexists. split; [reflexivity|].
  set (all := filter _ (map_to_list (cylinders st))).
  assert (Hsub : take limit (drop skip all) `sublist_of` map_to_list (cylinders st)).
  { etrans; [apply sublist_take|]. etrans; [apply sublist_drop|].
    apply sublist_filter. }
  split; [rewrite length_take; lia|]. split.
  - apply (sublist_NoDup _ (map_to_list (cylinders st)).*1);
      [apply NoDup_fst_map_to_list | by apply fmap_sublist].
  - split.
    + intros id c Hin.
      assert (Hall : (id, c) ∈ all).
      { eapply elem_of_sublist; [exact Hin|].
        etrans; [apply sublist_take | apply sublist_drop]. }
      apply list_elem_of_filter in Hall as [Hf Hm].
      split; [by apply elem_of_map_to_list | done].
    + intros -> Hsize id c Hc Hf. rewrite drop_0, take_ge.
      * apply list_elem_of_filter. split; [done|].
        by apply elem_of_map_to_list.
      * etrans; [apply length_filter|]. by rewrite length_map_to_list.
Qed.

Lemma list_returns_matching_rows_witness :
  ∃ rows,
    CylinderService.list (Some 8) (Some CylinderStatus.FILLED) None 0 10
      Demo.st0
    = (Ok rows, Demo.st0)
    ∧ (13, Demo.filled 8 "S-13") ∈ rows.
Proof.
  destruct (list_returns_matching_rows Demo.st0 (Some 8)
              (Some CylinderStatus.FILLED) None 0 10)
    as (rows & Hr & _ & _ & _ & Hall).
  exists rows. split; [exact Hr|].
  apply Hall.
  - reflexivity.
  - vm_compute. lia.
  - reflexivity.
  - repeat split.
Defined.

(* ===================================================================== *)
(** * Further properties of the order engine                               *)
(* ===================================================================== *)

Lemma order_update_delivery_status_spec (st : Store) (order_id : Z)
    (update_data : OrderDeliveryUpdate.t) (user_id : Z) (o : Order.t) :
  orders st !! order_id = Some o →
  let r := OrderService.update_delivery_status order_id update_data user_id st in
  let o' := OrderService.delivery_updated update_data o in
  fst r = Ok o'
  ∧ orders (snd r) = <[order_id := o']> (orders st)
  ∧ order_logs (snd r)
    = order_logs st
      ++ [delivery_status_entry order_id (Order.status o) update_data user_id]
  ∧ cylinders (snd r) = cylinders st
  ∧ cylinder_logs (snd r) = cylinder_logs st
  ∧ cache (snd r) !! order_key order_id = Some (OrderJson order_id o').
Proof.
  intros Eo r o'. subst r.
  destruct (OrderService.update_delivery_status order_id update_data user_id st)
    as [r st'] eqn:E.
  unfold OrderService.update_delivery_status in E.
  destruct (order_get_spec order_id st) as [Hr Hdb].
  rewrite bind_run in E.
  destruct (OrderService.get order_id st) as [r0 st0]. cbn in Hr, Hdb.
  subst r0. apply db_eq in Hdb as (Hc & Hcl & Ho & Hol). rewrite Eo in E.
  unfold OrderService.create_log, OrderService._cache_order,
    RedisCache.set in E.
  repeat (rewrite bind_run in E; unfold modify at 1 in E).
  unfold mret, M_ret in E. cbn in E.
  injection E as <- <-. cbn. rewrite Hc, Hcl, Ho, Hol.
  repeat split; try done. apply lookup_insert_eq.
Qed.

(** [update_delivery_status] of the engine takes any status for an order
    that exists, whatever the current one: it never fails, stores the given
    status and counters, keeps [delivered_at] when none is given, appends one
    [status_changed] log row from the old to the new status, and leaves the
    order's vendor and cylinder set and every cylinder as they were. *)
Theorem delivery_status_is_unguarded (st : Store) (order_id : Z)
    (update_data : OrderDeliveryUpdate.t) (user_id : Z) (o : Order.t) :
  orders st !! order_id = Some o →
  let r := OrderService.update_delivery_status order_id update_data user_id st in
  ∃ o',
    fst r = Ok o'
    ∧ orders (snd r) = <[order_id := o']> (orders st)
    ∧ Order.status o' = OrderDeliveryUpdate.status update_data
    ∧ Order.cylinders_sent o' = OrderDeliveryUpdate.cylinders_sent update_data
    ∧ Order.empty_cylinders_returned o'
      = OrderDeliveryUpdate.empty_cylinders_returned update_data
    ∧ (OrderDeliveryUpdate.delivered_at update_data = None →
       Order.delivered_at o' = Order.delivered_at o)
    ∧ Order.vendor_id o' = Order.vendor_id o
    ∧ Order.cylinders o' = Order.cylinders o
    ∧ order_logs (snd r)
      = order_logs st
        ++ [delivery_status_entry order_id (Order.status o) update_data user_id]
    ∧ cylinders (snd r) = cylinders st
    ∧ cylinder_logs (snd r) = cylinder_logs st.
Proof.
  intros Eo r.
  destruct (order_update_delivery_status_spec st order_id update_data user_id
              o Eo) as (Hr & Ho & Hl & Hc & Hcl & _). fold r in Hr, Ho, Hl, Hc, Hcl.
  exists (OrderService.delivery_updated update_data o).
  do 5 (split; [done|]).
  split; [intros Hd; cbn; by rewrite Hd|]. done.
Qed.

Lemma delivery_status_is_unguarded_witness :
  ∃ o', fst (OrderService.update_delivery_status 1 (reopen 0 0) 7 Demo.st2)
        = Ok o'
        ∧ Order.status o' = OrderStatus.PENDING.
Proof.
  assert (E : ∃ o, orders Demo.st2 !! 1 = Some o)
    by (eexists; vm_compute; reflexivity).
  destruct E as [o E].
  destruct (delivery_status_is_unguarded Demo.st2 1 (reopen 0 0) 7 o E)
    as (o' & Hr & _ & Hs & _).
  exists o'. split; [exact Hr | exact Hs].
Defined.

(** *** How acceptance and cancellation compose *)

Lemma accept_order_ok (st : Store) (order_id vendor_id : Z)
    (expected_delivery : datetime) (ids : list Z) (o' : Order.t) :
  let r := OrderService.accept_order order_id vendor_id expected_delivery ids st in
  let sel := map_to_list
               (filter (OrderService.available ids vendor_id) (cylinders st)) in
  fst r = Ok o' →
  ∃ o, orders st !! order_id = Some o
       ∧ Order.status o = OrderStatus.PENDING
       ∧ reservation_succeeds st vendor_id ids
       ∧ o' = append_ids sel.*1
                (OrderService.accepted vendor_id expected_delivery o)
       ∧ orders (snd r) !! order_id = Some o'
       ∧ (∀ k, k ≠ order_id → orders (snd r) !! k = orders st !! k)
       ∧ cylinders (snd r) = assign_all order_id sel (cylinders st)
       ∧ cylinder_logs (snd r) = cylinder_logs st.
Proof.
  intros r sel Hok.
  pose proof (accept_order_run st order_id vendor_id expected_delivery ids) as H.
  cbv zeta in H. fold r sel in H.
  destruct (orders st !! order_id) as [o|] eqn:Eo.
  2:{ destruct H as [Hr _]. congruence. }
  destruct (decide (Order.status o ≠ OrderStatus.PENDING)) as [Hs|Hs].
  { destruct H as [Hr _]. congruence. }
  destruct (decide (length sel ≠ length ids)) as [Hl|Hl].
  { destruct H as [Hr _]. congruence. }
  destruct H as (Hr & Hc & Hcl & Ho & _).
  exists o. split; [done|].
  split; [by destruct (decide (Order.status o = OrderStatus.PENDING))|].
  split.
  { apply reservation_succeeds_length. fold sel.
    by destruct (decide (length sel = length ids)). }
  split; [congruence|]. split.
  { rewrite Ho, append_all_lookup, lookup_alter_eq, Eo. cbn. congruence. }
  split; [|done].
  intros k Hk. by rewrite Ho, append_all_lookup_ne, lookup_alter_ne.
Qed.

Lemma sel_ids (st : Store) (vendor_id : Z) (ids : list Z) (k : Z) :
  reservation_succeeds st vendor_id ids →
  k ∈ (map_to_list
         (filter (OrderService.available ids vendor_id) (cylinders st))).*1
  ↔ k ∈ ids.
Proof.
  intros [_ Hall]. split.
  - intros ([k' c] & -> & Hin)%list_elem_of_fmap.
    apply elem_of_map_to_list, map_lookup_filter_Some in Hin as [_ (Hk & _)].
    done.
  - intros Hk. destruct (Hall k Hk) as (c & Hc & Hv & Hs & Ha).
    apply list_elem_of_fmap. exists (k, c). split; [done|].
    apply elem_of_map_to_list, map_lookup_filter_Some. split; [done|].
    by repeat split.
Qed.

Lemma unassign_assign (order_id : Z) (c : Cylinder.t) :
  Cylinder.is_assigned c = Some false →
  Cylinder.current_order_id c = None →
  OrderService.unassign (OrderService.assign order_id c) = c.
Proof. destruct c. cbn. by intros -> ->. Qed.

(** Accepting and then cancelling an order gives the cylinders back: when
    the flag invariant holds and the order had no cylinders before, the
    cylinder table after a successful [accept_order] followed by
    [cancel_order] is the table before the two calls, so every cylinder of
    the request can be reserved again. *)
Theorem accept_then_cancel_restores_cylinders (st : Store)
    (order_id vendor_id : Z) (expected_delivery : datetime) (ids : list Z)
    (o o' : Order.t) (user_id : Z) (reason : string) :
  flag_invariant st →
  orders st !! order_id = Some o →
  Order.cylinders o = [] →
  let r := OrderService.accept_order order_id vendor_id expected_delivery ids st in
  fst r = Ok o' →
  let r' := OrderService.cancel_order order_id user_id reason (snd r) in
  is_ok (fst r') = true
  ∧ cylinders (snd r') = cylinders st
  ∧ reservation_succeeds (snd r') vendor_id ids.
Proof.
  intros Hflag Eo Hnil r Hok r'.
  destruct (accept_order_ok st order_id vendor_id expected_delivery ids o' Hok)
    as (o0 & Eo0 & _ & Hres & -> & Ho' & _ & Hc & _). fold r in Ho', Hc.
  assert (o0 = o) as -> by congruence.
  pose proof (cancel_order_run (snd r) order_id user_id reason) as H.
  cbv zeta in H. fold r' in H. rewrite Ho' in H.
  rewrite decide_False in H.
  2:{ intros Hn. apply Hn. cbn. right. left. }
  destruct H as (Hr' & Hc' & _).
  assert (Hcyl : cylinders (snd r') = cylinders st).
  { rewrite Hc', Hc. apply map_eq. intros k.
    rewrite unassign_all_lookup, assign_all_lookup. cbn. rewrite Hnil. cbn.
    case_decide as Hk; [|done].
    apply (sel_ids st vendor_id ids k Hres) in Hk.
    destruct Hres as [_ Hall].
    destruct (Hall k Hk) as (c & Hkc & _ & _ & Hia). rewrite Hkc. cbn.
    f_equal. apply unassign_assign; [done|].
    destruct (Cylinder.current_order_id c) eqn:Hcur; [|done].
    assert (Cylinder.is_assigned c = Some true)
      by (apply (Hflag k c Hkc); eauto).
    congruence. }
  split; [by rewrite Hr'|]. split; [done|].
  destruct Hres as [Hnd Hall]. split; [done|].
  intros k Hk. unfold reservable. rewrite Hcyl. by apply Hall.
Qed.

Lemma accept_then_cancel_restores_cylinders_witness :
  cylinders Demo.st2 = cylinders Demo.st0.
Proof.
  assert (E : ∃ o', fst (OrderService.accept_order 1 7 1000 [10; 11; 12]
                           Demo.st0) = Ok o')
    by (eexists; vm_compute; reflexivity).
  destruct E as [o' E].
  exact (proj1 (proj2
           (accept_then_cancel_restores_cylinders Demo.st0 1 7 1000
              [10; 11; 12] (Demo.pending_order 3 3) o' 3
              "hospital changed mind" (proj1 demo_consistent) eq_refl eq_refl
              E))).
Defined.

(** No status closes an order for good.  Whatever the status of an order
    is (cancelled and delivered included), [update_delivery_status] with the
    status pending puts it back, and [accept_order] with a set of cylinders
    that can be reserved then succeeds: the order is accepted, by the vendor
    of this second acceptance. *)
Theorem reopened_order_can_be_accepted (st : Store)
    (order_id user_id vendor_id : Z) (update_data : OrderDeliveryUpdate.t)
    (expected_delivery : datetime) (ids : list Z) (o : Order.t) :
  orders st !! order_id = Some o →
  OrderDeliveryUpdate.status update_data = OrderStatus.PENDING →
  reservation_succeeds st vendor_id ids →
  let st' := snd (OrderService.update_delivery_status order_id update_data
                    user_id st) in
  orders st' !! order_id = Some (OrderService.delivery_updated update_data o)
  ∧ ∃ o', fst (OrderService.accept_order order_id vendor_id expected_delivery
                 ids st') = Ok o'
          ∧ Order.status o' = OrderStatus.ACCEPTED
          ∧ Order.vendor_id o' = Some vendor_id.
Proof.
  intros Eo Hs Hres st'.
  destruct (order_update_delivery_status_spec st order_id update_data user_id
              o Eo) as (_ & Ho & _ & Hc & _).
  fold st' in Ho, Hc.
  assert (Eo' : orders st' !! order_id
                = Some (OrderService.delivery_updated update_data o))
    by (by rewrite Ho, lookup_insert_eq).
  split; [done|].
  assert (Hres' : reservation_succeeds st' vendor_id ids).
  { destruct Hres as [Hnd Hr]. split; [done|].
    intros id Hid. destruct (Hr id Hid) as (c & Hc1 & Hc2).
    exists c. by rewrite Hc. }
  destruct (accept_order_succeeds st' order_id vendor_id expected_delivery ids
              _ Eo' Hs Hres') as [o' Eo''].
  exists o'. split; [done|].
  destruct (accept_order_ok st' order_id vendor_id expected_delivery ids o'
              Eo'') as (o1 & _ & _ & _ & -> & _).
  done.
Qed.

Lemma reopened_order_can_be_accepted_witness :
  Order.status <$> orders Demo.st2 !! 1 = Some OrderStatus.CANCELLED
  ∧ ∃ o', fst (OrderService.accept_order 1 8 2000 [13]
                 (snd (OrderService.update_delivery_status 1 (reopen 0 0) 3
                         Demo.st2))) = Ok o'
          ∧ Order.status o' = OrderStatus.ACCEPTED
          ∧ Order.vendor_id o' = Some 8.
Proof.
  assert (E : ∃ o, orders Demo.st2 !! 1 = Some o
                   ∧ Order.status o = OrderStatus.CANCELLED)
    by (eexists; split; vm_compute; reflexivity).
  destruct E as (o & Eo & Hs).
  split; [by rewrite Eo; cbn; rewrite Hs|].
  refine (proj2 (reopened_order_can_be_accepted Demo.st2 1 3 8 (reopen 0 0)
                   2000 [13] o Eo eq_refl _)).
  split; [repeat constructor; set_solver|].
  intros id ->%list_elem_of_singleton.
  eexists. repeat split; vm_compute; reflexivity.
Defined.

(** *** The audit logs *)

Lemma logs_extend_db (st st' : Store) : db st' = db st → logs_extend st st'.
Proof. intros (_ & H1 & _ & H2)%db_eq. split; [by rewrite H1|by rewrite H2]. Qed.

Lemma logs_extend_app (st st' : Store) (new : list CylinderLog.t)
    (new' : list OrderLog.t) :
  cylinder_logs st' = cylinder_logs st ++ new →
  order_logs st' = order_logs st ++ new' →
  logs_extend st st'.
Proof. intros H1 H2. split; [rewrite H1|rewrite H2]; by apply prefix_app_r. Qed.

(** The audit logs are append-only: whatever the arguments and whether the
    call succeeds or raises, no method of the registry or of the order engine
    removes, rewrites or reorders a row of the cylinder log or of the order
    log; the logs before the call are a prefix of the logs after it. *)
Theorem logs_are_append_only (st : Store) :
  (∀ cylinder_in vendor_id,
     logs_extend st (snd (CylinderService.create cylinder_in vendor_id st)))
  ∧ (∀ id cylinder_in user_id,
       logs_extend st (snd (CylinderService.update id cylinder_in user_id st)))
  ∧ (∀ ids new_status location notes user_id order_id,
       logs_extend st
         (snd (CylinderService.update_status_bulk ids new_status location notes
                 user_id order_id st)))
  ∧ (∀ id user_id,
       logs_extend st (snd (CylinderService.delete id user_id st)))
  ∧ (∀ order_in hospital_id,
       logs_extend st (snd (OrderService.create order_in hospital_id st)))
  ∧ (∀ order_id vendor_id expected_delivery ids,
       logs_extend st
         (snd (OrderService.accept_order order_id vendor_id expected_delivery
                 ids st)))
  ∧ (∀ order_id update_data user_id,
       logs_extend st
         (snd (OrderService.update_delivery_status order_id update_data
                 user_id st)))
  ∧ (∀ order_id user_id reason,
       logs_extend st
         (snd (OrderService.cancel_order order_id user_id reason st))).
Proof.
  split.
  { intros cin v.
    destruct (cylinder_create_spec st cin v) as [Hdup Hnew].
    destruct (CylinderService.get_by_serial_number
                (CylinderCreate.serial_number cin) st) as [r0 st0] eqn:E.
    pose proof (get_by_serial_number_None st
                  (CylinderCreate.serial_number cin)) as Hnone.
    rewrite E in Hnone. cbn in Hnone.
    unfold CylinderService.get_by_serial_number, gets in E.
    injection E as <- <-.
    destruct (head _) as [x|] eqn:Hh.
    - assert (Hreg : serial_registered st (CylinderCreate.serial_number cin)).
      { destruct (decide (serial_registered st
                            (CylinderCreate.serial_number cin))) as [|Hn];
          [done|]. by apply Hnone in Hn. }
      rewrite (Hdup Hreg). by apply logs_extend_db.
    - rewrite (Hnew ltac:(by apply Hnone)). cbn.
      eapply logs_extend_app; cbn; [done|by rewrite app_nil_r]. }
  split.
  { intros id cin u.
    pose proof (update_run st id cin u) as H. cbv zeta in H.
    destruct (cylinders st !! id) as [c|];
      [|by apply logs_extend_db, (proj2 H)].
    destruct (CylinderUpdate.status cin) as [[s|]|].
    - destruct H as (_ & _ & Hl & _ & Hol).
      eapply logs_extend_app; [done|by rewrite Hol, app_nil_r].
    - by apply logs_extend_db, (proj2 H).
    - destruct H as (_ & _ & Hl & _ & Hol).
      eapply logs_extend_app; [done|by rewrite Hol, app_nil_r]. }
  split.
  { intros ids s l n u o.
    destruct (update_status_bulk_logs ids s l n u o st) as (new & Hl & _).
    destruct (update_status_bulk_run ids s l n u o st) as (_ & _ & _ & Hol).
    eapply logs_extend_app; [done|by rewrite Hol, app_nil_r]. }
  split.
  { intros id u.
    destruct (cylinder_delete_run st id u) as (_ & _ & Hol & H).
    destruct (cylinders st !! id) as [c|].
    - destruct H as (_ & Hl & _).
      eapply logs_extend_app; [done|by rewrite Hol, app_nil_r].
    - rewrite H. by apply logs_extend_db. }
  split.
  { intros oin h. rewrite order_create_run. by apply logs_extend_db. }
  split.
  { intros oid v ed ids.
    pose proof (accept_order_run st oid v ed ids) as H. cbv zeta in H.
    destruct (orders st !! oid) as [o|];
      [|by apply logs_extend_db, (proj2 H)].
    case_decide; [by apply logs_extend_db, (proj2 H)|].
    case_decide; [by apply logs_extend_db, (proj2 H)|].
    destruct H as (_ & _ & Hl & _ & Hol).
    eapply logs_extend_app; [by rewrite Hl, app_nil_r|done]. }
  split.
  { intros oid ud u.
    destruct (orders st !! oid) as [o|] eqn:Eo.
    - destruct (order_update_delivery_status_spec st oid ud u o Eo)
        as (_ & _ & Hol & _ & Hl & _).
      eapply logs_extend_app; [by rewrite Hl, app_nil_r|done].
    - apply logs_extend_db.
      unfold OrderService.update_delivery_status. rewrite bind_run.
      by rewrite order_get_missing. }
  intros oid u reason.
  pose proof (cancel_order_run st oid u reason) as H. cbv zeta in H.
  destruct (orders st !! oid) as [o|];
    [|by apply logs_extend_db, (proj2 H)].
  case_decide; [by apply logs_extend_db, (proj2 H)|].
  destruct H as (_ & _ & Hl & _ & Hol).
  eapply logs_extend_app; [by rewrite Hl, app_nil_r|done].
Qed.

Lemma page_of_get_logs {A : Type} (order_by : list A → list A)
    (all : list A) (skip limit : nat) :
  order_by all ≡ₚ all →
  page_of all skip limit (take limit (drop skip (order_by all))).
Proof.
  intros Hp. split; [|split].
  - trans (order_by all); [|by apply Permutation_submseteq].
    apply sublist_submseteq.
    etrans; [apply sublist_take|apply sublist_drop].
  - by rewrite length_take, length_drop, (Permutation_length Hp).
  - intros -> Hlen. rewrite drop_0, take_ge; [done|].
    by rewrite (Permutation_length Hp).
Qed.

(** The history queries whatever the order in which the engine returns rows
    of equal [created_at]: [get_logs] of the registry and of the order
    engine change nothing and return a page of the log rows written for the
    id asked for, that is, only such rows and none more often than it was
    written, as many as are left after [skip] rows up to [limit], and all of
    them when [skip] is 0 and [limit] leaves room. *)
Theorem get_logs_returns_a_page (st : Store)
    (cylinder_order : list CylinderLog.t → list CylinderLog.t)
    (order_order : list OrderLog.t → list OrderLog.t)
    (cylinder_id order_id : Z) (skip limit : nat) :
  (∀ l, cylinder_order l ≡ₚ l) →
  (∀ l, order_order l ≡ₚ l) →
  (∃ rows, CylinderService.get_logs cylinder_order cylinder_id skip limit st
           = (Ok rows, st)
           ∧ page_of (cylinder_history st cylinder_id) skip limit rows)
  ∧ (∃ rows, OrderService.get_logs order_order order_id skip limit st
             = (Ok rows, st)
             ∧ page_of (order_history st order_id) skip limit rows).
Proof.
  intros H1 H2. split; (eexists; split; [reflexivity|]).
  - apply page_of_get_logs, H1.
  - apply page_of_get_logs, H2.
Qed.

Lemma get_logs_returns_a_page_witness :
  length (order_history Demo.st2 1) = 2%nat
  ∧ ∃ rows, OrderService.get_logs reverse 1 1 5 Demo.st2 = (Ok rows, Demo.st2)
            ∧ page_of (order_history Demo.st2 1) 1 5 rows.
Proof.
  split; [vm_compute; reflexivity|].
  exact (proj2 (get_logs_returns_a_page Demo.st2 reverse reverse 10 1 1 5
                  reverse_Permutation reverse_Permutation)).
Defined.

(** *** The cache of the registry *)

Lemma update_cache (st : Store) (id : Z) (cylinder_in : CylinderUpdate.t)
    (user_id : Z) (c : Cylinder.t) :
  cylinders st !! id = Some c →
  CylinderUpdate.status cylinder_in ≠ Some None →
  cache (snd (CylinderService.update id cylinder_in user_id st))
  = <[cylinder_key id
      := CylinderJson id (CylinderService.apply_update cylinder_in c)]>
      (cache st).
Proof.
  intros Ec Hs. unfold CylinderService.update.
  rewrite bind_run, cylinder_get_run, Ec.
  unfold CylinderService.status_of, CylinderService.create_log,
    CylinderService._cache_cylinder, RedisCache.set.
  fold (cylinder_key id).
  destruct (CylinderUpdate.status cylinder_in) as [[s|]|]; [| done |];
    try destruct (decide (s ≠ Cylinder.status c));
    destruct (truthy _);
    unfold mbind, M_bind, modify, mret, M_ret; cbn;
    by rewrite ?insert_insert_eq.
Qed.

Lemma update_status_bulk_step_cache (st : Store) (new_status : CylinderStatus.t)
    (location : option Location.t) (notes : option string) (user_id : Z)
    (order_id : option Z) (k : Z) (c : Cylinder.t) :
  cylinders st !! k = Some c →
  cache (snd (CylinderService.update_status_bulk_step new_status location notes
                user_id order_id k st))
  = <[cylinder_key k
      := CylinderJson k (CylinderService.status_updated new_status location c)]>
      (cache st).
Proof.
  intros Ec. unfold CylinderService.update_status_bulk_step.
  rewrite bind_run, cylinder_get_run, Ec.
  unfold CylinderService.create_log, CylinderService._cache_cylinder,
    RedisCache.set.
  fold (cylinder_key k).
  destruct (truthy _);
    unfold mbind, M_bind, modify, mret, M_ret; cbn;
    by rewrite ?insert_insert_eq.
Qed.

Lemma coherent_insert (st st' : Store) (id : Z) (c : Cylinder.t) :
  cylinder_cache_coherent st →
  cylinders st' = <[id := c]> (cylinders st) →
  cache st' = <[cylinder_key id := CylinderJson id c]> (cache st) →
  cylinder_cache_coherent st'.
Proof.
  intros Hco Hc Hca id' v Hv. rewrite Hca in Hv. rewrite Hc.
  destruct (decide (id' = id)) as [->|Hne].
  - rewrite lookup_insert_eq in Hv. injection Hv as <-.
    exists c. by rewrite lookup_insert_eq.
  - rewrite lookup_insert_ne in Hv by (intros ?%cylinder_key_inj; congruence).
    rewrite lookup_insert_ne by done. by apply Hco.
Qed.

Lemma coherent_get (st : Store) (id : Z) :
  cylinder_cache_coherent st →
  cylinder_cache_coherent (snd (CylinderService.get id st)).
Proof.
  intros Hco. rewrite cylinder_get_run. cbn [snd].
  destruct (cylinders st !! id) as [c|] eqn:Ec; [|done].
  destruct (truthy _); [done|].
  apply (coherent_insert st _ id c Hco); cbn; [|done].
  by rewrite insert_id.
Qed.

Lemma update_status_bulk_snd (k : Z) (ids : list Z)
    (new_status : CylinderStatus.t) (location : option Location.t)
    (notes : option string) (user_id : Z) (order_id : option Z) (st : Store) :
  snd (CylinderService.update_status_bulk (k :: ids) new_status location notes
         user_id order_id st)
  = snd (CylinderService.update_status_bulk ids new_status location notes
           user_id order_id
           (snd (CylinderService.update_status_bulk_step new_status location
                   notes user_id order_id k st))).
Proof.
  cbn [CylinderService.update_status_bulk]. rewrite bind_run.
  pose proof (update_status_bulk_step_run st new_status location notes
                user_id order_id k) as Hstep. cbv zeta in Hstep.
  destruct (CylinderService.update_status_bulk_step _ _ _ _ _ k st)
    as [r1 st1]. cbn [fst snd] in *.
  assert (∃ a, r1 = Ok a) as [a ->]
    by (destruct (cylinders st !! k); destruct Hstep as [-> _]; eauto).
  rewrite bind_run.
  destruct (update_status_bulk_run ids new_status location notes user_id
              order_id st1) as [Hr _].
  destruct (CylinderService.update_status_bulk ids _ _ _ _ _ st1) as [r2 st2].
  cbn in Hr. by subst r2.
Qed.

(** The registry keeps its cache coherent: when every cylinder entry of the
    cache is the JSON of the row stored under that id, the same holds after
    [create], [get], [update], [update_status_bulk] and [delete], for all
    arguments and whether the call succeeds or raises. *)
Theorem registry_keeps_cache_coherent (st : Store) :
  cylinder_cache_coherent st →
  (∀ cylinder_in vendor_id,
     cylinder_cache_coherent
       (snd (CylinderService.create cylinder_in vendor_id st)))
  ∧ (∀ id, cylinder_cache_coherent (snd (CylinderService.get id st)))
  ∧ (∀ id cylinder_in user_id,
       cylinder_cache_coherent
         (snd (CylinderService.update id cylinder_in user_id st)))
  ∧ (∀ ids new_status location notes user_id order_id,
       cylinder_cache_coherent
         (snd (CylinderService.update_status_bulk ids new_status location
                 notes user_id order_id st)))
  ∧ (∀ id user_id,
       cylinder_cache_coherent (snd (CylinderService.delete id user_id st))).
Proof.
  intros Hco. split.
  { intros cin v.
    destruct (cylinder_create_spec st cin v) as [Hdup Hnew].
    pose proof (get_by_serial_number_None st
                  (CylinderCreate.serial_number cin)) as Hnone.
    destruct (fst (CylinderService.get_by_serial_number
                     (CylinderCreate.serial_number cin) st)) as [[x|]|e] eqn:E.
    - assert (Hreg : serial_registered st (CylinderCreate.serial_number cin)).
      { unfold CylinderService.create. unfold serial_registered.
        unfold CylinderService.get_by_serial_number, gets in E. cbn in E.
        injection E as E. apply head_Some_elem_of in E.
        apply list_elem_of_filter in E as [Hs Hin].
        destruct x as [id c]. apply elem_of_map_to_list in Hin. eauto. }
      by rewrite (Hdup Hreg).
    - rewrite (Hnew (proj1 Hnone eq_refl)).
      eapply coherent_insert; [exact Hco|reflexivity|reflexivity].
    - discriminate E. }
  split; [intros id; by apply coherent_get|].
  split.
  { intros id cin u.
    destruct (cylinders st !! id) as [c|] eqn:Ec.
    2:{ unfold CylinderService.update.
        by rewrite bind_run, cylinder_get_missing. }
    destruct (decide (CylinderUpdate.status cin = Some None)) as [Hs|Hs].
    - pose proof (coherent_get st id Hco) as Hg.
      unfold CylinderService.update. rewrite bind_run.
      rewrite cylinder_get_run in *. rewrite Ec in *. rewrite Hs. exact Hg.
    - pose proof (update_run st id cin u) as H. cbv zeta in H.
      rewrite Ec in H.
      apply (coherent_insert st _ id
               (CylinderService.apply_update cin c) Hco);
        [|by apply update_cache].
      destruct (CylinderUpdate.status cin) as [[s|]|]; [|done|];
        by destruct H as (_ & -> & _). }
  split.
  { intros ids s l n u o. revert st Hco.
    induction ids as [|k ids IH]; intros st Hco; [done|].
    rewrite update_status_bulk_snd. apply IH.
    pose proof (update_status_bulk_step_run st s l n u o k) as Hstep.
    cbv zeta in Hstep.
    destruct (cylinders st !! k) as [c|] eqn:Ek.
    - destruct Hstep as (_ & Hc & _).
      apply (coherent_insert st _ k (CylinderService.status_updated s l c) Hco);
        [done|by apply update_status_bulk_step_cache].
    - unfold CylinderService.update_status_bulk_step.
      by rewrite bind_run, cylinder_get_missing. }
  intros id u.
  destruct (cylinder_delete_run st id u) as (Hc & _ & _ & H).
  destruct (cylinders st !! id) as [c|] eqn:Ec; [|by rewrite H].
  destruct H as (_ & _ & Hca).
  intros id' v Hv. rewrite Hca in Hv.
  apply map_lookup_filter_Some in Hv as [Hv _].
  apply lookup_delete_Some in Hv as [Hne Hv].
  rewrite Hc. by apply Hco.
Qed.

Lemma registry_keeps_cache_coherent_witness :
  cache Demo.cached !! cylinder_key 10
  = Some (CylinderJson 10 (Demo.filled 7 "S-10"))
  ∧ cylinder_cache_coherent
      (snd (CylinderService.update 10 (status_only CylinderStatus.IN_TRANSIT) 7
              Demo.cached))
  ∧ cylinder_cache_coherent (snd (CylinderService.delete 10 7 Demo.cached)).
Proof.
  assert (Hkey : cylinder_key 10 = "cylinder:10") by (vm_compute; reflexivity).
  assert (Hcache : cache Demo.cached
                   = <["cylinder:10" := CylinderJson 10 (Demo.filled 7 "S-10")]> ∅)
    by (vm_compute; reflexivity).
  assert (Hco : cylinder_cache_coherent Demo.cached).
  { intros id v Hv. rewrite Hcache in Hv.
    apply lookup_insert_Some in Hv as [[Hk <-]|[_ Hv]];
      [|by rewrite lookup_empty in Hv].
    rewrite <-Hkey in Hk. apply cylinder_key_inj in Hk as <-.
    eexists. split; [vm_compute; reflexivity|done]. }
  split; [by rewrite Hcache, Hkey, lookup_insert_eq|].
  pose proof (registry_keeps_cache_coherent Demo.cached Hco)
    as (_ & _ & Hu & _ & Hd).
  split; [apply Hu|apply Hd].
Defined.

(** The order engine is outside this invariant: [accept_order] rewrites the
    rows of the cylinders it assigns and leaves their cache entries as they
    were. *)
Example accept_order_leaves_cached_cylinder :
  let st' := snd (OrderService.accept_order 1 7 1000 [10; 11; 12]
                    Demo.cached) in
  cache st' !! cylinder_key 10 = Some (CylinderJson 10 (Demo.filled 7 "S-10"))
  ∧ (Cylinder.is_assigned <$> cylinders st' !! 10) = Some (Some true).
Proof. split; vm_compute; reflexivity. Qed.

(* ===================================================================== *)
(** * Properties of the routes of the registry                             *)
(* ===================================================================== *)

Lemma update_cylinder_run (st : Store) (id : Z) (cylinder_in : CylinderUpdate.t)
    (current_user : User.t) :
  let r := CylinderRouter.update_cylinder id cylinder_in current_user st in
  match cylinders st !! id with
  | None =>
      fst r = Raise (HTTPException 404 "Cylinder not found")
      ∧ db (snd r) = db st
  | Some c =>
      if decide (CylinderRouter.refused current_user c) then
        fst r = Raise (HTTPException 403 "Not enough permissions")
        ∧ db (snd r) = db st
      else
        ∃ st', db st' = db st
               ∧ r = CylinderService.update id cylinder_in
                       (User.id current_user) st'
  end.
Proof.
  intros r. subst r. unfold CylinderRouter.update_cylinder.
  rewrite bind_run.
  destruct (cylinder_get_spec id st) as [Hr Hdb].
  destruct (CylinderService.get id st) as [r0 st0]. cbn in Hr, Hdb. subst r0.
  destruct (cylinders st !! id) as [c|]; [|done].
  case_decide; [done|]. eauto.
Qed.

Lemma delete_cylinder_run (st : Store) (id : Z) (current_user : User.t) :
  let r := CylinderRouter.delete_cylinder id current_user st in
  match cylinders st !! id with
  | None =>
      fst r = Raise (HTTPException 404 "Cylinder not found")
      ∧ db (snd r) = db st
  | Some c =>
      if decide (CylinderRouter.refused current_user c) then
        fst r = Raise (HTTPException 403 "Not enough permissions")
        ∧ db (snd r) = db st
      else
        fst r = Raise (IntegrityError "cylinder_logs.cylinder_id")
        ∧ cylinders (snd r) = cylinders st
  end.
Proof.
  intros r. subst r. unfold CylinderRouter.delete_cylinder.
  rewrite bind_run.
  destruct (cylinder_get_spec id st) as [Hr Hdb].
  destruct (CylinderService.get id st) as [r0 st0]. cbn in Hr, Hdb. subst r0.
  pose proof Hdb as Hdb'.
  apply db_eq in Hdb' as (Hc & Hcl & Ho & Hol).
  destruct (cylinders st !! id) as [c|] eqn:Ec; [|done].
  case_decide as Href; [done|]. clear Href.
  rewrite bind_run.
  destruct (cylinder_delete_run st0 id (User.id current_user))
    as (H1 & _ & _ & H).
  rewrite Hc, Ec in H. destruct H as (H & _).
  destruct (CylinderService.delete id (User.id current_user) st0) as [r1 st1].
  cbn [fst snd] in *. subst r1. split; [done|]. cbn. congruence.
Qed.

(** A vendor cannot change a cylinder of another vendor through the routes:
    [update_cylinder] and [delete_cylinder] raise 403 "Not enough
    permissions" and the tables stay as they were. *)
Theorem foreign_cylinder_is_refused (st : Store) (current_user : User.t)
    (id : Z) (c : Cylinder.t) :
  cylinders st !! id = Some c →
  User.role current_user = UserRole.VENDOR →
  Cylinder.vendor_id c ≠ User.id current_user →
  (∀ cylinder_in,
     let r := CylinderRouter.update_cylinder id cylinder_in current_user st in
     fst r = Raise (HTTPException 403 "Not enough permissions")
     ∧ db (snd r) = db st)
  ∧ (let r := CylinderRouter.delete_cylinder id current_user st in
     fst r = Raise (HTTPException 403 "Not enough permissions")
     ∧ db (snd r) = db st).
Proof.
  intros Ec Hrole Hown.
  assert (Href : CylinderRouter.refused current_user c).
  { split; [done|]. split; [done|]. rewrite Hrole. discriminate. }
  split.
  - intros cin. pose proof (update_cylinder_run st id cin current_user) as H.
    cbv zeta in H. rewrite Ec in H. by rewrite decide_True in H.
  - pose proof (delete_cylinder_run st id current_user) as H.
    cbv zeta in H. rewrite Ec in H. by rewrite decide_True in H.
Qed.

Lemma foreign_cylinder_is_refused_witness :
  fst (CylinderRouter.delete_cylinder 13 DemoRouter.vendor7 Demo.st0)
  = Raise (HTTPException 403 "Not enough permissions").
Proof.
  refine (proj1 (proj2 (foreign_cylinder_is_refused Demo.st0 DemoRouter.vendor7
                          13 (Demo.filled 8 "S-13") _ _ _))).
  - reflexivity.
  - reflexivity.
  - cbn. lia.
Defined.

(** The permission check of the routes stops vendors only: a user of any
    other role (a hospital as well as an admin) gets through it, and
    [update_cylinder] rewrites any cylinder that exists for them, with the
    user's id in the log row. *)
Theorem permission_check_stops_vendors_only (st : Store)
    (current_user : User.t) (id : Z) (c : Cylinder.t)
    (cylinder_in : CylinderUpdate.t) :
  cylinders st !! id = Some c →
  User.role current_user ≠ UserRole.VENDOR →
  CylinderUpdate.status cylinder_in ≠ Some None →
  let r := CylinderRouter.update_cylinder id cylinder_in current_user st in
  permitted current_user st id
  ∧ fst r = Ok (CylinderService.apply_update cylinder_in c)
  ∧ cylinders (snd r)
    = <[id := CylinderService.apply_update cylinder_in c]> (cylinders st)
  ∧ cylinder_logs (snd r)
    = cylinder_logs st
      ++ update_entries id cylinder_in c (User.id current_user).
Proof.
  intros Ec Hrole Hs r.
  assert (Href : ¬ CylinderRouter.refused current_user c)
    by (intros [? _]; done).
  split; [by exists c|].
  pose proof (update_cylinder_run st id cylinder_in current_user) as H.
  cbv zeta in H. fold r in H. rewrite Ec in H.
  rewrite decide_False in H by done.
  destruct H as (st' & Hdb & ->).
  apply db_eq in Hdb as (Hc & Hcl & _).
  pose proof (update_run st' id cylinder_in (User.id current_user)) as H.
  cbv zeta in H. rewrite Hc, Ec, Hcl in H.
  destruct (CylinderUpdate.status cylinder_in) as [[s|]|]; [|done|];
    by destruct H as (? & ? & ? & _).
Qed.

Lemma permission_check_stops_vendors_only_witness :
  fst (CylinderRouter.update_cylinder 13 DemoRouter.set_empty
         DemoRouter.hospital3 Demo.st0)
  = Ok (CylinderService.apply_update DemoRouter.set_empty
          (Demo.filled 8 "S-13")).
Proof.
  refine (proj1 (proj2 (permission_check_stops_vendors_only Demo.st0
                          DemoRouter.hospital3 13 (Demo.filled 8 "S-13")
                          DemoRouter.set_empty _ _ _))).
  - reflexivity.
  - discriminate.
  - discriminate.
Defined.

Lemma verify_run (current_user : User.t) (id : Z) (st : Store) :
  let r := CylinderRouter.verify current_user id st in
  db (snd r) = db st
  ∧ match cylinders st !! id with
    | None =>
        fst r = Raise (HTTPException 404
                         ("Cylinder " +:+ str id +:+ " not found"))
    | Some c =>
        if decide (CylinderRouter.refused current_user c) then
          fst r = Raise (HTTPException 403
                           ("Not enough permissions for cylinder " +:+ str id))
        else fst r = Ok tt
    end.
Proof.
  intros r. subst r. unfold CylinderRouter.verify. rewrite bind_run.
  destruct (cylinder_get_spec id st) as [Hr Hdb].
  destruct (CylinderService.get id st) as [r0 st0]. cbn in Hr, Hdb. subst r0.
  destruct (cylinders st !! id) as [c|]; [|done].
  by case_decide.
Qed.

Lemma verify_loop (current_user : User.t) (ids : list Z) (st : Store) :
  let r := for_each ids (CylinderRouter.verify current_user) st in
  db (snd r) = db st
  ∧ ((∀ id, id ∈ ids → permitted current_user st id) → fst r = Ok tt)
  ∧ (¬ (∀ id, id ∈ ids → permitted current_user st id) →
     ∃ code detail, fst r = Raise (HTTPException code detail)
                    ∧ (code = 404 ∨ code = 403)).
Proof.
  revert st. induction ids as [|k ids IH]; intros st r; subst r.
  - cbn. split; [done|]. split; [done|].
    intros Hn. exfalso. apply Hn. intros id Hin. by apply not_elem_of_nil in Hin.
  - cbn [for_each]. rewrite bind_run.
    destruct (verify_run current_user k st) as [Hdb Hk]. cbv zeta in Hdb, Hk.
    destruct (CylinderRouter.verify current_user k st) as [r1 st1].
    cbn [fst snd] in Hdb, Hk.
    destruct (IH st1) as (Hdb2 & Hok2 & Hno2). clear IH.
    assert (Hperm : ∀ id, permitted current_user st1 id
                          ↔ permitted current_user st id).
    { intros id. unfold permitted.
      apply db_eq in Hdb as (-> & _). done. }
    destruct (cylinders st !! k) as [c|] eqn:Ek.
    2:{ subst r1. cbn [fst snd]. split; [done|]. split.
        - intros Hall. destruct (Hall k) as (c & Hc & _); [left|]. congruence.
        - intros _. eexists _, _. split; [done|]. by left. }
    destruct (decide (CylinderRouter.refused current_user c)) as [Href|Href].
    { subst r1. cbn [fst snd]. split; [done|]. split.
      - intros Hall. destruct (Hall k) as (c' & Hc & Hn); [left|].
        assert (c' = c) as -> by congruence. done.
      - intros _. eexists _, _. split; [done|]. by right. }
    subst r1. split; [congruence|]. split.
    + intros Hall. apply Hok2. intros id Hin. apply Hperm, Hall. by right.
    + intros Hn. apply Hno2. intros Hall. apply Hn.
      intros id [->|Hin]%elem_of_cons.
      * by exists c.
      * by apply Hperm, Hall.
Qed.

(** Through the route a bulk update changes every cylinder of the request
    or none.  When one of the ids does not resolve, or resolves to a cylinder
    the user may not change, the route raises 404 or 403 and the tables stay
    as they were; otherwise one row per requested id is returned, every
    requested cylinder has the new status, and one log row per requested id
    is appended. *)
Theorem bulk_route_is_all_or_nothing (st : Store)
    (status_update : CylinderStatusUpdate.t) (current_user : User.t) :
  let ids := CylinderStatusUpdate.cylinder_ids status_update in
  let r := CylinderRouter.update_cylinder_status_bulk status_update
             current_user st in
  (¬ (∀ id, id ∈ ids → permitted current_user st id) →
     (∃ code detail, fst r = Raise (HTTPException code detail)
                     ∧ (code = 404 ∨ code = 403))
     ∧ db (snd r) = db st)
  ∧ ((∀ id, id ∈ ids → permitted current_user st id) →
     ∃ rows new,
       fst r = Ok rows
       ∧ rows.*1 = ids
       ∧ (∀ id, id ∈ ids →
            Cylinder.status <$> cylinders (snd r) !! id
            = Some (CylinderStatusUpdate.new_status status_update))
       ∧ (∀ id, id ∉ ids → cylinders (snd r) !! id = cylinders st !! id)
       ∧ cylinder_logs (snd r) = cylinder_logs st ++ new
       ∧ length new = length ids).
Proof.
  intros ids r. subst r. unfold CylinderRouter.update_cylinder_status_bulk.
  fold ids. rewrite bind_run.
  destruct (verify_loop current_user ids st) as (Hdb & Hok & Hno).
  cbv zeta in Hdb, Hok, Hno.
  destruct (for_each ids (CylinderRouter.verify current_user) st) as [r1 st1].
  cbn [fst snd] in Hdb, Hok, Hno.
  split.
  - intros Hn. destruct (Hno Hn) as (code & detail & -> & Hcode).
    cbn [fst snd]. eauto 6.
  - intros Hall. rewrite (Hok Hall).
    set (s := CylinderStatusUpdate.new_status status_update).
    set (l := CylinderStatusUpdate.location status_update).
    set (n := CylinderStatusUpdate.notes status_update).
    destruct (update_status_bulk_run ids s l n (User.id current_user) None st1)
      as (Hr & Hc & _).
    destruct (update_status_bulk_logs ids s l n (User.id current_user) None st1)
      as (new & Hl & Hlen & _).
    apply db_eq in Hdb as (Hc1 & Hcl1 & _).
    assert (Hres : (resolved_with_status st1 ids s l).*1 = ids).
    { unfold resolved_with_status. rewrite Hc1.
      assert (Hsome : ∀ id, id ∈ ids → is_Some (cylinders st !! id)).
      { intros id Hin. destruct (Hall id Hin) as (c & -> & _). eauto. }
      clearbody ids. clear -Hsome.
      induction ids as [|k ids IH]; [done|]. cbn.
      destruct (Hsome k) as [c Hk]; [left|]. rewrite Hk. cbn.
      f_equal. apply IH. intros id Hin. apply Hsome. by right. }
    exists (resolved_with_status st1 ids s l), new.
    split; [done|]. split; [done|]. split.
    { intros id Hin. rewrite Hc, decide_True, Hc1 by done.
      destruct (Hall id Hin) as (c & -> & _). done. }
    split.
    { intros id Hin. by rewrite Hc, decide_False, Hc1. }
    split; [by rewrite Hl, Hcl1|].
    rewrite Hlen, <-(length_fmap fst). by rewrite Hres.
Qed.

Lemma bulk_route_is_all_or_nothing_witness :
  (∃ code detail,
     fst (CylinderRouter.update_cylinder_status_bulk
            (DemoRouter.empty_all [10; 99]) DemoRouter.vendor7 Demo.st0)
     = Raise (HTTPException code detail))
  ∧ ∃ rows,
      fst (CylinderRouter.update_cylinder_status_bulk
             (DemoRouter.empty_all [10; 11]) DemoRouter.vendor7 Demo.st0)
      = Ok rows
      ∧ rows.*1 = [10; 11].
Proof.
  split.
  - destruct (proj1 (bulk_route_is_all_or_nothing Demo.st0
                       (DemoRouter.empty_all [10; 99]) DemoRouter.vendor7))
      as [(code & detail & Hr & _) _].
    + intros Hall. destruct (Hall 99) as (c & Hc & _).
      * apply list_elem_of_In. simpl. tauto.
      * vm_compute in Hc. discriminate Hc.
    + eauto.
  - destruct (proj2 (bulk_route_is_all_or_nothing Demo.st0
                       (DemoRouter.empty_all [10; 11]) DemoRouter.vendor7))
      as (rows & new & Hr & Hids & _).
    + intros id Hin. apply list_elem_of_In in Hin. simpl in Hin.
      destruct Hin as [<-|[<-|[]]];
        (eexists; split; [reflexivity|]; intros (_ & Hne & _); by apply Hne).
    + eauto.
Defined.

(** Only vendors register cylinders, and what a vendor registers is theirs:
    [create_cylinder] raises 403 for every other role and leaves the store
    as it was; for a vendor, a cylinder that was created is stored with the
    vendor as owner, unassigned and linked to no order, and the vendor passes
    the permission check of the other routes on it. *)
Theorem create_cylinder_makes_owner (st : Store) (cylinder_in : CylinderCreate.t)
    (current_user : User.t) :
  let r := CylinderRouter.create_cylinder cylinder_in current_user st in
  (User.role current_user ≠ UserRole.VENDOR →
     r = (Raise (HTTPException 403 "Only vendors can create cylinders"), st))
  ∧ (User.role current_user = UserRole.VENDOR →
     ∀ id row, fst r = Ok (id, row) →
       cylinders (snd r) !! id = Some row
       ∧ Cylinder.vendor_id row = User.id current_user
       ∧ Cylinder.is_assigned row = Some false
       ∧ Cylinder.current_order_id row = None
       ∧ permitted current_user (snd r) id).
Proof.
  intros r. subst r. unfold CylinderRouter.create_cylinder. split.
  - intros Hrole. by rewrite decide_True.
  - intros Hrole id row Hok. rewrite decide_False in * by (by intros ?).
    destruct (cylinder_create_spec st cylinder_in (User.id current_user))
      as [Hdup Hnew].
    pose proof (get_by_serial_number_None st
                  (CylinderCreate.serial_number cylinder_in)) as Hnone.
    destruct (fst (CylinderService.get_by_serial_number
                     (CylinderCreate.serial_number cylinder_in) st))
      as [[x|]|e] eqn:E.
    + assert (Hreg : serial_registered st
                       (CylinderCreate.serial_number cylinder_in)).
      { unfold CylinderService.get_by_serial_number, gets in E. cbn in E.
        injection E as E. apply head_Some_elem_of in E.
        apply list_elem_of_filter in E as [Hs Hin].
        destruct x as [k c]. apply elem_of_map_to_list in Hin.
        by exists k, c. }
      rewrite (Hdup Hreg) in Hok. discriminate Hok.
    + rewrite (Hnew (proj1 Hnone eq_refl)) in *. cbn in Hok.
      injection Hok as <- <-. cbn.
      assert (Hrow : <[fresh_id (cylinders st)
                       := created_cylinder cylinder_in (User.id current_user)]>
                       (cylinders st) !! fresh_id (cylinders st)
                     = Some (created_cylinder cylinder_in
                               (User.id current_user)))
        by apply lookup_insert_eq.
      do 4 (split; [done|]).
      eexists. split; [exact Hrow|]. by intros (_ & Hne & _).
    + discriminate E.
Qed.

Lemma create_cylinder_makes_owner_witness :
  fst (CylinderRouter.create_cylinder
         (CylinderCreate.mk "S-20" None CylinderStatus.FILLED)
         DemoRouter.hospital3 Demo.st0)
  = Raise (HTTPException 403 "Only vendors can create cylinders").
Proof.
  refine (f_equal fst
            (proj1 (create_cylinder_makes_owner Demo.st0
                      (CylinderCreate.mk "S-20" None CylinderStatus.FILLED)
                      DemoRouter.hospital3) _)).
  discriminate.
Defined.

(** What the listing route shows: a vendor gets rows of the table that they
    own, and nothing is changed; a hospital does not get the 403 the route
    means to raise but an attribute error, because the query parameter
    [status] hides the module the status code is read from. *)
Theorem list_cylinders_scope (st : Store) (status : option CylinderStatus.t)
    (is_assigned : option bool) (skip limit : nat) (current_user : User.t) :
  let r := CylinderRouter.list_cylinders status is_assigned skip limit
             current_user st in
  (User.role current_user = UserRole.VENDOR →
   User.id current_user ≠ 0 →
     ∃ rows, r = (Ok rows, st)
             ∧ ∀ id c, (id, c) ∈ rows →
                 cylinders st !! id = Some c
                 ∧ Cylinder.vendor_id c = User.id current_user)
  ∧ (User.role current_user = UserRole.HOSPITAL →
     r = (Raise (AttributeError "HTTP_403_FORBIDDEN"), st)).
Proof.
  intros r. subst r. unfold CylinderRouter.list_cylinders. split.
  - intros Hrole Hid. rewrite decide_True by done.
    unfold CylinderService.list, gets. eexists. split; [reflexivity|].
    intros id c Hin.
    assert (Hall : (id, c) ∈ filter
                     (CylinderService.list_filter (Some (User.id current_user))
                        status is_assigned)
                     (map_to_list (cylinders st))).
    { eapply elem_of_sublist; [exact Hin|].
      etrans; [apply sublist_take | apply sublist_drop]. }
    apply list_elem_of_filter in Hall as [(Hv & _) Hm].
    split; [by apply elem_of_map_to_list | by apply Hv].
  - intros Hrole. rewrite Hrole.
    rewrite decide_False by discriminate.
    by rewrite decide_True by discriminate.
Qed.

Lemma list_cylinders_scope_witness :
  CylinderRouter.list_cylinders None None 0 100 DemoRouter.hospital3 Demo.st0
  = (Raise (AttributeError "HTTP_403_FORBIDDEN"), Demo.st0).
Proof.
  exact (proj2 (list_cylinders_scope Demo.st0 None None 0 100
                  DemoRouter.hospital3) eq_refl).
Defined.
